(** * Nuclide: registry lookups, generated service proxies, the diff-view
    model, ASL log levels and undeclared JSX identifiers.

    Every JavaScript function is embedded as a Rocq function over explicit
    state.  A call that can throw returns a [completion]; a promise that has
    settled is a [Settled] value. *)

From Stdlib Require Import ZArith String Ascii List Lia DecimalString.
From stdpp Require Import base option list gmap strings.

Local Open Scope string_scope.
Local Open Scope Z_scope.
Local Open Scope list_scope.

(** ** JavaScript values shared by all the models *)

Module Js.

(** A thrown object: the message of an [Error], and the [stdout] property
    that a failed command adds to it. *)
Record Error := { message : string; stdout : option string }.

#[global] Instance Error_eq_dec : EqDecision Error.
Proof. solve_decision. Defined.

(** [new Error(message)] *)
Definition new_Error (message : string) : Error :=
  {| message := message; stdout := None |}.

(** How a call ends: with a value, or with a thrown object. *)
Inductive completion (A : Type) : Type :=
| Normal (a : A)
| Throw (e : Error).
Arguments Normal {A} a.
Arguments Throw {A} e.

(** A promise once it has settled. *)
Inductive Settled (A : Type) : Type :=
| Fulfilled (a : A)
| Rejected (e : Error).
Arguments Fulfilled {A} a.
Arguments Rejected {A} e.

(** A promise: how it settles, and when, counted in turns of the event loop
    from the call that looks at it. *)
Record Promise (A : Type) := { outcome : Settled A; settledAt : nat }.
Arguments outcome {A} _.
Arguments settledAt {A} _.

(** The rejection that comes first in time and the turn it comes in.  Of two
    rejections in one turn the one earlier in the array comes first:
    [Promise.all] subscribes to the promises in the order of the array, and
    reactions run in the order they were registered. *)
Fixpoint firstRejection {A} (promises : list (Promise A)) : option (nat * Error) :=
  match promises with
  | [] => None
  | promise :: rest =>
      match outcome promise, firstRejection rest with
      | Rejected e, Some (turn, later) =>
          if (turn <? settledAt promise)%nat then Some (turn, later)
          else Some (settledAt promise, e)
      | Rejected e, None => Some (settledAt promise, e)
      | Fulfilled _, found => found
      end
  end.

(** The values of the promises that are fulfilled, in the order of the array. *)
Definition fulfilments {A} (promises : list (Promise A)) : list A :=
  omap (fun promise =>
          match outcome promise with Fulfilled v => Some v | Rejected _ => None end)
       promises.

(** [Promise.all(promises)]: rejected as soon as one of the promises is,
    with that promise's reason; fulfilled with all the values, in the order
    of the array, when every promise is fulfilled. *)
Definition Promise_all {A} (promises : list (Promise A)) : Settled (list A) :=
  match firstRejection promises with
  | Some (_, e) => Rejected e
  | None => Fulfilled (fulfilments promises)
  end.

(** [Set<A>]: the elements in insertion order. *)
Section JsSet.
Context {A : Type} `{EqDecision A}.

Definition JsSet := list A.

(** [new Set()] *)
Definition set_new : JsSet := [].

(** [set.has(x)] *)
Definition set_has (s : JsSet) (x : A) : bool := bool_decide (x ∈ s).

(** [set.add(x)]: a value already present keeps its place. *)
Definition set_add (s : JsSet) (x : A) : JsSet :=
  if set_has s x then s else s ++ [x].

(** [new Set(iterable)] *)
Definition set_from (l : list A) : JsSet := fold_left set_add l set_new.
End JsSet.
Arguments JsSet A : clear implicits.

(** [Map<K, V>]: the entries in insertion order, one per key. *)
Section JsMap.
Context {K V : Type} `{EqDecision K}.

Definition JsMap := list (K * V).

(** [new Map()] *)
Definition map_new : JsMap := [].

(** [map.get(k)] *)
Fixpoint map_get (m : JsMap) (k : K) : option V :=
  match m with
  | [] => None
  | (k', v) :: m' => if decide (k' = k) then Some v else map_get m' k
  end.

(** [map.has(k)] *)
Definition map_has (m : JsMap) (k : K) : bool :=
  match map_get m k with Some _ => true | None => false end.

(** [map.set(k, v)]: an existing key keeps its place and takes the new
    value, a new key goes last. *)
Fixpoint map_set (m : JsMap) (k : K) (v : V) : JsMap :=
  match m with
  | [] => [(k, v)]
  | (k', v') :: m' =>
      if decide (k' = k) then (k, v) :: m' else (k', v') :: map_set m' k v
  end.

(** [map.delete(k)] *)
Fixpoint map_delete (m : JsMap) (k : K) : JsMap :=
  match m with
  | [] => []
  | (k', v') :: m' =>
      if decide (k' = k) then m' else (k', v') :: map_delete m' k
  end.

(** [map.keys()] and [map.values()] *)
Definition map_keys (m : JsMap) : list K := m.*1.
Definition map_values (m : JsMap) : list V := m.*2.

(** What [delete] does to the keys: the first occurrence goes. *)
Fixpoint delete_key (k : K) (keys : list K) : list K :=
  match keys with
  | [] => []
  | k' :: keys' => if decide (k' = k) then keys' else k' :: delete_key k keys'
  end.
End JsMap.
Arguments JsMap K V : clear implicits.

(** [haystack.indexOf(needle)]: the first position at which [needle]
    starts, [-1] when there is none. *)
Fixpoint indexOf_from (i : Z) (haystack needle : string) : Z :=
  if String.prefix needle haystack then i
  else match haystack with
       | EmptyString => -1
       | String _ rest => indexOf_from (i + 1) rest needle
       end.

Definition indexOf (haystack needle : string) : Z :=
  indexOf_from 0 haystack needle.

End Js.

Import Js.

(** ** ASL records to output messages ([createMessage]) *)

Module AslUtils.

(** Modelled from the spec: the [AslRecord] type of [./types] is not among
    the sources; the two fields [createMessage] reads are kept.  [Level] is
    a string, so that values outside ['0'..'7'] can be given. *)
Record AslRecord := { Level : string; Message : string }.

(** The [Message] of [output/lib/types]: a text and a level name. *)
Record OutputMessage := { text : string; level : string }.

Definition getLevel (level : string) : completion string :=
  match level with
  | "0" (* Emergency *)
  | "1" (* Alert *)
  | "2" (* Critical *)
  | "3" (* Error *) => Normal "error"
  | "4" (* Warning *) => Normal "warning"
  | "5" (* Notice *) => Normal "log"
  | "6" (* Info *) => Normal "info"
  | "7" (* Debug *) => Normal "debug"
  | _ => Throw (new_Error ("Invalid ASL level: " +:+ level))
  end.

(** The object literal evaluates [getLevel] before the object exists, so a
    throw leaves no message behind. *)
Definition createMessage (record : AslRecord) : completion OutputMessage :=
  match getLevel (Level record) with
  | Normal l => Normal {| text := Message record; level := l |}
  | Throw e => Throw e
  end.

End AslUtils.

(** ** Undeclared JSX identifiers *)

Module Jsx.
Section GetUndeclaredJSXIdentifiers.
(** The AST collection, the options and the two analyses the function
    requires live in other modules; they are parameters here. *)
Variables Collection SourceOptions : Type.
Variable getDeclaredIdentifiers : Collection -> SourceOptions -> JsSet string.
Variable getJSXIdentifiers : Collection -> JsSet string.

Definition getUndeclaredJSXIdentifiers
    (root : Collection) (options : SourceOptions) : JsSet string :=
  let declaredIdentifiers := getDeclaredIdentifiers root options in
  let jsxIdentifiers := getJSXIdentifiers root in
  let undeclared := set_new in
  fold_left
    (fun undeclared id =>
       if negb (set_has declaredIdentifiers id)
       then set_add undeclared id
       else undeclared)
    jsxIdentifiers undeclared.
End GetUndeclaredJSXIdentifiers.
End Jsx.

(** ** The generated proxy of the [UnionTypes] service *)

Module ServiceProxy.

(** Where a type was declared in the service definition file. *)
Record Location := { type : string; fileName : string; line : nat }.

(** A type as the proxy hands it to the marshaller. *)
Record TypeDesc := { location : Location; kind : string; name : string }.

Section Proxy.
(** Argument values are opaque to the proxy, and so is the client's state. *)
Variables Value ClientState : Type.

(** The two methods of [_client] that the proxy uses.  [marshal] answers with
    a promise, and so does [callRemoteFunction] for a ["void"] or promise
    return kind; each may change the client. *)
Record Client := {
  marshal : Value -> TypeDesc -> ClientState -> Promise Value * ClientState;
  callRemoteFunction :
    string -> string -> list Value -> ClientState -> Settled Value * ClientState }.

(** What was asked of the client, in the order it was asked. *)
Inductive ClientCall :=
| marshal_call (value : Value) (type : TypeDesc)
| callRemoteFunction_call (name returnType : string) (args : list Value).

(** A computation over the client and the record of calls made so far. *)
Definition M (A : Type) : Type :=
  ClientState * list ClientCall -> A * (ClientState * list ClientCall).

Definition ret {A} (a : A) : M A := fun w => (a, w).

Definition bind {A B} (m : M A) (k : A -> M B) : M B :=
  fun w => let (a, w') := m w in k a w'.

Variable _client : Client.

Definition _client_marshal (value : Value) (type : TypeDesc) : M (Promise Value) :=
  fun '(c, calls) =>
    let (p, c') := marshal _client value type c in
    (p, (c', calls ++ [marshal_call value type])).

Definition _client_callRemoteFunction
    (name returnType : string) (args : list Value) : M (Settled Value) :=
  fun '(c, calls) =>
    let (p, c') := callRemoteFunction _client name returnType args c in
    (p, (c', calls ++ [callRemoteFunction_call name returnType args])).

(** [promise.then(onFulfilled)], where [onFulfilled] returns a promise: a
    rejection passes through and [onFulfilled] does not run. *)
Definition then_ {A B} (promise : Settled A) (onFulfilled : A -> M (Settled B))
    : M (Settled B) :=
  match promise with
  | Fulfilled a => onFulfilled a
  | Rejected e => ret (Rejected e)
  end.

Definition source (l : nat) : Location :=
  {| type := "source"; fileName := "UnionTypes.def"; line := l |}.

Definition UnionFunc (arg0 arg1 : Value) : M (Settled Value) :=
  bind (_client_marshal arg0
          {| location := source 6; kind := "named"; name := "SSU" |}) (fun p0 =>
  bind (_client_marshal arg1
          {| location := source 6; kind := "named"; name := "MixedUnion" |}) (fun p1 =>
  then_ (Promise_all [p0; p1]) (fun args =>
    _client_callRemoteFunction "UnionTypes/UnionFunc" "void" args))).

Definition ObjectUnionFunc (arg0 : Value) : M (Settled Value) :=
  bind (_client_marshal arg0
          {| location := source 20; kind := "named"; name := "Location" |}) (fun p0 =>
  then_ (Promise_all [p0]) (fun args =>
    _client_callRemoteFunction "UnionTypes/ObjectUnionFunc" "void" args)).

Definition TypeFunc (arg0 : Value) : M (Settled Value) :=
  bind (_client_marshal arg0
          {| location := source 111; kind := "named"; name := "Type" |}) (fun p0 =>
  then_ (Promise_all [p0]) (fun args =>
    _client_callRemoteFunction "UnionTypes/TypeFunc" "void" args)).

Definition MDUFunc (arg0 : Value) : M (Settled Value) :=
  bind (_client_marshal arg0
          {| location := source 116; kind := "named";
             name := "MultipleDiscriminantUnion" |}) (fun p0 =>
  then_ (Promise_all [p0]) (fun args =>
    _client_callRemoteFunction "UnionTypes/MDUFunc" "void" args)).

(** The exported object, each property taking the call's argument list; an
    argument that was not passed is [undefined]. *)
Variable undefined : Value.

Definition remoteModule : list (string * (list Value -> M (Settled Value))) :=
  [ ("UnionFunc", fun a => UnionFunc (nth 0 a undefined) (nth 1 a undefined));
    ("ObjectUnionFunc", fun a => ObjectUnionFunc (nth 0 a undefined));
    ("TypeFunc", fun a => TypeFunc (nth 0 a undefined));
    ("MDUFunc", fun a => MDUFunc (nth 0 a undefined)) ].

End Proxy.

Arguments marshal_call {Value}.
Arguments callRemoteFunction_call {Value}.

(** A parameter type that [UnionTypes.def] declares: the named type and the
    line of the declaration. *)
Definition named (n : string) (l : nat) : TypeDesc :=
  {| location := source l; kind := "named"; name := n |}.

End ServiceProxy.

(** ** The registry of remote connections

    [RemoteConnection], [ServerConnection] and the URI parser are not among
    the sources; the tests of [RemoteConnection] are.  The data follows what
    the tests build: a map from hostname to [ServerConnection], each server
    holding the connections added to it. *)

Module Remote.

(** A connection: its identity as an object, the hostname of the server it
    was made with, and its root directory. *)
Record RemoteConnection := {
  connection_id : nat;
  connection_hostname : string;
  connection_path : string }.

#[global] Instance RemoteConnection_eq_dec : EqDecision RemoteConnection.
Proof. solve_decision. Defined.

(** [new ServerConnection({host, port})] and what [addConnection] collected. *)
Record ServerConnection := {
  host : string;
  port : N;
  _connections : list RemoteConnection }.

(** [new RemoteConnection(server, path)] *)
Definition new_RemoteConnection (id : nat) (server : ServerConnection) (path : string)
    : RemoteConnection :=
  {| connection_id := id; connection_hostname := host server; connection_path := path |}.

(** [server.addConnection(connection)] *)
Definition addConnection (server : ServerConnection) (connection : RemoteConnection)
    : ServerConnection :=
  {| host := host server; port := port server;
     _connections := _connections server ++ [connection] |}.

(** Modelled from the spec: the test of whether a path lies within a root
    directory, which [getByHostnameAndPath] applies and whose source is
    missing.  [path] is within [root] when it equals [root] or is a file
    path beneath it, as [root + '/def/abc.txt'] is. *)
Definition isWithin (root path : string) : bool :=
  String.eqb path root || String.prefix (root +:+ "/") path.

(** Modelled from the spec: [RemoteConnection.getByHostname], missing from
    the sources: the connections of the server registered under the
    hostname, none when no server is. *)
Definition getByHostname (connections : gmap string ServerConnection)
    (hostname : string) : list RemoteConnection :=
  match connections !! hostname with
  | Some server => _connections server
  | None => []
  end.

(** Modelled from the spec: [RemoteConnection.getByHostnameAndPath], missing
    from the sources.  The registry maps a hostname and a path to a
    connection: the connection of that host whose root directory the path
    lies within, the earliest added when there are several, [undefined]
    ([None]) when there is none. *)
Definition getByHostnameAndPath (connections : gmap string ServerConnection)
    (hostname path : string) : option RemoteConnection :=
  head (filter (fun c => isWithin (connection_path c) path = true)
               (getByHostname connections hostname)).

(** A connection is registered under a hostname when the server stored
    under that hostname holds it. *)
Definition registered (connections : gmap string ServerConnection)
    (hostname : string) (c : RemoteConnection) : Prop :=
  exists server, connections !! hostname = Some server /\ c ∈ _connections server.

(** *** URIs *)

Definition isDigit (c : ascii) : bool :=
  let n := nat_of_ascii c in (48 <=? n)%nat && (n <=? 57)%nat.

(** The end of a hostname: the port's colon or the path's slash. *)
Definition endsHostname (c : ascii) : bool :=
  Ascii.eqb c ":" || Ascii.eqb c "/".

Fixpoint stripPrefix (prefix s : string) : option string :=
  match prefix, s with
  | EmptyString, _ => Some s
  | String a prefix', String b s' =>
      if Ascii.eqb a b then stripPrefix prefix' s' else None
  | String _ _, EmptyString => None
  end.

Fixpoint splitHostname (s : string) : string * string :=
  match s with
  | EmptyString => (EmptyString, EmptyString)
  | String c s' =>
      if endsHostname c then (EmptyString, s)
      else let (hostname, rest) := splitHostname s' in (String c hostname, rest)
  end.

Fixpoint skipDigits (s : string) : string :=
  match s with
  | EmptyString => EmptyString
  | String c s' => if isDigit c then skipDigits s' else s
  end.

(** Modelled from the spec: the parser of remote URIs, missing from the
    sources.  A remote URI reads ['nuclide://' + hostname + ':' + port +
    path]; the parser gives back the hostname and the path and drops the
    port.  A string without the scheme is not a remote URI. *)
Definition parseRemoteUri (uri : string) : option (string * string) :=
  match stripPrefix "nuclide://" uri with
  | None => None
  | Some afterScheme =>
      let (hostname, rest) := splitHostname afterScheme in
      match rest with
      | String ":" afterColon => Some (hostname, skipDigits afterColon)
      | _ => Some (hostname, rest)
      end
  end.

(** Modelled from the spec: [RemoteConnection.getForUri], missing from the
    sources: the lookup by the hostname and the path of the URI. *)
Definition getForUri (connections : gmap string ServerConnection) (uri : string)
    : option RemoteConnection :=
  match parseRemoteUri uri with
  | Some (hostname, path) => getByHostnameAndPath connections hostname path
  | None => None
  end.

(** A port number in decimal, as a template literal prints it. *)
Definition decimal (n : N) : string := NilEmpty.string_of_uint (N.to_uint n).

(** [`nuclide://${hostname}:${port}${path}`] *)
Definition remoteUri (hostname : string) (port : N) (path : string) : string :=
  "nuclide://" +:+ hostname +:+ ":" +:+ decimal port +:+ path.

(** A hostname holds neither [':'] nor ['/']. *)
Fixpoint isHostname (s : string) : bool :=
  match s with
  | EmptyString => true
  | String c s' => negb (endsHostname c) && isHostname s'
  end.

(** A path on the remote host starts at the root directory. *)
Definition isAbsolute (path : string) : bool :=
  match path with
  | String c _ => Ascii.eqb c "/"
  | EmptyString => false
  end.

(** *** The registry of the tests

    [beforeEach]: a server for ['foo.nuclide.com'], stored under its
    hostname, with one connection rooted at ['/home/foo/test']. *)
Definition testHostname : string := "foo.nuclide.com".
Definition testPath : string := "/home/foo/test".

Definition testServer : ServerConnection :=
  {| host := testHostname; port := 8192%N; _connections := [] |}.

Definition testConnection : RemoteConnection :=
  new_RemoteConnection 0 testServer testPath.

Definition testConnections : gmap string ServerConnection :=
  <[testHostname := addConnection testServer testConnection]> ∅.

(** *** A registry with several connections

    Two servers.  Under the first, three connections: one rooted at the
    parent of [testPath], one at [testPath], one at a sibling directory;
    under the second, one connection rooted at [testPath]. *)
Definition otherHostname : string := "bar.nuclide.com".
Definition outerPath : string := "/home/foo".
Definition siblingPath : string := "/home/bar/test".

Definition otherServer : ServerConnection :=
  {| host := otherHostname; port := 8192%N; _connections := [] |}.

Definition outerConnection : RemoteConnection :=
  new_RemoteConnection 1 testServer outerPath.
Definition nestedConnection : RemoteConnection :=
  new_RemoteConnection 2 testServer testPath.
Definition siblingConnection : RemoteConnection :=
  new_RemoteConnection 3 testServer siblingPath.
Definition otherConnection : RemoteConnection :=
  new_RemoteConnection 4 otherServer testPath.

Definition severalConnections : gmap string ServerConnection :=
  <[otherHostname := addConnection otherServer otherConnection]>
    (<[testHostname :=
         addConnection
           (addConnection (addConnection testServer outerConnection) nestedConnection)
           siblingConnection]> ∅).

End Remote.

(** ** The diff view model

    The fields of [DiffViewModel] that hold the state, the repository stacks,
    the active stack and the subscriptions, and the methods that read or
    write them.  The other half of the class, the state of the active file,
    reaches these fields through [_fetchHgDiff] and
    [_updateChangedRevisions] alone, which are modelled as far as they do;
    it is modelled apart, in [ActiveFile].
    What the emitter's listeners do when an event reaches them, and the
    timing that the [trackTiming] decorators record, lie outside the class
    and outside the model. *)

Module DiffView.

(** Modelled from the spec: [./constants] is not among the sources.  Each
    enumeration has the members that [DiffViewModel] names. *)
Module DiffMode.
Inductive t := BROWSE_MODE | COMMIT_MODE | PUBLISH_MODE.
End DiffMode.

Module CommitMode.
Inductive t := COMMIT | AMEND.
End CommitMode.

Module CommitModeState.
Inductive t := READY | LOADING_COMMIT_MESSAGE | AWAITING_COMMIT.
End CommitModeState.

Module PublishMode.
Inductive t := CREATE | UPDATE.
End PublishMode.

Module PublishModeState.
Inductive t := READY | LOADING_PUBLISH_MESSAGE | AWAITING_PUBLISH.
End PublishModeState.

#[global] Instance DiffMode_eq_dec : EqDecision DiffMode.t.
Proof. solve_decision. Defined.

(** [Map<NuclideUri, FileChangeStatusValue>]; these maps are built whole and
    never updated in place. *)
Abbreviation FileChanges := (gmap string nat).

(** Modelled from the spec: [RevisionInfo] of [HgService] and
    [RevisionsState] of [./types] are not among the sources; the fields
    that [DiffViewModel] reads are kept. *)
Record RevisionInfo := {
  hash : string;
  bookmarks : list string;
  description : string }.

Record RevisionsState := { revisions : list RevisionInfo }.

Record State := {
  viewMode : DiffMode.t;
  commitMessage : option string;
  commitMode : CommitMode.t;
  commitModeState : CommitModeState.t;
  publishMessage : option string;
  publishMode : PublishMode.t;
  publishModeState : PublishModeState.t;
  headRevision : option RevisionInfo;
  dirtyFileChanges : FileChanges;
  commitMergeFileChanges : FileChanges;
  compareFileChanges : FileChanges }.

(** The object spreads [{...this._state, field}], one setter per field. *)
Definition set_viewMode (v : DiffMode.t) (s : State) : State :=
  {| viewMode := v; commitMessage := commitMessage s; commitMode := commitMode s;
     commitModeState := commitModeState s; publishMessage := publishMessage s;
     publishMode := publishMode s; publishModeState := publishModeState s;
     headRevision := headRevision s; dirtyFileChanges := dirtyFileChanges s;
     commitMergeFileChanges := commitMergeFileChanges s;
     compareFileChanges := compareFileChanges s |}.

Definition set_commitMessage (v : option string) (s : State) : State :=
  {| viewMode := viewMode s; commitMessage := v; commitMode := commitMode s;
     commitModeState := commitModeState s; publishMessage := publishMessage s;
     publishMode := publishMode s; publishModeState := publishModeState s;
     headRevision := headRevision s; dirtyFileChanges := dirtyFileChanges s;
     commitMergeFileChanges := commitMergeFileChanges s;
     compareFileChanges := compareFileChanges s |}.

Definition set_commitMode (v : CommitMode.t) (s : State) : State :=
  {| viewMode := viewMode s; commitMessage := commitMessage s; commitMode := v;
     commitModeState := commitModeState s; publishMessage := publishMessage s;
     publishMode := publishMode s; publishModeState := publishModeState s;
     headRevision := headRevision s; dirtyFileChanges := dirtyFileChanges s;
     commitMergeFileChanges := commitMergeFileChanges s;
     compareFileChanges := compareFileChanges s |}.

Definition set_commitModeState (v : CommitModeState.t) (s : State) : State :=
  {| viewMode := viewMode s; commitMessage := commitMessage s; commitMode := commitMode s;
     commitModeState := v; publishMessage := publishMessage s;
     publishMode := publishMode s; publishModeState := publishModeState s;
     headRevision := headRevision s; dirtyFileChanges := dirtyFileChanges s;
     commitMergeFileChanges := commitMergeFileChanges s;
     compareFileChanges := compareFileChanges s |}.

Definition set_publishMessage (v : option string) (s : State) : State :=
  {| viewMode := viewMode s; commitMessage := commitMessage s; commitMode := commitMode s;
     commitModeState := commitModeState s; publishMessage := v;
     publishMode := publishMode s; publishModeState := publishModeState s;
     headRevision := headRevision s; dirtyFileChanges := dirtyFileChanges s;
     commitMergeFileChanges := commitMergeFileChanges s;
     compareFileChanges := compareFileChanges s |}.

Definition set_publishMode (v : PublishMode.t) (s : State) : State :=
  {| viewMode := viewMode s; commitMessage := commitMessage s; commitMode := commitMode s;
     commitModeState := commitModeState s; publishMessage := publishMessage s;
     publishMode := v; publishModeState := publishModeState s;
     headRevision := headRevision s; dirtyFileChanges := dirtyFileChanges s;
     commitMergeFileChanges := commitMergeFileChanges s;
     compareFileChanges := compareFileChanges s |}.

Definition set_publishModeState (v : PublishModeState.t) (s : State) : State :=
  {| viewMode := viewMode s; commitMessage := commitMessage s; commitMode := commitMode s;
     commitModeState := commitModeState s; publishMessage := publishMessage s;
     publishMode := publishMode s; publishModeState := v;
     headRevision := headRevision s; dirtyFileChanges := dirtyFileChanges s;
     commitMergeFileChanges := commitMergeFileChanges s;
     compareFileChanges := compareFileChanges s |}.

Definition set_headRevision (v : option RevisionInfo) (s : State) : State :=
  {| viewMode := viewMode s; commitMessage := commitMessage s; commitMode := commitMode s;
     commitModeState := commitModeState s; publishMessage := publishMessage s;
     publishMode := publishMode s; publishModeState := publishModeState s;
     headRevision := v; dirtyFileChanges := dirtyFileChanges s;
     commitMergeFileChanges := commitMergeFileChanges s;
     compareFileChanges := compareFileChanges s |}.

Definition set_fileChanges (dirty commitMerge compare : FileChanges) (s : State) : State :=
  {| viewMode := viewMode s; commitMessage := commitMessage s; commitMode := commitMode s;
     commitModeState := commitModeState s; publishMessage := publishMessage s;
     publishMode := publishMode s; publishModeState := publishModeState s;
     headRevision := headRevision s; dirtyFileChanges := dirty;
     commitMergeFileChanges := commitMerge;
     compareFileChanges := compare |}.

(** A repository of the project; [getType()] answers its kind. *)
Record Repository := { repository_id : nat; getType : string }.

#[global] Instance Repository_eq_dec : EqDecision Repository.
Proof. solve_decision. Defined.

(** [new RepositoryStack(repository)]: an object of its own identity. *)
Record RepositoryStack := { stack_id : nat; stack_repository : Repository }.

#[global] Instance RepositoryStack_eq_dec : EqDecision RepositoryStack.
Proof. solve_decision. Defined.

(** [new CompositeDisposable()], by its identity. *)
Record CompositeDisposable := { disposable_id : nat }.

#[global] Instance CompositeDisposable_eq_dec : EqDecision CompositeDisposable.
Proof. solve_decision. Defined.

(** The instance.  [_objects] counts the objects it has created and gives
    the next one its identity. *)
Record DiffViewModel := {
  _activeSubscriptions : option CompositeDisposable;
  _repositoryStacks : JsMap Repository RepositoryStack;
  _repositorySubscriptions : JsMap Repository CompositeDisposable;
  _activeRepositoryStack : option RepositoryStack;
  _isActive : bool;
  _state : State;
  _objects : nat }.

(** What a method does to the world around the instance. *)
Inductive Effect :=
| emit (event : string)
| track (event : string)
| notifyInternalError (error : Error)
| addSuccess (message : string)
| addError (message detail : string)
| awaitMilliSeconds (ms : nat)
| new_RepositoryStack (stack : RepositoryStack)
| stack_subscribe (stack : RepositoryStack) (event : string) (to : CompositeDisposable)
| stack_activate (stack : RepositoryStack)
| stack_deactivate (stack : RepositoryStack)
| stack_dispose (stack : RepositoryStack)
| stack_commit (stack : RepositoryStack) (message : string)
| stack_amend (stack : RepositoryStack) (message : string)
| stack_getRevisionsStatePromise (stack : RepositoryStack)
| stack_getCachedRevisionsStatePromise (stack : RepositoryStack)
| stack_getTemplateCommitMessage (stack : RepositoryStack)
| subscriptions_dispose (subscriptions : CompositeDisposable)
| _subscriptions_dispose
| file_onDidChange (filePath : string) (to : CompositeDisposable)
| buffer_onDidChangeModified (filePath : string) (to : CompositeDisposable)
| project_onDidChangePaths.

#[global] Instance Effect_eq_dec : EqDecision Effect.
Proof. solve_decision. Defined.

(** *** Methods as computations

    A method takes the instance, and gives back how it ended, the instance
    as it left it and what it did. *)
Definition M (A : Type) : Type :=
  DiffViewModel -> completion A * DiffViewModel * list Effect.

Definition ret {A} (a : A) : M A := fun this => (Normal a, this, []).

Definition throw {A} (e : Error) : M A := fun this => (Throw e, this, []).

Definition bind {A B} (m : M A) (k : A -> M B) : M B :=
  fun this =>
    match m this with
    | (Normal a, this', done) =>
        let '(r, this'', done') := k a this' in (r, this'', done ++ done')
    | (Throw e, this', done) => (Throw e, this', done)
    end.

Notation "'let!' x ':=' m 'in' k" := (bind m (fun x => k))
  (at level 10, x name, m at level 100, k at level 200).
Notation "'run!' m 'in' k" := (bind m (fun _ => k))
  (at level 10, m at level 100, k at level 200).

Definition gets {A} (f : DiffViewModel -> A) : M A := fun this => (Normal (f this), this, []).

Definition modify (f : DiffViewModel -> DiffViewModel) : M unit :=
  fun this => (Normal tt, f this, []).

Definition perform (e : Effect) : M unit := fun this => (Normal tt, this, [e]).

(** [try { body } catch (e) { handler }] *)
Definition try_catch {A} (body : M A) (handler : Error -> M A) : M A :=
  fun this =>
    match body this with
    | (Normal a, this', done) => (Normal a, this', done)
    | (Throw e, this', done) =>
        let '(r, this'', done') := handler e this' in (r, this'', done ++ done')
    end.

(** [try { body } finally { finalizer }]: the finalizer runs in either case,
    and its own throw takes over. *)
Definition try_finally {A} (body : M A) (finalizer : M unit) : M A :=
  fun this =>
    let '(r, this', done) := body this in
    match finalizer this' with
    | (Normal _, this'', done') => (r, this'', done ++ done')
    | (Throw e, this'', done') => (Throw e, this'', done ++ done')
    end.

(** [invariant(value, message)] of [assert], on a value that may be null. *)
Definition invariant {A} (value : option A) (message : string) : M A :=
  match value with
  | Some a => ret a
  | None => throw (new_Error message)
  end.

(** [invariant(condition, message)] *)
Definition invariant_that (condition : bool) (message : string) : M unit :=
  if condition then ret tt else throw (new_Error message).

(** [for (const x of xs) { body }] *)
Fixpoint for_each {A} (xs : list A) (body : A -> M unit) : M unit :=
  match xs with
  | [] => ret tt
  | x :: xs' => run! body x in for_each xs' body
  end.

(** While a method waits on a promise, other tasks run and may change the
    instance. *)
Definition Interleaving := DiffViewModel -> DiffViewModel.

(** A promise awaited: how it settles, and what happens to the instance in
    the meantime. *)
Record Awaited (A : Type) := {
  settles : Settled A;
  meanwhile : Interleaving }.
Arguments settles {A} _.
Arguments meanwhile {A} _.

(** [await promise] *)
Definition await {A} (promise : Awaited A) : M A :=
  fun this =>
    (match settles promise with Fulfilled a => Normal a | Rejected e => Throw e end,
     meanwhile promise this, []).

(** A call of an [async] method that is not awaited: what it throws stays
    in its promise. *)
Definition async_call {A} (m : M A) : M (Settled A) :=
  fun this =>
    match m this with
    | (Normal a, this', done) => (Normal (Fulfilled a), this', done)
    | (Throw e, this', done) => (Normal (Rejected e), this', done)
    end.

(** [promise.catch(onRejected)] *)
Definition catch {A} (promise : Settled A) (onRejected : Error -> M unit) : M unit :=
  match promise with
  | Fulfilled _ => ret tt
  | Rejected e => onRejected e
  end.

(** *** What the host answers

    The project, the repository stacks and [commons] are outside the class;
    a [Host] holds what they answer when a method asks. *)
Record Host := {
  (** [atom.project.getRepositories()] *)
  getRepositories : list (option Repository);
  (** [repositoryStack.getDirtyFileChanges()] *)
  getDirtyFileChanges : RepositoryStack -> FileChanges;
  (** [repositoryStack.getCommitMergeFileChanges()] *)
  getCommitMergeFileChanges : RepositoryStack -> FileChanges;
  (** [map.union(...maps)] of [commons] *)
  union : list FileChanges -> FileChanges }.

Definition CHANGE_REVISIONS_EVENT : string := "did-change-revisions".
Definition DID_UPDATE_STATE_EVENT : string := "did-update-state".
Definition UPDATE_REVISION_TEMPLATE : string := EmptyString.

(** [message.replace(/\\n/g, '\n')]: every backslash followed by [n] becomes
    a line feed. *)
Fixpoint convertNewlines (message : string) : string :=
  match message with
  | EmptyString => EmptyString
  | String "\" (String "n" rest) => String (ascii_of_nat 10) (convertNewlines rest)
  | String c rest => String c (convertNewlines rest)
  end.

(** Assignments to the fields of [this]. *)
Definition with_repositoryStacks (v : JsMap Repository RepositoryStack)
    (this : DiffViewModel) : DiffViewModel :=
  {| _activeSubscriptions := _activeSubscriptions this;
     _repositoryStacks := v;
     _repositorySubscriptions := _repositorySubscriptions this;
     _activeRepositoryStack := _activeRepositoryStack this;
     _isActive := _isActive this; _state := _state this; _objects := _objects this |}.

Definition with_repositorySubscriptions (v : JsMap Repository CompositeDisposable)
    (this : DiffViewModel) : DiffViewModel :=
  {| _activeSubscriptions := _activeSubscriptions this;
     _repositoryStacks := _repositoryStacks this;
     _repositorySubscriptions := v;
     _activeRepositoryStack := _activeRepositoryStack this;
     _isActive := _isActive this; _state := _state this; _objects := _objects this |}.

Definition with_activeRepositoryStack (v : option RepositoryStack)
    (this : DiffViewModel) : DiffViewModel :=
  {| _activeSubscriptions := _activeSubscriptions this;
     _repositoryStacks := _repositoryStacks this;
     _repositorySubscriptions := _repositorySubscriptions this;
     _activeRepositoryStack := v;
     _isActive := _isActive this; _state := _state this; _objects := _objects this |}.

Definition with_isActive (v : bool) (this : DiffViewModel) : DiffViewModel :=
  {| _activeSubscriptions := _activeSubscriptions this;
     _repositoryStacks := _repositoryStacks this;
     _repositorySubscriptions := _repositorySubscriptions this;
     _activeRepositoryStack := _activeRepositoryStack this;
     _isActive := v; _state := _state this; _objects := _objects this |}.

Definition with_state (v : State) (this : DiffViewModel) : DiffViewModel :=
  {| _activeSubscriptions := _activeSubscriptions this;
     _repositoryStacks := _repositoryStacks this;
     _repositorySubscriptions := _repositorySubscriptions this;
     _activeRepositoryStack := _activeRepositoryStack this;
     _isActive := _isActive this; _state := v; _objects := _objects this |}.

Definition with_activeSubscriptions (v : option CompositeDisposable)
    (this : DiffViewModel) : DiffViewModel :=
  {| _activeSubscriptions := v;
     _repositoryStacks := _repositoryStacks this;
     _repositorySubscriptions := _repositorySubscriptions this;
     _activeRepositoryStack := _activeRepositoryStack this;
     _isActive := _isActive this; _state := _state this; _objects := _objects this |}.

Definition with_objects (v : nat) (this : DiffViewModel) : DiffViewModel :=
  {| _activeSubscriptions := _activeSubscriptions this;
     _repositoryStacks := _repositoryStacks this;
     _repositorySubscriptions := _repositorySubscriptions this;
     _activeRepositoryStack := _activeRepositoryStack this;
     _isActive := _isActive this; _state := _state this; _objects := v |}.

Definition write_repositoryStacks (v : JsMap Repository RepositoryStack) : M unit :=
  modify (with_repositoryStacks v).

Definition write_repositorySubscriptions (v : JsMap Repository CompositeDisposable)
    : M unit :=
  modify (with_repositorySubscriptions v).

Definition write_activeRepositoryStack (v : option RepositoryStack) : M unit :=
  modify (with_activeRepositoryStack v).

Definition write_isActive (v : bool) : M unit := modify (with_isActive v).

Definition write_activeSubscriptions (v : option CompositeDisposable) : M unit :=
  modify (with_activeSubscriptions v).

Definition write_state (v : State) : M unit := modify (with_state v).

(** [new ...()]: the identity of the object created. *)
Definition new_object : M nat :=
  fun this => (Normal (_objects this), with_objects (S (_objects this)) this, []).

Definition _setState (newState : State) : M unit :=
  run! write_state newState in
  perform (emit DID_UPDATE_STATE_EVENT).

(** [{...this._state, fields}]: the current state with some fields replaced. *)
Definition spread (fields : State -> State) : M State :=
  gets (fun this => fields (_state this)).

(** [method(argument)], the argument being evaluated first. *)
Definition call {A B} (method : A -> M B) (argument : M A) : M B :=
  let! a := argument in method a.

Definition _updateCompareChangedStatus (dirty commitMerge : option FileChanges)
    : M unit :=
  let! dirty :=
    match dirty with
    | None => gets (fun this => dirtyFileChanges (_state this))
    | Some changes => ret changes
    end in
  let! commitMerge :=
    match commitMerge with
    | None => gets (fun this => commitMergeFileChanges (_state this))
    | Some changes => ret changes
    end in
  let! mode := gets (fun this => viewMode (_state this)) in
  let compare :=
    if decide (mode = DiffMode.COMMIT_MODE) then dirty else commitMerge in
  call _setState (spread (set_fileChanges dirty commitMerge compare)).

Definition _updateDirtyChangedStatus (host : Host) : M unit :=
  let! stacks := gets _repositoryStacks in
  let changes := union host (map (getDirtyFileChanges host) (map_values stacks)) in
  _updateCompareChangedStatus (Some changes) None.

Definition _updateCommitMergeFileChanges (host : Host) : M unit :=
  let! stacks := gets _repositoryStacks in
  let changes := union host (map (getCommitMergeFileChanges host) (map_values stacks)) in
  _updateCompareChangedStatus None (Some changes).

Definition getActiveRevisionsState (revisions : Awaited (option RevisionsState))
    : M (option RevisionsState) :=
  let! active := gets _activeRepositoryStack in
  match active with
  | None =>
      (* [return null]: the caller's [await] still gives way to other tasks *)
      await {| settles := Fulfilled None; meanwhile := meanwhile revisions |}
  | Some stack =>
      run! perform (stack_getCachedRevisionsStatePromise stack) in
      await revisions
  end.

Definition _loadActiveRepositoryLatestCommitMessage
    (revisions : Awaited (option RevisionsState)) : M string :=
  let! active := gets _activeRepositoryStack in
  match active with
  | None => throw (new_Error "Diff View: No active file or repository open")
  | Some _ =>
      let! revisionsState := getActiveRevisionsState revisions in
      let! revisionsState :=
        invariant revisionsState
          "Diff View Internal Error: revisionsState cannot be null" in
      let revisions := DiffView.revisions revisionsState in
      run! invariant_that (0 <? length revisions)%nat
             "Diff View Error: Cannot amend non-existing commit" in
      match last revisions with
      | Some revision => ret (description revision)
      | None => throw (new_Error "Cannot read property 'description' of undefined")
      end
  end.

Definition _loadActiveRepositoryTemplateCommitMessage
    (template : Awaited (option string)) : M (Awaited (option string)) :=
  let! active := gets _activeRepositoryStack in
  match active with
  | None => throw (new_Error "Diff View: No active file or repository open")
  | Some stack =>
      run! perform (stack_getTemplateCommitMessage stack) in
      ret template
  end.

(** The local [commitMessage] is what the [try] block assigned, and stays
    [undefined] when the block threw; the [finally] block reads it. *)
Definition _loadCommitModeState
    (template : Awaited (option string))
    (revisions : Awaited (option RevisionsState)) : M unit :=
  run! call _setState (spread (set_commitModeState CommitModeState.LOADING_COMMIT_MESSAGE)) in
  let! commitMessage :=
    try_catch
      (let! mode := gets (fun this => commitMode (_state this)) in
       match mode with
       | CommitMode.COMMIT =>
           let! promise := _loadActiveRepositoryTemplateCommitMessage template in
           let! commitMessage := await promise in
           ret (convertNewlines <$> commitMessage)
       | CommitMode.AMEND =>
           let! commitMessage := _loadActiveRepositoryLatestCommitMessage revisions in
           ret (Some commitMessage)
       end)
      (fun error => run! perform (notifyInternalError error) in ret None) in
  call _setState (spread (fun state =>
      set_commitModeState CommitModeState.READY (set_commitMessage commitMessage state))).

Definition _loadPublishModeState (revisions : Awaited (option RevisionsState))
    : M unit :=
  run! call _setState (spread (fun state =>
      set_headRevision None
        (set_publishMessage None
           (set_publishModeState PublishModeState.LOADING_PUBLISH_MESSAGE
              (set_publishMode PublishMode.CREATE state))))) in
  let! revisionsState := getActiveRevisionsState revisions in
  match revisionsState with
  | None => throw (new_Error "Cannot Load Publish View: No active file or repository")
  | Some revisionsState =>
      let revisions := DiffView.revisions revisionsState in
      run! invariant_that (0 <? length revisions)%nat "Diff View Error: Zero Revisions" in
      match last revisions with
      | None => throw (new_Error "Cannot read property 'description' of undefined")
      | Some headRevision =>
          let headMessage := description headRevision in
          let hasPhabricatorRevision :=
            negb (indexOf headMessage "Differential Revision:" =? -1) in
          call _setState (spread (fun state =>
              set_headRevision (Some headRevision)
                (set_publishMessage
                   (Some (if hasPhabricatorRevision
                          then UPDATE_REVISION_TEMPLATE else headMessage))
                   (set_publishModeState PublishModeState.READY
                      (set_publishMode
                         (if hasPhabricatorRevision
                          then PublishMode.UPDATE else PublishMode.CREATE)
                         state)))))
      end
  end.

Definition _loadModeState
    (template : Awaited (option string))
    (revisions : Awaited (option RevisionsState)) : M unit :=
  let! mode := gets (fun this => viewMode (_state this)) in
  match mode with
  | DiffMode.COMMIT_MODE =>
      run! async_call (_loadCommitModeState template revisions) in ret tt
  | DiffMode.PUBLISH_MODE =>
      let! promise := async_call (_loadPublishModeState revisions) in
      catch promise (fun error => perform (notifyInternalError error))
  | DiffMode.BROWSE_MODE => ret tt
  end.

Definition _onUpdateRevisionsState (revisionsState : RevisionsState)
    (template : Awaited (option string))
    (revisions : Awaited (option RevisionsState)) : M unit :=
  run! perform (emit CHANGE_REVISIONS_EVENT) in
  _loadModeState template revisions.

(** The method as far as it reads and writes the fields modelled here: up
    to [const {filePath} = this._activeFileState].  What follows, for a file
    on show when [reloadFileDiff] is set, is [_fetchHgDiff], modelled below,
    and [_updateDiffStateIfChanged], modelled in [ActiveFile]. *)
Definition _updateChangedRevisions (repositoryStack : RepositoryStack)
    (revisionsState : RevisionsState) (reloadFileDiff : bool)
    (template : Awaited (option string))
    (revisions : Awaited (option RevisionsState)) : M unit :=
  let! active := gets _activeRepositoryStack in
  if decide (Some repositoryStack = active) then
    run! perform (track "diff-view-update-timeline-revisions") in
    _onUpdateRevisionsState revisionsState template revisions
  else ret tt.

Definition setPublishMessage (message : string) : M unit :=
  call _setState (spread (set_publishMessage (Some message))).

Definition setViewMode (mode : DiffMode.t)
    (template : Awaited (option string))
    (revisions : Awaited (option RevisionsState)) : M unit :=
  let! current := gets (fun this => viewMode (_state this)) in
  if decide (mode = current) then ret tt
  else
    run! call _setState (spread (set_viewMode mode)) in
    run! _updateCompareChangedStatus None None in
    _loadModeState template revisions.

Definition _setActiveRepositoryStack (repositoryStack : RepositoryStack)
    (cached : Awaited RevisionsState)
    (template : Awaited (option string))
    (revisions : Awaited (option RevisionsState)) : M unit :=
  let! active := gets _activeRepositoryStack in
  if decide (active = Some repositoryStack) then ret tt
  else
    run! write_activeRepositoryStack (Some repositoryStack) in
    run! perform (stack_getCachedRevisionsStatePromise repositoryStack) in
    let! revisionsState := await cached in
    run! async_call
           (_updateChangedRevisions repositoryStack revisionsState false
              template revisions) in
    ret tt.

(** [repository] is what [repositoryForPath(filePath)] found.  The diff
    itself belongs to the active file and is not modelled. *)
Definition _fetchHgDiff (repository : option Repository)
    (cached : Awaited RevisionsState)
    (template : Awaited (option string))
    (revisions : Awaited (option RevisionsState)) : M unit :=
  match repository with
  | None =>
      throw (new_Error
        "Diff view only supports `Mercurial` repositories, but found `no repository`")
  | Some repository =>
      if decide (getType repository = "hg") then
        let! stacks := gets _repositoryStacks in
        let! repositoryStack :=
          invariant (map_get stacks repository)
            "There must be an repository stack for a given repository!" in
        _setActiveRepositoryStack repositoryStack cached template revisions
      else
        throw (new_Error
          ("Diff view only supports `Mercurial` repositories, but found `"
           +:+ getType repository +:+ "`"))
  end.

(** As far as [_fetchHgDiff]; showing the diff it fetched belongs to the
    active file. *)
Definition _updateActiveDiffState (filePath : string)
    (repository : option Repository)
    (cached : Awaited RevisionsState)
    (template : Awaited (option string))
    (revisions : Awaited (option RevisionsState)) : M unit :=
  if decide (filePath = EmptyString) then ret tt
  else _fetchHgDiff repository cached template revisions.

(** [file] tells whether the buffer that [bufferForUri(filePath)] gives has a
    file. *)
Definition activateFile (filePath : string) (file : bool)
    (repository : option Repository)
    (cached : Awaited RevisionsState)
    (template : Awaited (option string))
    (revisions : Awaited (option RevisionsState)) : M unit :=
  let! previous := gets _activeSubscriptions in
  run! match previous with
       | Some subscriptions => perform (subscriptions_dispose subscriptions)
       | None => ret tt
       end in
  let! id := new_object in
  let activeSubscriptions := {| disposable_id := id |} in
  run! write_activeSubscriptions (Some activeSubscriptions) in
  run! (if file then perform (file_onDidChange filePath activeSubscriptions)
        else ret tt) in
  run! perform (buffer_onDidChangeModified filePath activeSubscriptions) in
  run! perform (track "diff-view-open-file") in
  let! promise :=
    async_call (_updateActiveDiffState filePath repository cached template revisions) in
  catch promise (fun error => perform (notifyInternalError error)).

Definition publishDiff (message : string)
    (timer : Awaited unit) (resolved : Interleaving) : M unit :=
  run! call _setState (spread (fun state =>
      set_publishModeState PublishModeState.AWAITING_PUBLISH
        (set_publishMessage (Some message) state))) in
  try_finally
    (try_catch
       (run! perform (awaitMilliSeconds 5000) in
        run! await timer in
        await {| settles := Fulfilled tt; meanwhile := resolved |})
       (fun error => perform (notifyInternalError error)))
    (call _setState (spread (fun state =>
         set_publishModeState PublishModeState.READY
           (set_publishMessage (Some message) state)))).

(** [`Details: ${e.stdout}`] *)
Definition details (e : Error) : string :=
  "Details: " +:+ default "undefined" (stdout e).

Definition commit (message : string) (committed : Awaited unit) : M unit :=
  run! call _setState (spread (fun state =>
      set_commitModeState CommitModeState.AWAITING_COMMIT
        (set_commitMessage (Some message) state))) in
  let! activeStack := gets _activeRepositoryStack in
  try_catch
    (let! activeStack := invariant activeStack "No active repository stack" in
     let! mode := gets (fun this => commitMode (_state this)) in
     run! match mode with
          | CommitMode.COMMIT =>
              run! perform (stack_commit activeStack message) in
              run! await committed in
              perform (addSuccess "Commit created")
          | CommitMode.AMEND =>
              run! perform (stack_amend activeStack message) in
              run! await committed in
              perform (addSuccess "Commit amended")
          end in
     perform (stack_getRevisionsStatePromise activeStack))
    (fun e =>
       run! perform (addError "Error creating commit" (details e)) in
       call _setState (spread (set_commitModeState CommitModeState.READY))).

Definition setCommitMode (mode : CommitMode.t)
    (template : Awaited (option string))
    (revisions : Awaited (option RevisionsState)) : M unit :=
  run! call _setState (spread (set_commitMode mode)) in
  run! async_call (_loadCommitModeState template revisions) in
  ret tt.

Definition _createRepositoryStack (repository : Repository) : M RepositoryStack :=
  let! id := new_object in
  let repositoryStack := {| stack_id := id; stack_repository := repository |} in
  run! perform (new_RepositoryStack repositoryStack) in
  let! id := new_object in
  let subscriptions := {| disposable_id := id |} in
  run! perform (stack_subscribe repositoryStack "did-update-dirty-file-changes" subscriptions) in
  run! perform (stack_subscribe repositoryStack "did-update-commit-merge-file-changes"
                  subscriptions) in
  run! perform (stack_subscribe repositoryStack "did-change-revisions" subscriptions) in
  let! stacks := gets _repositoryStacks in
  run! write_repositoryStacks (map_set stacks repository repositoryStack) in
  let! allSubscriptions := gets _repositorySubscriptions in
  run! write_repositorySubscriptions (map_set allSubscriptions repository subscriptions) in
  let! isActive := gets _isActive in
  run! (if isActive then perform (stack_activate repositoryStack) else ret tt) in
  ret repositoryStack.

(** The repositories of the project that are not null and of type ['hg']. *)
Definition hgRepositories (host : Host) : list Repository :=
  omap (fun repository =>
          match repository with
          | Some repository =>
              if decide (getType repository = "hg") then Some repository else None
          | None => None
          end)
       (getRepositories host).

(** The first loop goes over the entries the map had when the loop began:
    the body deletes the entry it is at and no other. *)
Definition _updateRepositories (host : Host) : M unit :=
  let repositories := set_from (hgRepositories host) in
  (* Dispose removed projects repositories. *)
  let! entries := gets _repositoryStacks in
  run! for_each entries (fun '(repository, repositoryStack) =>
         if set_has repositories repository then ret tt
         else
           run! perform (stack_dispose repositoryStack) in
           let! stacks := gets _repositoryStacks in
           run! write_repositoryStacks (map_delete stacks repository) in
           let! allSubscriptions := gets _repositorySubscriptions in
           let! subscriptions :=
             invariant (map_get allSubscriptions repository) EmptyString in
           run! perform (subscriptions_dispose subscriptions) in
           write_repositorySubscriptions (map_delete allSubscriptions repository)) in
  run! for_each repositories (fun repository =>
         let! stacks := gets _repositoryStacks in
         if map_has stacks repository then ret tt
         else run! _createRepositoryStack repository in ret tt) in
  _updateDirtyChangedStatus host.

Definition activate (host : Host) : M unit :=
  run! _updateRepositories host in
  run! write_isActive true in
  let! stacks := gets _repositoryStacks in
  for_each (map_values stacks) (fun repositoryStack =>
    perform (stack_activate repositoryStack)).

Definition deactivate : M unit :=
  run! write_isActive false in
  let! active := gets _activeRepositoryStack in
  match active with
  | Some stack =>
      run! perform (stack_deactivate stack) in
      write_activeRepositoryStack None
  | None => ret tt
  end.

Definition dispose : M unit :=
  run! perform _subscriptions_dispose in
  let! stacks := gets _repositoryStacks in
  run! for_each (map_values stacks) (fun repositoryStack =>
         perform (stack_dispose repositoryStack)) in
  run! write_repositoryStacks map_new in
  let! allSubscriptions := gets _repositorySubscriptions in
  run! for_each (map_values allSubscriptions) (fun subscription =>
         perform (subscriptions_dispose subscription)) in
  run! write_repositorySubscriptions map_new in
  let! activeSubscriptions := gets _activeSubscriptions in
  match activeSubscriptions with
  | Some subscriptions =>
      run! perform (subscriptions_dispose subscriptions) in
      write_activeSubscriptions None
  | None => ret tt
  end.

(** The fields as the constructor first assigns them. *)
Definition initial : DiffViewModel :=
  {| _activeSubscriptions := None;
     _repositoryStacks := map_new;
     _repositorySubscriptions := map_new;
     _activeRepositoryStack := None;
     _isActive := false;
     _state :=
       {| viewMode := DiffMode.BROWSE_MODE;
          commitMessage := None;
          commitMode := CommitMode.COMMIT;
          commitModeState := CommitModeState.READY;
          publishMessage := None;
          publishMode := PublishMode.CREATE;
          publishModeState := PublishModeState.READY;
          headRevision := None;
          dirtyFileChanges := ∅;
          commitMergeFileChanges := ∅;
          compareFileChanges := ∅ |};
     _objects := 0 |}.

Definition constructor (host : Host) : M unit :=
  run! _updateRepositories host in
  perform project_onDidChangePaths.

(** *** What happens to an instance over time

    The calls of the public methods and of the callbacks that the instance
    registers, one after the other; where a method awaits, the activity that
    goes on until the promise settles is given with the call. *)
Inductive Activity :=
| idle
| after (first next : Activity)
| call_setPublishMessage (message : string)
| call_setViewMode (mode : DiffMode.t)
    (template : Settled (option string)) (untilTemplate : Activity)
    (revisions : Settled (option RevisionsState)) (untilRevisions : Activity)
| call_setCommitMode (mode : CommitMode.t)
    (template : Settled (option string)) (untilTemplate : Activity)
    (revisions : Settled (option RevisionsState)) (untilRevisions : Activity)
| call_publishDiff (message : string)
    (timer : Settled unit) (untilTimer untilResolved : Activity)
| call_commit (message : string)
    (committed : Settled unit) (untilCommitted : Activity)
| call_activateFile (filePath : string) (file : bool)
    (repository : option Repository)
    (cached : Settled RevisionsState) (untilCached : Activity)
    (template : Settled (option string)) (untilTemplate : Activity)
    (revisions : Settled (option RevisionsState)) (untilRevisions : Activity)
| call_activate (host : Host)
| call_deactivate
| call_dispose
| on_changePaths (host : Host)
| on_updateDirtyFileChanges (host : Host)
| on_updateCommitMergeFileChanges (host : Host)
| on_changeRevisions (repositoryStack : RepositoryStack)
    (revisionsState : RevisionsState)
    (template : Settled (option string)) (untilTemplate : Activity)
    (revisions : Settled (option RevisionsState)) (untilRevisions : Activity).

(** The instance that a method leaves behind. *)
Definition leaves {A} (m : M A) (this : DiffViewModel) : DiffViewModel := (m this).1.2.

Fixpoint run (activity : Activity) : Interleaving :=
  let awaited {A} (settled : Settled A) (until : Activity) : Awaited A :=
    {| settles := settled; meanwhile := run until |} in
  match activity with
  | idle => fun this => this
  | after first next => fun this => run next (run first this)
  | call_setPublishMessage message => leaves (setPublishMessage message)
  | call_setViewMode mode template untilTemplate revisions untilRevisions =>
      leaves (setViewMode mode (awaited template untilTemplate)
                (awaited revisions untilRevisions))
  | call_setCommitMode mode template untilTemplate revisions untilRevisions =>
      leaves (setCommitMode mode (awaited template untilTemplate)
                (awaited revisions untilRevisions))
  | call_publishDiff message timer untilTimer untilResolved =>
      leaves (publishDiff message (awaited timer untilTimer) (run untilResolved))
  | call_commit message committed untilCommitted =>
      leaves (commit message (awaited committed untilCommitted))
  | call_activateFile filePath file repository cached untilCached
      template untilTemplate revisions untilRevisions =>
      leaves (activateFile filePath file repository (awaited cached untilCached)
                (awaited template untilTemplate) (awaited revisions untilRevisions))
  | call_activate host => leaves (activate host)
  | call_deactivate => leaves deactivate
  | call_dispose => leaves dispose
  | on_changePaths host => leaves (_updateRepositories host)
  | on_updateDirtyFileChanges host => leaves (_updateDirtyChangedStatus host)
  | on_updateCommitMergeFileChanges host => leaves (_updateCommitMergeFileChanges host)
  | on_changeRevisions repositoryStack revisionsState template untilTemplate
      revisions untilRevisions =>
      leaves (_updateChangedRevisions repositoryStack revisionsState true
                (awaited template untilTemplate) (awaited revisions untilRevisions))
  end.

(** The state invariant: what the diff is compared against follows the view
    mode. *)
Definition compares_by_mode (state : State) : Prop :=
  compareFileChanges state
  = if decide (viewMode state = DiffMode.COMMIT_MODE)
    then dirtyFileChanges state
    else commitMergeFileChanges state.

(** The two maps have the same repositories, each once. *)
Definition stacks_match_subscriptions (this : DiffViewModel) : Prop :=
  NoDup (map_keys (_repositoryStacks this)) /\
  map_keys (_repositorySubscriptions this) = map_keys (_repositoryStacks this).

(** How often a repository had a stack made for it. *)
Definition makes_stack_for (repository : Repository) (e : Effect) : bool :=
  match e with
  | new_RepositoryStack stack => bool_decide (stack_repository stack = repository)
  | _ => false
  end.

Definition stacks_created (repository : Repository) (done : list Effect) : nat :=
  length (List.filter (makes_stack_for repository) done).

(** [needle] occurs in [haystack]. *)
Definition contains (haystack needle : string) : Prop :=
  exists before behind, haystack = before +:+ needle +:+ behind.

(** The instance is consistent when its state compares by the view mode and
    its two maps match. *)
Definition consistent (this : DiffViewModel) : Prop :=
  compares_by_mode (_state this) /\ stacks_match_subscriptions this.

(** From an instance that satisfies [P], the method leaves one that
    satisfies [Q] when it returns and [E] when it throws. *)
Definition hoare {A} (P : DiffViewModel -> Prop) (m : M A)
    (Q E : DiffViewModel -> Prop) : Prop :=
  forall this, P this ->
    match m this with
    | (Normal _, this', _) => Q this'
    | (Throw _, this', _) => E this'
    end.

(** The method keeps [I], however it ends. *)
Definition keeps {A} (I : DiffViewModel -> Prop) (m : M A) : Prop := hoare I m I I.

(** What goes on while the promise is pending keeps [I]. *)
Definition calm {A} (I : DiffViewModel -> Prop) (promise : Awaited A) : Prop :=
  forall this, I this -> I (meanwhile promise this).

(** The bodies of the two loops of [_updateRepositories]. *)
Definition dispose_removed (repositories : JsSet Repository)
    (entry : Repository * RepositoryStack) : M unit :=
  let '(repository, repositoryStack) := entry in
  if set_has repositories repository then ret tt
  else
    run! perform (stack_dispose repositoryStack) in
    let! stacks := gets _repositoryStacks in
    run! write_repositoryStacks (map_delete stacks repository) in
    let! allSubscriptions := gets _repositorySubscriptions in
    let! subscriptions :=
      invariant (map_get allSubscriptions repository) EmptyString in
    run! perform (subscriptions_dispose subscriptions) in
    write_repositorySubscriptions (map_delete allSubscriptions repository).

Definition create_added (repository : Repository) : M unit :=
  let! stacks := gets _repositoryStacks in
  if map_has stacks repository then ret tt
  else run! _createRepositoryStack repository in ret tt.

End DiffView.

(** ** Observations on what the diff view model did *)

Module DiffViewLog.
Import DiffView.

(** The errors handed to [notifyInternalError], in order. *)
Definition internal_errors (done : list Effect) : list Error :=
  omap (fun e => match e with notifyInternalError error => Some error | _ => None end) done.

(** The stacks asked to activate, in order. *)
Definition activated (done : list Effect) : list RepositoryStack :=
  omap (fun e => match e with stack_activate stack => Some stack | _ => None end) done.

(** The stacks disposed, in order. *)
Definition disposed (done : list Effect) : list RepositoryStack :=
  omap (fun e => match e with stack_dispose stack => Some stack | _ => None end) done.

(** Every stack is stored under the repository it was made for, and that
    repository is of type ['hg']. *)
Definition stacks_belong (this : DiffViewModel) : Prop :=
  forall r stack, (r, stack) ∈ _repositoryStacks this ->
    stack_repository stack = r /\ getType r = "hg".

End DiffViewLog.

(** ** The active file of the diff view model

    The other half of [DiffViewModel]: the state of the file on show and the
    methods that write it.  They read and write [_activeFileState] and no
    other field, so the half is modelled on that field alone.  The field
    holds an object; where a method keeps the object across a wait, what is
    assigned to the object in place meanwhile is part of the wait. *)

Module ActiveFile.

(** A component that a UI provider composes, by its identity. *)
Definition UiComponent := nat.

(** [FileChangeState]; [savedContents] and [inlineComponents] are absent
    from the object until a method puts them there. *)
Record FileChangeState := {
  fromRevisionTitle : string;
  toRevisionTitle : string;
  filePath : string;
  oldContents : string;
  newContents : string;
  savedContents : option string;
  compareRevisionInfo : option DiffView.RevisionInfo;
  inlineComponents : option (list UiComponent) }.

(** [HgDiffState] *)
Record HgDiffState := {
  committedContents : string;
  filesystemContents : string;
  revisionInfo : DiffView.RevisionInfo }.

Definition getInitialFileChangeState : FileChangeState :=
  {| fromRevisionTitle := "No file selected";
     toRevisionTitle := "No file selected";
     filePath := EmptyString;
     oldContents := EmptyString;
     newContents := EmptyString;
     savedContents := None;
     compareRevisionInfo := None;
     inlineComponents := None |}.

Inductive Effect :=
| debouncedEmitActiveFileUpdate
| notifyFilesystemOverrideUserEdits (filePath : string)
| composeUiElements (provider : nat) (filePath : string)
| getFileSystemContents (filePath : string).

#[global] Instance ActiveFile_Effect_eq_dec : EqDecision Effect.
Proof. solve_decision. Defined.

(** A method takes the active file state and gives back how it ended, the
    state it left and what it did. *)
Definition M (A : Type) : Type :=
  FileChangeState -> completion A * FileChangeState * list Effect.

Definition ret {A} (a : A) : M A := fun state => (Normal a, state, []).

Definition throw {A} (e : Error) : M A := fun state => (Throw e, state, []).

Definition bind {A B} (m : M A) (k : A -> M B) : M B :=
  fun state =>
    match m state with
    | (Normal a, state', done) =>
        let '(r, state'', done') := k a state' in (r, state'', done ++ done')
    | (Throw e, state', done) => (Throw e, state', done)
    end.

Notation "'let!' x ':=' m 'in' k" := (bind m (fun x => k))
  (at level 10, x name, m at level 100, k at level 200).
Notation "'run!' m 'in' k" := (bind m (fun _ => k))
  (at level 10, m at level 100, k at level 200).

Definition gets {A} (f : FileChangeState -> A) : M A :=
  fun state => (Normal (f state), state, []).

Definition perform (e : Effect) : M unit := fun state => (Normal tt, state, [e]).

(** [invariant(value, message)] on a value that may be null. *)
Definition invariant {A} (value : option A) (message : string) : M A :=
  match value with
  | Some a => ret a
  | None => throw (new_Error message)
  end.

(** What other tasks leave in [this._activeFileState] while a method waits,
    from what it held. *)
Definition Interleaving := FileChangeState -> FileChangeState.

(** A wait during which the method holds on to the state object that it
    stored in [this._activeFileState] before.  [saveActiveFile] assigns to
    [savedContents] of the object that was the active file state when it
    was called, in place; [saved] holds the contents that the last such
    assignment to the object held on to put there during the wait, if there
    was one.  Every other write to the active file state stores a new
    object and shows in [written] alone. *)
Record Wait := { written : Interleaving; saved : option string }.

(** [await promise], the promise settling as given. *)
Definition await {A} (settles : Settled A) (meanwhile : Interleaving) : M A :=
  fun state =>
    (match settles with Fulfilled a => Normal a | Rejected e => Throw e end,
     meanwhile state, []).

(** [items.join(separator)] *)
Definition join (separator : string) (items : list string) : string :=
  match items with
  | [] => EmptyString
  | first :: rest => fold_left (fun joined item => joined +:+ separator +:+ item) rest first
  end.

Definition _setActiveFileState (state : FileChangeState) : M unit :=
  fun _ => (Normal tt, state, [debouncedEmitActiveFileUpdate]).

(** [uiProviders] holds what each provider's [composeUiElements] promises,
    in the order of [_uiProviders]. *)
Definition _fetchInlineComponents
    (uiProviders : list (Promise (list UiComponent))) (meanwhile : Interleaving)
    : M (list UiComponent) :=
  let! path := gets filePath in
  fun state =>
    let asked := imap (fun provider _ => composeUiElements provider path) uiProviders in
    let '(r, state', done) := await (Promise_all uiProviders) meanwhile state in
    (match r with
     | Normal uiComponentLists => Normal (concat uiComponentLists)
     | Throw e => Throw e
     end, state', asked ++ done).

(** [{...state, inlineComponents}] *)
Definition set_inlineComponents (components : list UiComponent)
    (state : FileChangeState) : FileChangeState :=
  {| filePath := filePath state;
     oldContents := oldContents state;
     newContents := newContents state;
     savedContents := savedContents state;
     compareRevisionInfo := compareRevisionInfo state;
     fromRevisionTitle := fromRevisionTitle state;
     toRevisionTitle := toRevisionTitle state;
     inlineComponents := Some components |}.

(** [state.savedContents = contents] *)
Definition set_savedContents (contents : string)
    (state : FileChangeState) : FileChangeState :=
  {| filePath := filePath state;
     oldContents := oldContents state;
     newContents := newContents state;
     savedContents := Some contents;
     compareRevisionInfo := compareRevisionInfo state;
     fromRevisionTitle := fromRevisionTitle state;
     toRevisionTitle := toRevisionTitle state;
     inlineComponents := inlineComponents state |}.

(** The object held on to, as it is after the wait. *)
Definition afterwards (meanwhile : Wait) (object : FileChangeState)
    : FileChangeState :=
  match saved meanwhile with
  | Some contents => set_savedContents contents object
  | None => object
  end.

(** [{...state, newContents}] *)
Definition set_newContents (contents : string)
    (state : FileChangeState) : FileChangeState :=
  {| filePath := filePath state;
     oldContents := oldContents state;
     newContents := contents;
     savedContents := savedContents state;
     compareRevisionInfo := compareRevisionInfo state;
     fromRevisionTitle := fromRevisionTitle state;
     toRevisionTitle := toRevisionTitle state;
     inlineComponents := inlineComponents state |}.

(** The [newFileState] of [_updateDiffState]. *)
Definition newFileState (path : string) (hgDiffState : HgDiffState)
    : FileChangeState :=
  let revision := revisionInfo hgDiffState in
  {| filePath := path;
     oldContents := committedContents hgDiffState;
     newContents := filesystemContents hgDiffState;
     savedContents := Some (filesystemContents hgDiffState);
     compareRevisionInfo := Some revision;
     fromRevisionTitle :=
       DiffView.hash revision
       +:+ (if decide (length (DiffView.bookmarks revision) = 0%nat) then EmptyString
            else " - (" +:+ join ", " (DiffView.bookmarks revision) +:+ ")");
     toRevisionTitle := "Filesystem / Editor";
     inlineComponents := None |}.

(** The second [_setActiveFileState] spreads the object that the first one
    stored, as it is by then. *)
Definition _updateDiffState (path : string) (hgDiffState : HgDiffState)
    (uiProviders : list (Promise (list UiComponent))) (meanwhile : Wait)
    : M unit :=
  run! _setActiveFileState (newFileState path hgDiffState) in
  let! components := _fetchInlineComponents uiProviders (written meanwhile) in
  _setActiveFileState
    (set_inlineComponents components
       (afterwards meanwhile (newFileState path hgDiffState))).

Definition _updateDiffStateIfChanged (path : string)
    (committed filesystem : string) (revision : DiffView.RevisionInfo)
    (uiProviders : list (Promise (list UiComponent))) (meanwhile : Wait)
    : M unit :=
  let! activeFilePath := gets filePath in
  let! new := gets newContents in
  let! saved := gets savedContents in
  if negb (bool_decide (path = activeFilePath)) then ret tt
  else
    let updatedDiffState :=
      {| committedContents := committed;
         filesystemContents := filesystem;
         revisionInfo := revision |} in
    if bool_decide (saved = Some new) || bool_decide (filesystem = new) then
      _updateDiffState path updatedDiffState uiProviders meanwhile
    else if bool_decide (Some filesystem = saved) then
      (* The changes haven't touched the filesystem, keep user edits. *)
      _updateDiffState path
        {| committedContents := committed;
           filesystemContents := new;
           revisionInfo := revision |} uiProviders meanwhile
    else
      (* The committed and filesystem state have changed, notify of override. *)
      run! perform (notifyFilesystemOverrideUserEdits path) in
      _updateDiffState path updatedDiffState uiProviders meanwhile.

Definition setNewContents (contents : string) : M unit :=
  let! state := gets (fun state => state) in
  _setActiveFileState (set_newContents contents state).

(** [contents] is what [getFileSystemContents(filePath)] promises. *)
Definition _onDidFileChange (path : string)
    (contents : Settled string) (reading : Interleaving)
    (uiProviders : list (Promise (list UiComponent))) (meanwhile : Wait)
    : M unit :=
  let! activeFilePath := gets filePath in
  if negb (bool_decide (activeFilePath = path)) then ret tt
  else
    run! perform (getFileSystemContents path) in
    let! filesystem := await contents reading in
    let! committed := gets oldContents in
    let! revision := gets compareRevisionInfo in
    let! revision :=
      invariant revision
        "Diff View: Revision info must be defined to update changed state" in
    _updateDiffStateIfChanged path committed filesystem revision uiProviders meanwhile.

(** The user has edited since the last update: the contents on show are not
    the contents recorded as saved. *)
Definition hasUnsavedEdits (state : FileChangeState) : Prop :=
  savedContents state <> Some (newContents state).

(** The state a method leaves and what it does. *)
Definition leaves {A} (m : M A) (state : FileChangeState) : FileChangeState :=
  (m state).1.2.

Definition does {A} (m : M A) (state : FileChangeState) : list Effect :=
  (m state).2.

Definition ends {A} (m : M A) (state : FileChangeState) : completion A :=
  (m state).1.1.

End ActiveFile.

(** ** The test runner's filter on what Atom prints *)

Module TestRunner.

Definition PREFIX : string := "Window load time: ".

(** [data.substring(0, end)]: the first [end] characters, or all of them
    when there are fewer. *)
Definition substring_to (finish : nat) (data : string) : string :=
  String.substring 0 finish data.

(** The listener for ['data'] on a connection: what it writes to
    [process.stdout]. *)
Definition onData (bufferOrString : string) : list string :=
  let data := bufferOrString in
  if negb (bool_decide (substring_to (String.length PREFIX) data = PREFIX))
  then [bufferOrString]
  else [].

(** What reaches [process.stdout] as the chunks of a connection arrive. *)
Definition written (chunks : list string) : list string :=
  flat_map onData chunks.

End TestRunner.

(** * Properties *)

Section JsFacts.
Context {A : Type} `{EqDecision A}.

Lemma set_has_true (s : JsSet A) x : set_has s x = true <-> x ∈ s.
Proof. unfold set_has. by rewrite bool_decide_eq_true. Qed.

Lemma set_has_add (s : JsSet A) x y :
  set_has (set_add s x) y = true <-> y = x \/ set_has s y = true.
Proof.
  rewrite !set_has_true. unfold set_add.
  destruct (set_has s x) eqn:E.
  - apply set_has_true in E. split; [tauto | intros [-> | ?]; done].
  - rewrite elem_of_app, list_elem_of_singleton. tauto.
Qed.

Lemma set_add_NoDup (s : JsSet A) x : NoDup s -> NoDup (set_add s x).
Proof.
  intros Hs. unfold set_add. destruct (set_has s x) eqn:E; [done |].
  apply NoDup_app. split_and!; [done | | apply NoDup_singleton].
  intros y Hy Hy'. apply list_elem_of_singleton in Hy' as ->.
  apply set_has_true in Hy. congruence.
Qed.

Lemma set_from_loop (l : list A) (acc : JsSet A) :
  NoDup acc ->
  NoDup (fold_left set_add l acc) /\
  forall x, x ∈ fold_left set_add l acc <-> x ∈ acc \/ x ∈ l.
Proof.
  revert acc. induction l as [| y l IH]; intros acc Hacc; simpl.
  - split; [done |]. intros x. rewrite elem_of_nil. tauto.
  - destruct (IH (set_add acc y) (set_add_NoDup acc y Hacc)) as [Hnd Hin].
    split; [done |]. intros x. rewrite Hin, elem_of_cons, <- !set_has_true, set_has_add.
    tauto.
Qed.

(** [new Set(list)] holds what the list holds, each value once. *)
Lemma set_from_spec (l : list A) :
  NoDup (set_from l) /\ forall x, x ∈ set_from l <-> x ∈ l.
Proof.
  destruct (set_from_loop l set_new (NoDup_nil_2 (A:=A))) as [Hnd Hin].
  split; [done |]. intros x. unfold set_from. rewrite Hin.
  unfold set_new. rewrite elem_of_nil. tauto.
Qed.
End JsFacts.

Section JsMapFacts.
Context {K V : Type} `{EqDecision K}.
Implicit Types (m : JsMap K V) (k : K) (v : V).

Lemma map_get_None m k : map_get m k = None <-> k ∉ map_keys m.
Proof.
  unfold map_keys. induction m as [| [k' v'] m IH]; simpl.
  - rewrite elem_of_nil. tauto.
  - rewrite elem_of_cons. destruct (decide (k' = k)) as [-> | Hne].
    + split; [done | tauto].
    + rewrite IH. split; [intros ? [? | ?]; [congruence | done] | tauto].
Qed.

Lemma map_get_Some_keys m k v : map_get m k = Some v -> k ∈ map_keys m.
Proof.
  intros Hget. destruct (decide (k ∈ map_keys m)) as [? | Hnot]; [done |].
  apply map_get_None in Hnot. congruence.
Qed.

Lemma map_get_keys m k : k ∈ map_keys m -> exists v, map_get m k = Some v.
Proof.
  intros Hin. destruct (map_get m k) as [v |] eqn:Hget; [by exists v |].
  by apply map_get_None in Hget.
Qed.

Lemma map_has_true m k : map_has m k = true <-> k ∈ map_keys m.
Proof.
  unfold map_has. split.
  - destruct (map_get m k) eqn:Hget; [intros _; by eapply map_get_Some_keys | done].
  - intros [v ->]%map_get_keys. done.
Qed.

Lemma map_has_false m k : map_has m k = false <-> k ∉ map_keys m.
Proof. rewrite <- map_has_true. destruct (map_has m k); split; congruence. Qed.

(** The entry of a key that occurs once is what [get] finds. *)
Lemma map_get_entry m k v :
  NoDup (map_keys m) -> (k, v) ∈ m -> map_get m k = Some v.
Proof.
  unfold map_keys. induction m as [| [k' v'] m IH]; simpl; intros Hnd Hin.
  - by apply elem_of_nil in Hin.
  - apply NoDup_cons in Hnd as [Hk' Hnd]. apply elem_of_cons in Hin as [[= -> ->] | Hin].
    + by rewrite decide_True.
    + destruct (decide (k' = k)) as [-> | _]; [| by apply IH].
      exfalso. apply Hk'. apply list_elem_of_fmap. by exists (k, v).
Qed.

(** *** [set] *)

Lemma map_keys_set m k v :
  map_keys (map_set m k v) = if map_has m k then map_keys m else map_keys m ++ [k].
Proof.
  unfold map_keys, map_has. induction m as [| [k' v'] m IH]; [done |].
  cbn [map_set map_get]. destruct (decide (k' = k)) as [-> | Hne]; [done |].
  rewrite !fmap_cons, IH. by destruct (map_get m k).
Qed.

Lemma map_get_set m k v k' :
  map_get (map_set m k v) k' = if decide (k = k') then Some v else map_get m k'.
Proof.
  induction m as [| [k0 v0] m IH]; simpl.
  - done.
  - destruct (decide (k0 = k)) as [-> | Hne]; simpl.
    + destruct (decide (k = k')); done.
    + rewrite IH. destruct (decide (k0 = k')) as [-> | ?]; [| done].
      by rewrite decide_False by congruence.
Qed.

Lemma map_keys_set_elem m k v k' :
  k' ∈ map_keys (map_set m k v) <-> k' = k \/ k' ∈ map_keys m.
Proof.
  rewrite map_keys_set. destruct (map_has m k) eqn:Hhas.
  - apply map_has_true in Hhas. split; [tauto | intros [-> | ?]; done].
  - rewrite elem_of_app, list_elem_of_singleton. tauto.
Qed.

Lemma map_keys_set_NoDup m k v :
  NoDup (map_keys m) -> NoDup (map_keys (map_set m k v)).
Proof.
  intros Hnd. rewrite map_keys_set. destruct (map_has m k) eqn:Hhas; [done |].
  apply map_has_false in Hhas. apply NoDup_app. split_and!; [done | | apply NoDup_singleton].
  intros x Hx ->%list_elem_of_singleton. done.
Qed.

(** *** [delete] *)

Lemma map_keys_delete m k : map_keys (map_delete m k) = delete_key k (map_keys m).
Proof.
  unfold map_keys. induction m as [| [k' v'] m IH]; [done |].
  cbn [map_delete]. rewrite fmap_cons. cbn [delete_key fst].
  destruct (decide (k' = k)); [done | by rewrite fmap_cons, IH].
Qed.

Lemma delete_key_elem k (keys : list K) k' :
  NoDup keys -> k' ∈ delete_key k keys <-> k' ∈ keys /\ k' <> k.
Proof.
  induction keys as [| k0 keys IH]; simpl; intros Hnd.
  - rewrite elem_of_nil. tauto.
  - apply NoDup_cons in Hnd as [Hk0 Hnd]. rewrite elem_of_cons.
    destruct (decide (k0 = k)) as [-> | Hne].
    + split; [intros ?; split; [tauto | congruence] | intros [[-> | ?] ?]; done].
    + rewrite elem_of_cons, IH by done. split.
      * intros [-> | [? ?]]; tauto.
      * intros [[-> | ?] ?]; tauto.
Qed.

Lemma delete_key_NoDup k (keys : list K) : NoDup keys -> NoDup (delete_key k keys).
Proof.
  induction keys as [| k0 keys IH]; simpl; intros Hnd; [done |].
  apply NoDup_cons in Hnd as [Hk0 Hnd]. destruct (decide (k0 = k)); [done |].
  apply NoDup_cons. split; [| by apply IH].
  rewrite delete_key_elem by done. tauto.
Qed.

Lemma map_get_delete m k k' :
  NoDup (map_keys m) ->
  map_get (map_delete m k) k' = if decide (k = k') then None else map_get m k'.
Proof.
  unfold map_keys. induction m as [| [k0 v0] m IH]; simpl; intros Hnd.
  - by destruct (decide (k = k')).
  - apply NoDup_cons in Hnd as [Hk0 Hnd].
    destruct (decide (k0 = k)) as [-> | Hne]; simpl.
    + destruct (decide (k = k')) as [<- | ?]; [| done].
      apply map_get_None. done.
    + rewrite IH by done. destruct (decide (k0 = k')) as [-> | ?]; [| done].
      by rewrite decide_False by congruence.
Qed.

End JsMapFacts.

(** C9, levels ['0'] to ['7']: [createMessage] returns the record's message
    with level ['error'] for ['0'], ['1'], ['2'] and ['3'], ['warning'] for
    ['4'], ['log'] for ['5'], ['info'] for ['6'] and ['debug'] for ['7'];
    for every other level it throws an error whose message starts with
    ['Invalid ASL level']. *)
Theorem createMessage_levels (record : AslUtils.AslRecord) :
  let lvl := AslUtils.Level record in
  let msg l := Normal {| AslUtils.text := AslUtils.Message record; AslUtils.level := l |} in
  (lvl ∈ ["0"; "1"; "2"; "3"] -> AslUtils.createMessage record = msg "error") /\
  (lvl = "4" -> AslUtils.createMessage record = msg "warning") /\
  (lvl = "5" -> AslUtils.createMessage record = msg "log") /\
  (lvl = "6" -> AslUtils.createMessage record = msg "info") /\
  (lvl = "7" -> AslUtils.createMessage record = msg "debug") /\
  (lvl ∉ ["0"; "1"; "2"; "3"; "4"; "5"; "6"; "7"] ->
   AslUtils.createMessage record
   = Throw (new_Error ("Invalid ASL level: " +:+ lvl))).
Proof.
  destruct record as [lvl txt]; simpl.
  split_and!.
  - intros H. repeat (apply elem_of_cons in H as [-> | H]; [reflexivity |]).
    by apply elem_of_nil in H.
  - by intros ->.
  - by intros ->.
  - by intros ->.
  - by intros ->.
  - intros H. unfold AslUtils.createMessage; simpl.
    assert (Hl : AslUtils.getLevel lvl = Throw (new_Error ("Invalid ASL level: " +:+ lvl))).
    { unfold AslUtils.getLevel.
      repeat match goal with
             | |- context [match ?s with EmptyString => _ | String _ _ => _ end] =>
                 destruct s; try reflexivity
             | |- context [match ?a with Ascii _ _ _ _ _ _ _ _ => _ end] =>
                 destruct a
             | |- context [if ?b then _ else _] => destruct b; try reflexivity
             end;
      exfalso; apply H; set_solver. }
    by rewrite Hl.
Qed.

Lemma createMessage_levels_witness :
  let r l := {| AslUtils.Level := l; AslUtils.Message := "Service exited" |} in
  let msg l := Normal {| AslUtils.text := "Service exited"; AslUtils.level := l |} in
  ("2" ∈ ["0"; "1"; "2"; "3"] /\ AslUtils.createMessage (r "2") = msg "error") /\
  AslUtils.createMessage (r "4") = msg "warning" /\
  AslUtils.createMessage (r "5") = msg "log" /\
  AslUtils.createMessage (r "6") = msg "info" /\
  AslUtils.createMessage (r "7") = msg "debug" /\
  (("8" ∉ ["0"; "1"; "2"; "3"; "4"; "5"; "6"; "7"]) /\
   AslUtils.createMessage (r "8") = Throw (new_Error "Invalid ASL level: 8")).
Proof.
  intros r msg.
  assert (H2 : "2" ∈ ["0"; "1"; "2"; "3"]) by (repeat constructor).
  assert (H8 : "8" ∉ ["0"; "1"; "2"; "3"; "4"; "5"; "6"; "7"]).
  { intros H. repeat (apply elem_of_cons in H as [H | H]; [discriminate H |]).
    by apply elem_of_nil in H. }
  split_and!.
  - exact H2.
  - exact (proj1 (createMessage_levels (r "2")) H2).
  - exact (proj1 (proj2 (createMessage_levels (r "4"))) eq_refl).
  - exact (proj1 (proj2 (proj2 (createMessage_levels (r "5")))) eq_refl).
  - exact (proj1 (proj2 (proj2 (proj2 (createMessage_levels (r "6"))))) eq_refl).
  - exact (proj1 (proj2 (proj2 (proj2 (proj2 (createMessage_levels (r "7")))))) eq_refl).
  - exact H8.
  - exact (proj2 (proj2 (proj2 (proj2 (proj2 (createMessage_levels (r "8")))))) H8).
Defined.

(** The loop of [getUndeclaredJSXIdentifiers], from any accumulator. *)
Lemma undeclared_loop (declared : JsSet string) (jsx : list string)
    (acc : JsSet string) (id : string) :
  set_has
    (fold_left
       (fun undeclared i =>
          if negb (set_has declared i) then set_add undeclared i else undeclared)
       jsx acc) id = true
  <-> set_has acc id = true \/ (id ∈ jsx /\ set_has declared id = false).
Proof.
  revert acc. induction jsx as [| j jsx IH]; intros acc; simpl.
  - split; [tauto | intros [? | [H _]]; [done | by apply elem_of_nil in H]].
  - rewrite IH, elem_of_cons. destruct (set_has declared j) eqn:Ej; simpl.
    + split; [tauto |]. intros [? | [[-> | ?] ?]]; [tauto | congruence | tauto].
    + rewrite set_has_add. split.
      * intros [[-> | ?] | [? ?]]; tauto.
      * intros [? | [[-> | ?] ?]]; tauto.
Qed.

(** The result is a well-formed [Set]: no identifier occurs twice. *)
Lemma undeclared_loop_NoDup (declared : JsSet string) (jsx : list string)
    (acc : JsSet string) :
  NoDup acc ->
  NoDup
    (fold_left
       (fun undeclared i =>
          if negb (set_has declared i) then set_add undeclared i else undeclared)
       jsx acc).
Proof.
  revert acc. induction jsx as [| j jsx IH]; intros acc Hacc; simpl; [done |].
  apply IH. destruct (negb _); [by apply set_add_NoDup | done].
Qed.

(** C10, undeclared JSX identifiers are a set difference:
    [getUndeclaredJSXIdentifiers(root, options)] has an identifier exactly
    when [getJSXIdentifiers(root)] has it and
    [getDeclaredIdentifiers(root, options)] does not, and holds no
    identifier twice. *)
Theorem getUndeclaredJSXIdentifiers_difference
    (Collection SourceOptions : Type)
    (getDeclaredIdentifiers : Collection -> SourceOptions -> JsSet string)
    (getJSXIdentifiers : Collection -> JsSet string)
    (root : Collection) (options : SourceOptions) :
  let undeclared :=
    Jsx.getUndeclaredJSXIdentifiers Collection SourceOptions
      getDeclaredIdentifiers getJSXIdentifiers root options in
  NoDup undeclared /\
  forall id : string,
    set_has undeclared id = true
    <-> set_has (getJSXIdentifiers root) id = true
        /\ set_has (getDeclaredIdentifiers root options) id = false.
Proof.
  unfold Jsx.getUndeclaredJSXIdentifiers. split.
  - apply undeclared_loop_NoDup, NoDup_nil_2.
  - intros id. rewrite undeclared_loop, (set_has_true (getJSXIdentifiers root)).
    split; [intros [H | H]; [| done] | tauto].
    apply set_has_true in H. by apply elem_of_nil in H.
Qed.

(** ** The generated proxy *)

(** Unfolds a proxy function down to the client's answers. *)
Ltac run_proxy :=
  repeat first
    [ progress cbn -[Nat.ltb]
    | progress cbv [String.append]
    | progress unfold ServiceProxy.UnionFunc, ServiceProxy.ObjectUnionFunc,
        ServiceProxy.TypeFunc, ServiceProxy.MDUFunc, ServiceProxy.then_,
        ServiceProxy.bind, ServiceProxy.ret, ServiceProxy._client_marshal,
        ServiceProxy._client_callRemoteFunction, ServiceProxy.named,
        Promise_all, fulfilments
    | match goal with
      | |- context [ServiceProxy.marshal _ _ ?cl ?v ?t ?s] =>
          destruct (ServiceProxy.marshal _ _ cl v t s) as [[[?|?] ?] ?]
      | |- context [ServiceProxy.callRemoteFunction _ _ ?cl ?n ?r ?a ?s] =>
          destruct (ServiceProxy.callRemoteFunction _ _ cl n r a s)
      | |- context [(?a <? ?b)%nat] => destruct (a <? b)%nat
      end
    | rewrite <- app_assoc ].

(** C2, every exported proxy function marshals, then calls: the exported
    object has the four functions; called with any arguments, each asks
    [_client.marshal] for each of its parameters with the declared named type
    and source location, in order (a parameter that was not passed is
    [undefined]), and then, the promises being fulfilled, asks
    [_client.callRemoteFunction] once with ['UnionTypes/<functionName>'],
    ["void"] and the list of the marshalled values, whose promise it returns.
    Nothing else is asked of the client.  When a [marshal] promise is
    rejected the remote call is not made and the rejection is returned; of
    two rejections, the one that came first in time. *)
Theorem proxy_functions_marshal_then_call
    (Value ClientState : Type)
    (_client : ServiceProxy.Client Value ClientState) (undefined : Value) :
  exists UnionFunc ObjectUnionFunc TypeFunc MDUFunc,
    ServiceProxy.remoteModule Value ClientState _client undefined
    = [ ("UnionFunc", UnionFunc); ("ObjectUnionFunc", ObjectUnionFunc);
        ("TypeFunc", TypeFunc); ("MDUFunc", MDUFunc) ] /\
    (forall (args : list Value) c calls,
       let arg0 := nth 0 args undefined in
       let arg1 := nth 1 args undefined in
       let type0 := ServiceProxy.named "SSU" 6 in
       let type1 := ServiceProxy.named "MixedUnion" 6 in
       let '(p0, c0) := ServiceProxy.marshal _ _ _client arg0 type0 c in
       let '(p1, c1) := ServiceProxy.marshal _ _ _client arg1 type1 c0 in
       let asked :=
         calls ++ [ServiceProxy.marshal_call arg0 type0;
                   ServiceProxy.marshal_call arg1 type1] in
       UnionFunc args (c, calls)
       = match outcome p0, outcome p1 with
         | Fulfilled v0, Fulfilled v1 =>
             let '(p, c') :=
               ServiceProxy.callRemoteFunction _ _ _client
                 "UnionTypes/UnionFunc" "void" [v0; v1] c1 in
             (p, (c', asked ++ [ServiceProxy.callRemoteFunction_call
                                  "UnionTypes/UnionFunc" "void" [v0; v1]]))
         | Rejected e0, Fulfilled _ => (Rejected e0, (c1, asked))
         | Fulfilled _, Rejected e1 => (Rejected e1, (c1, asked))
         | Rejected e0, Rejected e1 =>
             (Rejected (if (settledAt p1 <? settledAt p0)%nat then e1 else e0),
              (c1, asked))
         end) /\
    Forall2
      (fun exported signature =>
         forall (args : list Value) c calls,
           let arg0 := nth 0 args undefined in
           let qualified := "UnionTypes/" +:+ signature.1 in
           let '(p0, c0) := ServiceProxy.marshal _ _ _client arg0 signature.2 c in
           let asked := calls ++ [ServiceProxy.marshal_call arg0 signature.2] in
           exported args (c, calls)
           = match outcome p0 with
             | Fulfilled v0 =>
                 let '(p, c') :=
                   ServiceProxy.callRemoteFunction _ _ _client qualified "void" [v0]
                     c0 in
                 (p, (c', asked ++ [ServiceProxy.callRemoteFunction_call
                                      qualified "void" [v0]]))
             | Rejected e => (Rejected e, (c0, asked))
             end)
      [ObjectUnionFunc; TypeFunc; MDUFunc]
      [ ("ObjectUnionFunc", ServiceProxy.named "Location" 20);
        ("TypeFunc", ServiceProxy.named "Type" 111);
        ("MDUFunc", ServiceProxy.named "MultipleDiscriminantUnion" 116) ].
Proof.
  do 4 eexists. split; [reflexivity |]. split.
  - intros args c calls. run_proxy; reflexivity.
  - repeat (apply List.Forall2_cons; [| ]); [.. | apply List.Forall2_nil].
    all: intros args c calls; run_proxy; reflexivity.
Qed.

(** ** The registry of remote connections *)

(** ** Strings *)

Lemma append_String (c : ascii) (s t : string) :
  String c s +:+ t = String c (s +:+ t).
Proof. reflexivity. Qed.

Lemma append_assoc_string (s t u : string) :
  (s +:+ t) +:+ u = s +:+ t +:+ u.
Proof. induction s as [| c s IH]; [done |]. by rewrite !append_String, IH. Qed.

Lemma prefix_app (needle haystack : string) :
  String.prefix needle haystack = true <-> exists behind, haystack = needle +:+ behind.
Proof.
  revert haystack.
  induction needle as [| a needle IH]; intros [| b haystack]; simpl.
  - split; [intros _; by exists EmptyString | done].
  - split; [intros _; by exists (String b haystack) | done].
  - split; [done | by intros [? ?]].
  - destruct (Ascii.ascii_dec a b) as [<- | Hab].
    + rewrite IH. split; intros [behind Hb]; exists behind;
        rewrite append_String in *; congruence.
    + split; [done | intros [? Hb]; rewrite append_String in Hb; congruence].
Qed.

Section RemoteFacts.
Import Remote.

(** The four expectations of the tests for [getByHostnameAndPath]. *)
Example getByHostnameAndPath_matches :
  getByHostnameAndPath testConnections testHostname testPath = Some testConnection.
Proof. vm_compute. reflexivity. Qed.

Example getByHostnameAndPath_other_path :
  getByHostnameAndPath testConnections testHostname "/home/bar/test" = None.
Proof. vm_compute. reflexivity. Qed.

Example getByHostnameAndPath_other_hostname :
  getByHostnameAndPath testConnections "bar.nuclide.com" testPath = None.
Proof. vm_compute. reflexivity. Qed.

Example getByHostnameAndPath_deep_path :
  getByHostnameAndPath testConnections testHostname (testPath +:+ "/def/abc.txt")
  = Some testConnection.
Proof. vm_compute. reflexivity. Qed.

(** And the four for [getForUri]; the second URI has the stray ['$'] of the
    test. *)
Example getForUri_matches :
  getForUri testConnections ("nuclide://" +:+ testHostname +:+ ":8919" +:+ testPath)
  = Some testConnection.
Proof. vm_compute. reflexivity. Qed.

Example getForUri_other_path :
  getForUri testConnections ("nuclide://" +:+ testHostname +:+ ":9292$/home/bar/test")
  = None.
Proof. vm_compute. reflexivity. Qed.

Example getForUri_other_hostname :
  getForUri testConnections ("nuclide://bar.nuclide.com:9292" +:+ testPath) = None.
Proof. vm_compute. reflexivity. Qed.

Example getForUri_deep_path :
  getForUri testConnections
    ("nuclide://" +:+ testHostname +:+ ":7685" +:+ testPath +:+ "/def/abc.txt")
  = Some testConnection.
Proof. vm_compute. reflexivity. Qed.

(** The first element that a filter keeps, when one element alone passes. *)
Lemma head_filter_only {A} (P : A -> Prop) `{!forall x, Decision (P x)}
    (l : list A) (c : A) :
  c ∈ l -> P c -> (forall c', c' ∈ l -> P c' -> c' = c) ->
  head (filter P l) = Some c.
Proof.
  induction l as [| x l IH]; intros Hin Hc Honly; [by apply elem_of_nil in Hin |].
  rewrite filter_cons. destruct (decide (P x)) as [Hx | Hx].
  - simpl. f_equal. apply Honly; [apply elem_of_cons; by left | done].
  - apply IH; [| done |].
    + apply elem_of_cons in Hin as [-> | Hin]; done.
    + intros c' Hc' HP. apply Honly; [apply elem_of_cons; by right | done].
Qed.

Lemma head_filter_nothing {A} (P : A -> Prop) `{!forall x, Decision (P x)}
    (l : list A) :
  (forall c', c' ∈ l -> ~ P c') -> head (filter P l) = None.
Proof.
  induction l as [| x l IH]; intros Hnone; [done |].
  rewrite filter_cons. destruct (decide (P x)) as [Hx | Hx].
  - exfalso. apply (Hnone x); [apply elem_of_cons; by left | done].
  - apply IH. intros c' Hc'. apply Hnone, elem_of_cons. by right.
Qed.

(** What the lookup returns is registered under the hostname asked for, and
    the path asked for lies within its root. *)
Lemma getByHostnameAndPath_sound connections hostname path c :
  getByHostnameAndPath connections hostname path = Some c ->
  registered connections hostname c /\ isWithin (connection_path c) path = true.
Proof.
  unfold getByHostnameAndPath, getByHostname, registered. intros Hhead.
  apply head_Some_elem_of, list_elem_of_filter in Hhead as [Hwithin Hin].
  split; [| done].
  destruct (connections !! hostname) as [server |]; [by exists server |].
  by apply elem_of_nil in Hin.
Qed.

Lemma getByHostname_registered connections hostname c :
  c ∈ getByHostname connections hostname <-> registered connections hostname c.
Proof.
  unfold getByHostname, registered. destruct (connections !! hostname) as [server |].
  - split; [intros ?; by exists server | by intros (? & [= <-] & ?)].
  - rewrite elem_of_nil. split; [done | by intros (? & [=] & _)].
Qed.

(** *** URIs *)

Lemma stripPrefix_app (prefix s : string) : stripPrefix prefix (prefix +:+ s) = Some s.
Proof. induction prefix as [| a prefix IH]; simpl; [done |]. by rewrite Ascii.eqb_refl. Qed.

Lemma splitHostname_app (hostname rest : string) (c : ascii) :
  isHostname hostname = true -> endsHostname c = true ->
  splitHostname (hostname +:+ String c rest) = (hostname, String c rest).
Proof.
  intros Hhost Hc. induction hostname as [| a hostname IH]; simpl in *.
  - by rewrite Hc.
  - apply andb_true_iff in Hhost as [Ha Hhost]. apply negb_true_iff in Ha.
    by rewrite Ha, (IH Hhost).
Qed.

(** A number in decimal is made of digits. *)
Lemma skipDigits_string_of_uint (d : Decimal.uint) (rest : string) :
  skipDigits (NilEmpty.string_of_uint d +:+ rest) = skipDigits rest.
Proof. induction d; simpl; done. Qed.

Lemma skipDigits_path (path : string) :
  isAbsolute path = true -> skipDigits path = path.
Proof.
  destruct path as [| c path]; [done |]. unfold isAbsolute. intros Hslash.
  apply Ascii.eqb_eq in Hslash as ->. reflexivity.
Qed.

Lemma parseRemoteUri_remoteUri (hostname : string) (port : N) (path : string) :
  isHostname hostname = true -> isAbsolute path = true ->
  parseRemoteUri (remoteUri hostname port path) = Some (hostname, path).
Proof.
  intros Hhost Hpath. unfold parseRemoteUri, remoteUri.
  rewrite stripPrefix_app.
  change (":" +:+ decimal port +:+ path) with (String ":" (decimal port +:+ path)).
  rewrite splitHostname_app by done.
  unfold decimal. by rewrite skipDigits_string_of_uint, skipDigits_path.
Qed.

End RemoteFacts.

(** The model's test of [isWithin] against the words of the claim: the path
    equals the root or is the root, a slash and some more. *)
Lemma isWithin_spec (root path : string) :
  Remote.isWithin root path = true
  <-> path = root \/ exists rest, path = root +:+ "/" +:+ rest.
Proof.
  unfold Remote.isWithin. rewrite orb_true_iff, String.eqb_eq, prefix_app.
  split; (intros [? | [rest Hrest]]; [by left | right; exists rest]).
  - by rewrite Hrest, append_assoc_string.
  - by rewrite Hrest, append_assoc_string.
Qed.




(** C8, the port of a URI plays no part in the lookup: for a hostname [H], a
    port number [N] and a path [Q], [getForUri('nuclide://' + H + ':' + N +
    Q)] returns what [getByHostnameAndPath(H, Q)] returns, whatever [N] is. *)
Theorem getForUri_ignores_port
    (connections : gmap string Remote.ServerConnection)
    (H : string) (N : N) (Q : string) :
  Remote.isHostname H = true ->
  Remote.isAbsolute Q = true ->
  Remote.getForUri connections ("nuclide://" +:+ H +:+ ":" +:+ Remote.decimal N +:+ Q)
  = Remote.getByHostnameAndPath connections H Q.
Proof.
  intros HH HQ. unfold Remote.getForUri.
  pose proof (parseRemoteUri_remoteUri H N Q HH HQ) as Hparse.
  unfold Remote.remoteUri in Hparse. by rewrite Hparse.
Qed.

Lemma getForUri_ignores_port_witness :
  Remote.isHostname Remote.testHostname = true /\
  Remote.isAbsolute Remote.testPath = true /\
  Remote.getForUri Remote.testConnections "nuclide://foo.nuclide.com:8919/home/foo/test"
  = Remote.getByHostnameAndPath Remote.testConnections Remote.testHostname Remote.testPath.
Proof.
  split; [reflexivity |]. split; [reflexivity |].
  exact (getForUri_ignores_port Remote.testConnections Remote.testHostname 8919
           Remote.testPath eq_refl eq_refl).
Defined.

(** ** The diff view model *)

Section DiffViewFacts.
Import DiffView.

(** *** [indexOf] finds what the string contains *)

Lemma contains_cons (c : ascii) (haystack needle : string) :
  contains (String c haystack) needle
  <-> String.prefix needle (String c haystack) = true \/ contains haystack needle.
Proof.
  rewrite prefix_app. unfold contains. split.
  - intros ([| b before] & behind & Heq).
    + left. by exists behind.
    + right. exists before, behind. rewrite append_String in Heq. congruence.
  - intros [[behind Heq] | (before & behind & Heq)].
    + by exists EmptyString, behind.
    + exists (String c before), behind. rewrite append_String. congruence.
Qed.

Lemma contains_empty (needle : string) :
  contains EmptyString needle <-> String.prefix needle EmptyString = true.
Proof.
  rewrite prefix_app. unfold contains. split.
  - intros ([| b before] & behind & Heq); [by exists behind |].
    rewrite append_String in Heq. discriminate Heq.
  - intros [behind Heq]. by exists EmptyString, behind.
Qed.

Lemma indexOf_from_found (i : Z) (haystack needle : string) :
  0 <= i ->
  (contains haystack needle /\ i <= indexOf_from i haystack needle) \/
  (~ contains haystack needle /\ indexOf_from i haystack needle = -1).
Proof.
  revert i. induction haystack as [| c haystack IH]; intros i Hi; cbn [indexOf_from].
  - rewrite contains_empty.
    destruct (String.prefix needle EmptyString); [left | right]; split; first [lia | done].
  - rewrite contains_cons. destruct (String.prefix needle (String c haystack)).
    + left. split; [by left | lia].
    + destruct (IH (i + 1) ltac:(lia)) as [[Hc Hle] | [Hc Heq]].
      * left. split; [by right | lia].
      * right. split; [intros [? | ?]; done | done].
Qed.

Lemma indexOf_contains (haystack needle : string) :
  (indexOf haystack needle =? -1) = false <-> contains haystack needle.
Proof.
  unfold indexOf. rewrite Z.eqb_neq.
  destruct (indexOf_from_found 0 haystack needle ltac:(lia)) as [[Hc Hle] | [Hc Heq]].
  - split; [done | lia].
  - split; [done | by intros ?].
Qed.

(** *** Running the methods *)

Lemma for_each_cons {A} (x : A) (xs : list A) (body : A -> M unit) :
  for_each (x :: xs) body = bind (body x) (fun _ => for_each xs body).
Proof. reflexivity. Qed.

(** A loop that only acts on the world leaves the instance as it is. *)
Lemma for_each_perform {A} (xs : list A) (f : A -> Effect) (this : DiffViewModel) :
  for_each xs (fun x => perform (f x)) this = (Normal tt, this, map f xs).
Proof.
  induction xs as [| x xs IH]; [done |].
  rewrite for_each_cons. unfold bind, perform at 1. by rewrite IH.
Qed.

Lemma stacks_created_app (repository : Repository) (done done' : list Effect) :
  stacks_created repository (done ++ done')
  = (stacks_created repository done + stacks_created repository done')%nat.
Proof. unfold stacks_created. by rewrite List.filter_app, length_app. Qed.

Lemma _createRepositoryStack_run (repository : Repository)
    activeSubs stacks subs active isActive state objects :
  let repositoryStack := {| stack_id := objects; stack_repository := repository |} in
  let subscriptions := {| disposable_id := S objects |} in
  _createRepositoryStack repository
    {| _activeSubscriptions := activeSubs;
       _repositoryStacks := stacks; _repositorySubscriptions := subs;
       _activeRepositoryStack := active; _isActive := isActive;
       _state := state; _objects := objects |}
  = (Normal repositoryStack,
     {| _activeSubscriptions := activeSubs;
       _repositoryStacks := map_set stacks repository repositoryStack;
        _repositorySubscriptions := map_set subs repository subscriptions;
        _activeRepositoryStack := active; _isActive := isActive;
        _state := state; _objects := S (S objects) |},
     [ new_RepositoryStack repositoryStack;
       stack_subscribe repositoryStack "did-update-dirty-file-changes" subscriptions;
       stack_subscribe repositoryStack "did-update-commit-merge-file-changes" subscriptions;
       stack_subscribe repositoryStack "did-change-revisions" subscriptions ]
     ++ if isActive then [stack_activate repositoryStack] else []).
Proof. destruct isActive; reflexivity. Qed.

(** The loops of [_updateRepositories] are the loops over the two bodies. *)
Lemma _updateRepositories_loops (host : Host) :
  _updateRepositories host
  = let repositories := set_from (hgRepositories host) in
    bind (gets _repositoryStacks) (fun entries =>
    bind (for_each entries (dispose_removed repositories)) (fun _ =>
    bind (for_each repositories create_added) (fun _ =>
    _updateDirtyChangedStatus host))).
Proof. reflexivity. Qed.

(** One step of the first loop, for a repository that is gone. *)
Lemma dispose_removed_run (repositories : JsSet Repository)
    (repository : Repository) (repositoryStack : RepositoryStack)
    (subscriptions : CompositeDisposable)
    activeSubs stacks subs active isActive state objects :
  set_has repositories repository = false ->
  map_get subs repository = Some subscriptions ->
  dispose_removed repositories (repository, repositoryStack)
    {| _activeSubscriptions := activeSubs;
       _repositoryStacks := stacks; _repositorySubscriptions := subs;
       _activeRepositoryStack := active; _isActive := isActive;
       _state := state; _objects := objects |}
  = (Normal tt,
     {| _activeSubscriptions := activeSubs;
       _repositoryStacks := map_delete stacks repository;
        _repositorySubscriptions := map_delete subs repository;
        _activeRepositoryStack := active; _isActive := isActive;
        _state := state; _objects := objects |},
     [stack_dispose repositoryStack; subscriptions_dispose subscriptions]).
Proof.
  intros Hgone Hsubs. unfold dispose_removed. rewrite Hgone.
  unfold bind, perform, gets, write_repositoryStacks, write_repositorySubscriptions,
    modify, invariant, ret.
  cbn. rewrite Hsubs. reflexivity.
Qed.

(** The first loop: the stacks of the repositories that are gone are
    disposed with their subscriptions and leave both maps; the others stay
    as they are; no stack is made. *)
Lemma dispose_removed_loop (repositories : JsSet Repository)
    (entries : list (Repository * RepositoryStack))
    activeSubs stacks subs active isActive state objects :
  NoDup (map_keys stacks) -> map_keys subs = map_keys stacks ->
  NoDup entries.*1 -> (forall r, r ∈ entries.*1 -> r ∈ map_keys stacks) ->
  exists stacks' subs' done,
    for_each entries (dispose_removed repositories)
      {| _activeSubscriptions := activeSubs;
       _repositoryStacks := stacks; _repositorySubscriptions := subs;
         _activeRepositoryStack := active; _isActive := isActive;
         _state := state; _objects := objects |}
    = (Normal tt,
       {| _activeSubscriptions := activeSubs;
       _repositoryStacks := stacks'; _repositorySubscriptions := subs';
          _activeRepositoryStack := active; _isActive := isActive;
          _state := state; _objects := objects |},
       done) /\
    NoDup (map_keys stacks') /\ map_keys subs' = map_keys stacks' /\
    (forall r, r ∈ map_keys stacks'
               <-> r ∈ map_keys stacks /\ (r ∈ repositories \/ r ∉ entries.*1)) /\
    (forall r, r ∈ map_keys stacks' ->
               map_get stacks' r = map_get stacks r /\ map_get subs' r = map_get subs r) /\
    (forall r repositoryStack,
       (r, repositoryStack) ∈ entries -> r ∉ repositories ->
       stack_dispose repositoryStack ∈ done /\
       exists subscriptions,
         map_get subs r = Some subscriptions /\ subscriptions_dispose subscriptions ∈ done) /\
    (forall r, stacks_created r done = 0%nat).
Proof.
  revert stacks subs.
  induction entries as [| [k v] entries IH]; intros stacks subs Hnd Hkeys Hentries Hsub.
  - exists stacks, subs, []. split_and!; try done.
    + intros r. rewrite elem_of_nil. tauto.
    + intros r s Hin. by apply elem_of_nil in Hin.
  - rewrite fmap_cons in Hentries. apply NoDup_cons in Hentries as [Hk Hentries].
    cbn [fst] in Hk.
    assert (Hkin : k ∈ map_keys stacks) by (apply Hsub; rewrite fmap_cons; by left).
    rewrite for_each_cons. unfold bind at 1.
    destruct (set_has repositories k) eqn:Hhas.
    + (* the repository is still there *)
      unfold dispose_removed at 1. rewrite Hhas. unfold ret at 1.
      destruct (IH stacks subs Hnd Hkeys Hentries) as
        (stacks' & subs' & done & Hrun & Hnd' & Hkeys' & Hdom & Hget & Hdisp & Hnew).
      { intros r Hr. apply Hsub. rewrite fmap_cons. by right. }
      rewrite Hrun. exists stacks', subs', done. split_and!; try done.
      * intros r. rewrite Hdom, fmap_cons, elem_of_cons. cbn [fst].
        apply set_has_true in Hhas. split; [| tauto].
        intros [Hr [? | Hnot]]; [tauto |]. split; [done |].
        destruct (decide (r = k)) as [-> | ?]; tauto.
      * intros r s Hin Hout. apply elem_of_cons in Hin as [[= -> ->] | Hin];
          [| by apply Hdisp].
        apply set_has_true in Hhas. done.
    + (* the repository is gone *)
      destruct (map_get_keys subs k) as [d Hd]; [by rewrite Hkeys |].
      rewrite (dispose_removed_run repositories k v d) by done.
      destruct (IH (map_delete stacks k) (map_delete subs k)) as
        (stacks' & subs' & done & Hrun & Hnd' & Hkeys' & Hdom & Hget & Hdisp & Hnew).
      { rewrite map_keys_delete. by apply delete_key_NoDup. }
      { rewrite !map_keys_delete. by rewrite Hkeys. }
      { done. }
      { intros r Hr. rewrite map_keys_delete, delete_key_elem by done. split.
        - apply Hsub. rewrite fmap_cons. by right.
        - intros ->. done. }
      rewrite Hrun. eexists stacks', subs', _. split; [reflexivity |].
      assert (Hkout : k ∉ repositories).
      { intros Hin. apply set_has_true in Hin. congruence. }
      split_and!; try done.
      * intros r. rewrite Hdom, map_keys_delete, delete_key_elem by done.
        rewrite fmap_cons, elem_of_cons. cbn [fst]. split.
        -- intros [[? ?] [? | ?]]; tauto.
        -- intros [? [? | ?]]; [| tauto].
           split; [split; [done |] | tauto]. intros ->. done.
      * intros r Hr. destruct (Hget r Hr) as [Hs Hb].
        apply Hdom in Hr as [Hr _].
        rewrite map_keys_delete, delete_key_elem in Hr by done. destruct Hr as [_ Hne].
        rewrite Hs, Hb, !map_get_delete by (done || by rewrite Hkeys).
        by rewrite !decide_False by congruence.
      * intros r s Hin Hout. apply elem_of_cons in Hin as [[= -> ->] | Hin].
        -- split; [apply elem_of_cons; by left |]. exists d. split; [done |].
           apply elem_of_cons. right. apply elem_of_cons. by left.
        -- destruct (Hdisp r s Hin Hout) as [Hs (d' & Hd' & Hin')].
           split; [do 2 (apply elem_of_cons; right); done |].
           exists d'. split; [| do 2 (apply elem_of_cons; right); done].
           rewrite map_get_delete in Hd' by (by rewrite Hkeys).
           destruct (decide (k = r)); [done | done].
Qed.

(** One step of the second loop. *)
Lemma create_added_run (repository : Repository)
    activeSubs stacks subs active isActive state objects :
  let this :=
    {| _activeSubscriptions := activeSubs;
       _repositoryStacks := stacks; _repositorySubscriptions := subs;
       _activeRepositoryStack := active; _isActive := isActive;
       _state := state; _objects := objects |} in
  create_added repository this
  = if map_has stacks repository then (Normal tt, this, [])
    else
      let '(_, this', done) := _createRepositoryStack repository this in
      (Normal tt, this', done ++ []).
Proof.
  cbv zeta. unfold create_added, bind at 1, gets at 1. cbn [_repositoryStacks].
  destruct (map_has stacks repository); [reflexivity |].
  unfold bind. rewrite _createRepositoryStack_run. cbv zeta. reflexivity.
Qed.

Lemma stacks_created_new (r repository : Repository) (id : nat)
    (rest : list Effect) :
  (forall e, e ∈ rest -> makes_stack_for r e = false) ->
  stacks_created r
    (new_RepositoryStack {| stack_id := id; stack_repository := repository |} :: rest)
  = if decide (r = repository) then 1%nat else 0%nat.
Proof.
  intros Hrest. unfold stacks_created. cbn [List.filter makes_stack_for stack_repository].
  assert (Hnone : List.filter (makes_stack_for r) rest = []).
  { induction rest as [| e rest IH]; [done |]. cbn [List.filter].
    rewrite (Hrest e) by (apply elem_of_cons; by left).
    apply IH. intros e' He'. apply Hrest, elem_of_cons. by right. }
  rewrite Hnone. destruct (decide (r = repository)) as [-> | Hne].
  - by rewrite bool_decide_eq_true_2.
  - by rewrite bool_decide_eq_false_2 by congruence.
Qed.

(** The second loop: each repository without a stack gets one stack and one
    subscription; the stacks that were there stay. *)
Lemma create_added_loop (repositories : list Repository)
    activeSubs stacks subs active isActive state objects :
  NoDup (map_keys stacks) -> map_keys subs = map_keys stacks ->
  NoDup repositories ->
  exists stacks' subs' objects' done,
    for_each repositories create_added
      {| _activeSubscriptions := activeSubs;
       _repositoryStacks := stacks; _repositorySubscriptions := subs;
         _activeRepositoryStack := active; _isActive := isActive;
         _state := state; _objects := objects |}
    = (Normal tt,
       {| _activeSubscriptions := activeSubs;
       _repositoryStacks := stacks'; _repositorySubscriptions := subs';
          _activeRepositoryStack := active; _isActive := isActive;
          _state := state; _objects := objects' |},
       done) /\
    NoDup (map_keys stacks') /\ map_keys subs' = map_keys stacks' /\
    (forall r, r ∈ map_keys stacks' <-> r ∈ map_keys stacks \/ r ∈ repositories) /\
    (forall r, r ∈ map_keys stacks ->
               map_get stacks' r = map_get stacks r /\ map_get subs' r = map_get subs r) /\
    (forall r, stacks_created r done
               = if decide (r ∈ repositories /\ r ∉ map_keys stacks) then 1%nat else 0%nat) /\
    (forall stack, stack_dispose stack ∉ done) /\
    (forall d, subscriptions_dispose d ∉ done).
Proof.
  revert stacks subs objects.
  induction repositories as [| k repositories IH]; intros stacks subs objects Hnd Hkeys Hrepos.
  - exists stacks, subs, objects, [].
    split_and!; try done; try (intros ?; apply not_elem_of_nil).
    intros r. rewrite elem_of_nil. tauto.
  - apply NoDup_cons in Hrepos as [Hk Hrepos].
    rewrite for_each_cons. unfold bind at 1. rewrite create_added_run. cbv zeta.
    destruct (map_has stacks k) eqn:Hhas.
    + (* the repository has its stack already *)
      apply map_has_true in Hhas.
      destruct (IH stacks subs objects Hnd Hkeys Hrepos) as
        (stacks' & subs' & objects' & done & Hrun & Hnd' & Hkeys' & Hdom & Hget & Hnew
         & Hnodisp & Hnodisp').
      rewrite Hrun. exists stacks', subs', objects', done. split_and!; try done.
      * intros r. rewrite Hdom, elem_of_cons. split; [tauto |].
        intros [? | [-> | ?]]; tauto.
      * intros r. rewrite Hnew.
        destruct (decide (r ∈ repositories /\ r ∉ map_keys stacks)) as [[Hr Hout] | Hn].
        -- rewrite decide_True; [done |]. split; [apply elem_of_cons; by right | done].
        -- rewrite decide_False; [done |]. intros [Hr Hout]. apply Hn.
           apply elem_of_cons in Hr as [-> | Hr]; done.
    + (* the repository is new *)
      apply map_has_false in Hhas.
      rewrite _createRepositoryStack_run. cbv zeta.
      set (stack := {| stack_id := objects; stack_repository := k |}).
      set (d := {| disposable_id := S objects |}).
      destruct (IH (map_set stacks k stack) (map_set subs k d) (S (S objects))) as
        (stacks' & subs' & objects' & done & Hrun & Hnd' & Hkeys' & Hdom & Hget & Hnew
         & Hnodisp & Hnodisp').
      { by apply map_keys_set_NoDup. }
      { rewrite !map_keys_set. unfold map_has.
        destruct (map_get subs k) eqn:Hs.
        - apply map_get_Some_keys in Hs. rewrite Hkeys in Hs. done.
        - apply map_get_None in Hhas. rewrite Hhas. by rewrite Hkeys. }
      { done. }
      rewrite Hrun. eexists stacks', subs', objects', _. split; [reflexivity |].
      split_and!; try done.
      * intros r. rewrite Hdom, map_keys_set_elem, elem_of_cons. tauto.
      * intros r Hr. assert (Hne : k <> r) by (intros ->; done).
        destruct (Hget r) as [Hs Hb]; [apply map_keys_set_elem; by right |].
        rewrite Hs, Hb, !map_get_set. by rewrite !decide_False by done.
      * intros r. rewrite !stacks_created_app, Hnew.
        unfold stack at 1. rewrite stacks_created_new.
        2: { intros e He. repeat (apply elem_of_cons in He as [-> | He]; [done |]).
             by apply elem_of_nil in He. }
        assert (Hact : stacks_created r (if isActive then [stack_activate stack] else [])
                       = 0%nat) by (by destruct isActive).
        rewrite Hact. change (stacks_created r []) with 0%nat.
        pose proof (map_keys_set_elem stacks k stack r) as Hset.
        destruct (decide (r = k)) as [-> | Hne].
        -- rewrite decide_False by (intros [? ?]; tauto).
           rewrite decide_True; [done |]. split; [apply elem_of_cons; by left | done].
        -- destruct (decide (r ∈ repositories /\ r ∉ map_keys (map_set stacks k stack)))
             as [[Hr Hout] | Hn].
           ++ rewrite decide_True; [done |]. split; [apply elem_of_cons; by right |].
              intros Hin. apply Hout, Hset. by right.
           ++ rewrite decide_False; [done |]. intros [Hr Hout]. apply Hn.
              apply elem_of_cons in Hr as [? | Hr]; [done |]. split; [done |].
              intros Hin. apply Hset in Hin as [? | ?]; done.
      * intros s Hs. rewrite !elem_of_app in Hs. destruct Hs as [[[Hs | Hs] | Hs] | Hs].
        -- repeat (apply elem_of_cons in Hs as [Hs | Hs]; [discriminate Hs |]).
           by apply elem_of_nil in Hs.
        -- destruct isActive; [apply list_elem_of_singleton in Hs; discriminate Hs
                              | by apply elem_of_nil in Hs].
        -- by apply elem_of_nil in Hs.
        -- by apply Hnodisp in Hs.
      * intros s Hs. rewrite !elem_of_app in Hs. destruct Hs as [[[Hs | Hs] | Hs] | Hs].
        -- repeat (apply elem_of_cons in Hs as [Hs | Hs]; [discriminate Hs |]).
           by apply elem_of_nil in Hs.
        -- destruct isActive; [apply list_elem_of_singleton in Hs; discriminate Hs
                              | by apply elem_of_nil in Hs].
        -- by apply elem_of_nil in Hs.
        -- by apply Hnodisp' in Hs.
Qed.

Lemma hgRepositories_spec (host : Host) (r : Repository) :
  r ∈ hgRepositories host <-> Some r ∈ getRepositories host /\ getType r = "hg".
Proof.
  unfold hgRepositories. rewrite list_elem_of_omap. split.
  - intros ([r' |] & Hin & Hsome); [| done].
    destruct (decide (getType r' = "hg")); [| done]. by injection Hsome as ->.
  - intros [Hin Hhg]. exists (Some r). split; [done |]. by rewrite decide_True.
Qed.

Lemma _updateCompareChangedStatus_run (dirty commitMerge : option FileChanges)
    (this : DiffViewModel) :
  let state := _state this in
  let dirty' := default (dirtyFileChanges state) dirty in
  let commitMerge' := default (commitMergeFileChanges state) commitMerge in
  let compare :=
    if decide (viewMode state = DiffMode.COMMIT_MODE) then dirty' else commitMerge' in
  _updateCompareChangedStatus dirty commitMerge this
  = (Normal tt, with_state (set_fileChanges dirty' commitMerge' compare state) this,
     [emit DID_UPDATE_STATE_EVENT]).
Proof. destruct dirty, commitMerge; reflexivity. Qed.

Lemma compares_by_mode_set_fileChanges (dirty commitMerge : FileChanges) (state : State) :
  compares_by_mode
    (set_fileChanges dirty commitMerge
       (if decide (viewMode state = DiffMode.COMMIT_MODE) then dirty else commitMerge)
       state).
Proof. reflexivity. Qed.

(** [_updateRepositories] from an instance whose maps match. *)
Lemma _updateRepositories_run (host : Host)
    activeSubs stacks subs active isActive state objects :
  NoDup (map_keys stacks) -> map_keys subs = map_keys stacks ->
  exists stacks' subs' state' objects' done,
    _updateRepositories host
      {| _activeSubscriptions := activeSubs;
       _repositoryStacks := stacks; _repositorySubscriptions := subs;
         _activeRepositoryStack := active; _isActive := isActive;
         _state := state; _objects := objects |}
    = (Normal tt,
       {| _activeSubscriptions := activeSubs;
       _repositoryStacks := stacks'; _repositorySubscriptions := subs';
          _activeRepositoryStack := active; _isActive := isActive;
          _state := state'; _objects := objects' |},
       done) /\
    compares_by_mode state' /\
    NoDup (map_keys stacks') /\ map_keys subs' = map_keys stacks' /\
    (forall r, r ∈ map_keys stacks' <-> r ∈ hgRepositories host) /\
    (forall r, r ∈ map_keys stacks -> r ∈ hgRepositories host ->
               map_get stacks' r = map_get stacks r /\ map_get subs' r = map_get subs r) /\
    (forall r repositoryStack,
       map_get stacks r = Some repositoryStack -> r ∉ hgRepositories host ->
       stack_dispose repositoryStack ∈ done /\
       exists subscriptions,
         map_get subs r = Some subscriptions /\ subscriptions_dispose subscriptions ∈ done) /\
    (forall r, stacks_created r done
               = if decide (r ∈ hgRepositories host /\ r ∉ map_keys stacks)
                 then 1%nat else 0%nat).
Proof.
  intros Hnd Hkeys. rewrite _updateRepositories_loops. cbv zeta.
  destruct (set_from_spec (hgRepositories host)) as [Hset_nd Hset].
  unfold bind at 1, gets at 1. cbn [_repositoryStacks].
  destruct (dispose_removed_loop (set_from (hgRepositories host)) stacks
              activeSubs stacks subs active isActive state objects Hnd Hkeys Hnd ltac:(done))
    as (stacks1 & subs1 & done1 & Hrun1 & Hnd1 & Hkeys1 & Hdom1 & Hget1 & Hdisp1 & Hnew1).
  unfold bind at 1. rewrite Hrun1.
  destruct (create_added_loop (set_from (hgRepositories host))
              activeSubs stacks1 subs1 active isActive state objects Hnd1 Hkeys1 Hset_nd)
    as (stacks2 & subs2 & objects2 & done2 & Hrun2 & Hnd2 & Hkeys2 & Hdom2 & Hget2 & Hnew2
        & Hnodisp & Hnodisp').
  unfold bind at 1. rewrite Hrun2.
  unfold _updateDirtyChangedStatus, bind at 1, gets at 1. cbn [_repositoryStacks].
  rewrite _updateCompareChangedStatus_run. cbv zeta. cbn [default].
  eexists stacks2, subs2, _, objects2, _. split; [reflexivity |].
  split; [apply compares_by_mode_set_fileChanges |].
  split; [done |]. split; [done |].
  assert (Hdom : forall r, r ∈ map_keys stacks2 <-> r ∈ hgRepositories host).
  { intros r. rewrite Hdom2, Hdom1, !Hset. unfold map_keys. tauto. }
  split; [done |]. split_and!.
  - intros r Hr Hhg.
    assert (Hr1 : r ∈ map_keys stacks1).
    { apply Hdom1. split; [done |]. left. by apply Hset. }
    destruct (Hget2 r Hr1) as [-> ->]. by apply Hget1.
  - intros r s Hs Hout.
    assert (Hentry : (r, s) ∈ stacks).
    { clear -Hs. induction stacks as [| [k v] m IH]; [done |]. simpl in Hs.
      destruct (decide (k = r)) as [-> | ?].
      - injection Hs as ->. apply elem_of_cons. by left.
      - apply elem_of_cons. right. by apply IH. }
    destruct (Hdisp1 r s Hentry) as [Hin (d & Hd & Hin')]; [by rewrite Hset |].
    split; [rewrite !elem_of_app; tauto |]. exists d. split; [done |].
    rewrite !elem_of_app. tauto.
  - intros r. rewrite !stacks_created_app, Hnew1, Hnew2. cbn.
    destruct (decide (r ∈ hgRepositories host /\ r ∉ map_keys stacks)) as [[Hhg Hout] | Hn].
    + rewrite decide_True; [done |]. split; [by apply Hset |].
      intros Hin. apply Hdom1 in Hin as [? _]. done.
    + rewrite decide_False; [done |]. intros [Hin Hout]. apply Hn.
      apply Hset in Hin. split; [done |]. intros Hr. apply Hout, Hdom1.
      split; [done |]. left. by apply Hset.
Qed.

(** *** What every method keeps *)

Section Keeps.
Variable I : DiffViewModel -> Prop.

Lemma hoare_bind {A B} (P R Q E : DiffViewModel -> Prop) (m : M A) (k : A -> M B) :
  hoare P m R E -> (forall a, hoare R (k a) Q E) -> hoare P (bind m k) Q E.
Proof.
  intros Hm Hk this HP. unfold bind. specialize (Hm this HP).
  destruct (m this) as [[[a | e] this'] did]; [| done].
  specialize (Hk a this' Hm). by destruct (k a this') as [[[b | e] this''] did'].
Qed.

Lemma keeps_bind {A B} (m : M A) (k : A -> M B) :
  keeps I m -> (forall a, keeps I (k a)) -> keeps I (bind m k).
Proof. apply hoare_bind. Qed.

Lemma keeps_ret {A} (a : A) : keeps I (ret a).
Proof. by intros this. Qed.

Lemma keeps_throw {A} (e : Error) : keeps I (throw (A:=A) e).
Proof. by intros this. Qed.

Lemma keeps_gets {A} (f : DiffViewModel -> A) : keeps I (gets f).
Proof. by intros this. Qed.

Lemma keeps_perform (e : Effect) : keeps I (perform e).
Proof. by intros this. Qed.

Lemma keeps_invariant {A} (value : option A) (message : string) :
  keeps I (invariant value message).
Proof. by destruct value; intros this. Qed.

Lemma keeps_invariant_that (condition : bool) (message : string) :
  keeps I (invariant_that condition message).
Proof. by destruct condition; intros this. Qed.

Lemma keeps_try_catch {A} (body : M A) (handler : Error -> M A) :
  keeps I body -> (forall e, keeps I (handler e)) -> keeps I (try_catch body handler).
Proof.
  intros Hbody Hhandler this HI. unfold try_catch. specialize (Hbody this HI).
  destruct (body this) as [[[a | e] this'] did]; [done |].
  specialize (Hhandler e this' Hbody).
  by destruct (handler e this') as [[[b | e'] this''] did'].
Qed.

Lemma keeps_try_finally {A} (body : M A) (finalizer : M unit) :
  keeps I body -> keeps I finalizer -> keeps I (try_finally body finalizer).
Proof.
  intros Hbody Hfinalizer this HI. unfold try_finally. specialize (Hbody this HI).
  destruct (body this) as [[r this'] did].
  assert (HI' : I this') by (by destruct r).
  specialize (Hfinalizer this' HI').
  destruct (finalizer this') as [[[[] | e'] this''] did']; [by destruct r | done].
Qed.

Lemma keeps_for_each {A} (xs : list A) (body : A -> M unit) :
  (forall x, keeps I (body x)) -> keeps I (for_each xs body).
Proof.
  intros Hbody. induction xs as [| x xs IH]; [apply keeps_ret |].
  rewrite for_each_cons. apply keeps_bind; [apply Hbody | by intros _].
Qed.

Lemma keeps_await {A} (promise : Awaited A) : calm I promise -> keeps I (await promise).
Proof.
  intros Hcalm this HI. unfold await. specialize (Hcalm this HI).
  by destruct (settles promise).
Qed.

Lemma keeps_async_call {A} (m : M A) : keeps I m -> keeps I (async_call m).
Proof.
  intros Hm this HI. unfold async_call. specialize (Hm this HI).
  by destruct (m this) as [[[a | e] this'] did].
Qed.

Lemma keeps_catch {A} (promise : Settled A) (onRejected : Error -> M unit) :
  (forall e, keeps I (onRejected e)) -> keeps I (catch promise onRejected).
Proof. intros Hhandler. destruct promise; [apply keeps_ret | apply Hhandler]. Qed.

End Keeps.

(** Writing a state that compares by the view mode. *)
Lemma keeps_setState_spread (fields : State -> State) :
  (forall state, compares_by_mode state -> compares_by_mode (fields state)) ->
  keeps consistent (call _setState (spread fields)).
Proof. intros Hfields this [Hstate Hmaps]. cbn. split; [by apply Hfields | done]. Qed.

Lemma keeps_write_activeRepositoryStack (v : option RepositoryStack) :
  keeps consistent (write_activeRepositoryStack v).
Proof. by intros this [Hstate Hmaps]. Qed.

Lemma keeps_write_isActive (v : bool) : keeps consistent (write_isActive v).
Proof. by intros this [Hstate Hmaps]. Qed.

Lemma keeps_write_activeSubscriptions (v : option CompositeDisposable) :
  keeps consistent (write_activeSubscriptions v).
Proof. by intros this [Hstate Hmaps]. Qed.

Lemma keeps_new_object : keeps consistent new_object.
Proof. by intros this [Hstate Hmaps]. Qed.

(** [_updateCompareChangedStatus] sets the state right whatever it was. *)
Lemma _updateCompareChangedStatus_restores (dirty commitMerge : option FileChanges) :
  hoare stacks_match_subscriptions (_updateCompareChangedStatus dirty commitMerge)
    consistent consistent.
Proof.
  intros this Hmaps. rewrite _updateCompareChangedStatus_run. cbv zeta.
  split; [apply compares_by_mode_set_fileChanges | done].
Qed.

Lemma keeps__updateCompareChangedStatus (dirty commitMerge : option FileChanges) :
  keeps consistent (_updateCompareChangedStatus dirty commitMerge).
Proof. intros this [_ Hmaps]. by apply _updateCompareChangedStatus_restores. Qed.

Lemma keeps__updateRepositories (host : Host) :
  keeps consistent (_updateRepositories host).
Proof.
  intros [activeSubs stacks subs active isActive state objects] [_ [Hnd Hkeys]].
  cbn [_repositoryStacks _repositorySubscriptions] in *.
  destruct (_updateRepositories_run host activeSubs stacks subs active isActive state objects
              Hnd Hkeys)
    as (stacks' & subs' & state' & objects' & done & -> & Hstate & Hnd' & Hkeys' & _).
  by split.
Qed.

(** [dispose] read as one step. *)
Lemma dispose_run (this : DiffViewModel) :
  dispose this
  = (Normal tt,
     with_activeSubscriptions None
       (with_repositorySubscriptions map_new (with_repositoryStacks map_new this)),
     _subscriptions_dispose
       :: map stack_dispose (map_values (_repositoryStacks this))
       ++ map subscriptions_dispose (map_values (_repositorySubscriptions this))
       ++ match _activeSubscriptions this with
          | Some subscriptions => [subscriptions_dispose subscriptions]
          | None => []
          end).
Proof.
  destruct this as [activeSubs stacks subs active isActive state objects].
  unfold dispose. unfold bind at 1. unfold perform at 1.
  unfold bind at 1, gets at 1.
  unfold bind at 1. rewrite for_each_perform.
  unfold bind at 1. unfold write_repositoryStacks at 1, modify at 1.
  unfold bind at 1, gets at 1.
  unfold bind at 1. rewrite for_each_perform.
  unfold bind at 1. unfold write_repositorySubscriptions at 1, modify at 1.
  unfold bind at 1, gets at 1.
  destruct activeSubs as [subscriptions |]; cbn; by rewrite ?app_nil_r.
Qed.

Lemma keeps_dispose : keeps consistent dispose.
Proof.
  intros this [Hstate _]. rewrite dispose_run.
  split; [done |]. split; [apply NoDup_nil_2 | done].
Qed.

(** One rule of the logic at a time, by the shape of the method. *)
Ltac keeps_step :=
  match goal with
  | |- keeps _ (call _setState (spread _)) =>
      apply keeps_setState_spread; intros ? Hcompares; exact Hcompares
  | |- keeps _ (_updateCompareChangedStatus _ _) => apply keeps__updateCompareChangedStatus
  | |- keeps _ (_updateRepositories _) => apply keeps__updateRepositories
  | |- keeps _ (write_activeRepositoryStack _) => apply keeps_write_activeRepositoryStack
  | |- keeps _ (write_isActive _) => apply keeps_write_isActive
  | |- keeps _ (write_activeSubscriptions _) => apply keeps_write_activeSubscriptions
  | |- keeps _ new_object => apply keeps_new_object
  | |- keeps _ (bind _ _) => apply keeps_bind; [| intros ?]
  | |- keeps _ (ret _) => apply keeps_ret
  | |- keeps _ (throw _) => apply keeps_throw
  | |- keeps _ (gets _) => apply keeps_gets
  | |- keeps _ (perform _) => apply keeps_perform
  | |- keeps _ (invariant _ _) => apply keeps_invariant
  | |- keeps _ (invariant_that _ _) => apply keeps_invariant_that
  | |- keeps _ (try_catch _ _) => apply keeps_try_catch; [| intros ?]
  | |- keeps _ (try_finally _ _) => apply keeps_try_finally
  | |- keeps _ (for_each _ _) => apply keeps_for_each; intros ?
  | |- keeps _ (async_call _) => apply keeps_async_call
  | |- keeps _ (catch _ _) => apply keeps_catch; intros ?
  | |- keeps _ (await _) => apply keeps_await; first [assumption | by intros ? ?; auto]
  | |- keeps _ (match ?x with _ => _ end) => destruct x
  end.

Ltac keeps_auto := repeat keeps_step.

Section KeepsConsistent.
Context (template : Awaited (option string))
        (revisions : Awaited (option RevisionsState)).
Hypothesis calm_template : calm consistent template.
Hypothesis calm_revisions : calm consistent revisions.

Lemma keeps_getActiveRevisionsState : keeps consistent (getActiveRevisionsState revisions).
Proof. unfold getActiveRevisionsState. keeps_auto. Qed.

(** The promise that [_loadActiveRepositoryTemplateCommitMessage] returns is
    the one awaited next. *)
Lemma keeps_await_template {B} (k : option string -> M B) :
  (forall commitMessage, keeps consistent (k commitMessage)) ->
  keeps consistent
    (bind (_loadActiveRepositoryTemplateCommitMessage template)
          (fun promise => bind (await promise) k)).
Proof.
  intros Hk this Hthis. unfold bind at 1.
  assert (Hload :
    _loadActiveRepositoryTemplateCommitMessage template this
    = match _activeRepositoryStack this with
      | Some stack => (Normal template, this, [stack_getTemplateCommitMessage stack])
      | None =>
          (Throw (new_Error "Diff View: No active file or repository open"), this, [])
      end).
  { unfold _loadActiveRepositoryTemplateCommitMessage, bind, gets.
    by destruct (_activeRepositoryStack this). }
  rewrite Hload. destruct (_activeRepositoryStack this) as [stack |]; [| done].
  pose proof (keeps_bind consistent (await template) k (keeps_await _ _ calm_template) Hk
                this Hthis) as Hrest.
  by destruct (bind (await template) k this) as [[[b | e] this'] did].
Qed.

Lemma keeps__loadCommitModeState :
  keeps consistent (_loadCommitModeState template revisions).
Proof.
  unfold _loadCommitModeState, _loadActiveRepositoryLatestCommitMessage.
  pose proof keeps_getActiveRevisionsState.
  apply keeps_bind; [keeps_auto | intros _].
  apply keeps_bind; [| intros commitMessage; keeps_auto].
  apply keeps_try_catch; [| intros e; keeps_auto].
  apply keeps_bind; [keeps_auto | intros [|]].
  - apply keeps_await_template. intros commitMessage. keeps_auto.
  - keeps_auto; done.
Qed.

Lemma keeps__loadPublishModeState : keeps consistent (_loadPublishModeState revisions).
Proof.
  unfold _loadPublishModeState. pose proof keeps_getActiveRevisionsState.
  keeps_auto; done.
Qed.

Lemma keeps__loadModeState : keeps consistent (_loadModeState template revisions).
Proof.
  unfold _loadModeState.
  pose proof keeps__loadCommitModeState. pose proof keeps__loadPublishModeState.
  keeps_auto; done.
Qed.

Lemma keeps__updateChangedRevisions (repositoryStack : RepositoryStack)
    (revisionsState : RevisionsState) (reloadFileDiff : bool) :
  keeps consistent
    (_updateChangedRevisions repositoryStack revisionsState reloadFileDiff
       template revisions).
Proof.
  unfold _updateChangedRevisions, _onUpdateRevisionsState.
  pose proof keeps__loadModeState.
  apply keeps_bind; [keeps_auto | intros active].
  destruct (decide (Some repositoryStack = active)); keeps_auto; done.
Qed.

Lemma keeps_setViewMode (mode : DiffMode.t) :
  keeps consistent (setViewMode mode template revisions).
Proof.
  unfold setViewMode. apply keeps_bind; [keeps_auto | intros current].
  destruct (decide (mode = current)); [keeps_auto |].
  (* the state does not compare by the new mode until
     [_updateCompareChangedStatus] has run *)
  apply (hoare_bind _ stacks_match_subscriptions).
  { by intros this [_ Hmaps]. }
  intros _. apply (hoare_bind _ consistent).
  { apply _updateCompareChangedStatus_restores. }
  intros _. apply keeps__loadModeState.
Qed.

Lemma keeps_setCommitMode (mode : CommitMode.t) :
  keeps consistent (setCommitMode mode template revisions).
Proof.
  unfold setCommitMode. pose proof keeps__loadCommitModeState. keeps_auto; done.
Qed.

Lemma keeps_activateFile (filePath : string) (file : bool)
    (repository : option Repository) (cached : Awaited RevisionsState) :
  calm consistent cached ->
  keeps consistent (activateFile filePath file repository cached template revisions).
Proof.
  intros Hcached.
  unfold activateFile, _updateActiveDiffState, _fetchHgDiff, _setActiveRepositoryStack.
  pose proof keeps__updateChangedRevisions.
  apply keeps_bind; [keeps_auto | intros previous].
  apply keeps_bind; [keeps_auto | intros _].
  apply keeps_bind; [keeps_auto | intros id]. cbv zeta.
  apply keeps_bind; [keeps_auto | intros _].
  apply keeps_bind; [keeps_auto | intros _].
  apply keeps_bind; [keeps_auto | intros _].
  apply keeps_bind; [keeps_auto | intros _].
  apply keeps_bind; [| intros promise; keeps_auto].
  apply keeps_async_call.
  destruct (decide (filePath = EmptyString)); [keeps_auto |].
  destruct repository as [repository |]; [| keeps_auto].
  destruct (decide (getType repository = "hg")); [| keeps_auto].
  apply keeps_bind; [keeps_auto | intros stacks].
  apply keeps_bind; [keeps_auto | intros repositoryStack].
  apply keeps_bind; [keeps_auto | intros active].
  destruct (decide (active = Some repositoryStack)); keeps_auto; done.
Qed.

End KeepsConsistent.

Lemma keeps_setPublishMessage (message : string) :
  keeps consistent (setPublishMessage message).
Proof. unfold setPublishMessage. keeps_auto. Qed.

Lemma keeps_publishDiff (message : string) (timer : Awaited unit)
    (resolved : Interleaving) :
  calm consistent timer -> (forall this, consistent this -> consistent (resolved this)) ->
  keeps consistent (publishDiff message timer resolved).
Proof. intros Htimer Hresolved. unfold publishDiff. keeps_auto. Qed.

Lemma keeps_commit (message : string) (committed : Awaited unit) :
  calm consistent committed -> keeps consistent (commit message committed).
Proof. intros Hcommitted. unfold commit. keeps_auto. Qed.

Lemma keeps_activate (host : Host) : keeps consistent (activate host).
Proof. unfold activate. keeps_auto. Qed.

Lemma keeps_deactivate : keeps consistent deactivate.
Proof. unfold deactivate. keeps_auto. Qed.

Lemma keeps__updateDirtyChangedStatus (host : Host) :
  keeps consistent (_updateDirtyChangedStatus host).
Proof. unfold _updateDirtyChangedStatus. keeps_auto. Qed.

Lemma keeps__updateCommitMergeFileChanges (host : Host) :
  keeps consistent (_updateCommitMergeFileChanges host).
Proof. unfold _updateCommitMergeFileChanges. keeps_auto. Qed.

(** What a method keeps, the instance it leaves has. *)
Lemma keeps_leaves {A} (m : M A) (this : DiffViewModel) :
  keeps consistent m -> consistent this -> consistent (leaves m this).
Proof.
  intros Hm Hthis. unfold leaves. specialize (Hm this Hthis).
  by destruct (m this) as [[[a | e] this'] did].
Qed.

(** The constructor leaves a consistent instance. *)
Lemma constructor_consistent (host : Host) :
  consistent (leaves (constructor host) initial).
Proof.
  apply keeps_leaves.
  - unfold constructor. keeps_auto.
  - split; [reflexivity |]. split; [apply NoDup_nil_2 | reflexivity].
Qed.

(** Whatever happens to a consistent instance, it stays consistent. *)
Lemma run_consistent (activity : Activity) (this : DiffViewModel) :
  consistent this -> consistent (run activity this).
Proof.
  revert this. induction activity; intros this Hthis; cbn [run].
  - done.
  - by apply IHactivity2, IHactivity1.
  - by apply keeps_leaves; [apply keeps_setPublishMessage |].
  - by apply keeps_leaves; [apply keeps_setViewMode |].
  - by apply keeps_leaves; [apply keeps_setCommitMode |].
  - by apply keeps_leaves; [apply keeps_publishDiff |].
  - by apply keeps_leaves; [apply keeps_commit |].
  - by apply keeps_leaves; [apply keeps_activateFile |].
  - by apply keeps_leaves; [apply keeps_activate |].
  - by apply keeps_leaves; [apply keeps_deactivate |].
  - by apply keeps_leaves; [apply keeps_dispose |].
  - by apply keeps_leaves; [apply keeps__updateRepositories |].
  - by apply keeps_leaves; [apply keeps__updateDirtyChangedStatus |].
  - by apply keeps_leaves; [apply keeps__updateCommitMergeFileChanges |].
  - by apply keeps_leaves; [apply keeps__updateChangedRevisions |].
Qed.

(** Every instance that the constructor and any activity lead to has its two
    maps matching, which is what [_updateRepositories] starts from. *)
Lemma reachable_stacks_match_subscriptions (host : Host) (activity : Activity) :
  stacks_match_subscriptions (run activity (leaves (constructor host) initial)).
Proof. apply (run_consistent activity), constructor_consistent. Qed.

End DiffViewFacts.

(** C4, a failed commit is reported once and the method returns: when an
    active repository stack is set and the promise of its [commit] or
    [amend] is rejected, [commit(message)] asks the stack once, calls
    [atom.notifications.addError] once, leaves [commitModeState] at [READY]
    and ends without throwing. *)
Theorem commit_failure_notified_once
    (message : string) (committed : DiffView.Awaited unit)
    (this : DiffView.DiffViewModel)
    (activeStack : DiffView.RepositoryStack) (e : Error) :
  DiffView._activeRepositoryStack this = Some activeStack ->
  DiffView.settles committed = Rejected e ->
  let awaiting :=
    DiffView.with_state
      (DiffView.set_commitModeState DiffView.CommitModeState.AWAITING_COMMIT
         (DiffView.set_commitMessage (Some message) (DiffView._state this))) this in
  let resumed := DiffView.meanwhile committed awaiting in
  let asked :=
    match DiffView.commitMode (DiffView._state this) with
    | DiffView.CommitMode.COMMIT => DiffView.stack_commit activeStack message
    | DiffView.CommitMode.AMEND => DiffView.stack_amend activeStack message
    end in
  DiffView.commit message committed this
  = (Normal tt,
     DiffView.with_state
       (DiffView.set_commitModeState DiffView.CommitModeState.READY
          (DiffView._state resumed)) resumed,
     [ DiffView.emit DiffView.DID_UPDATE_STATE_EVENT;
       asked;
       DiffView.addError "Error creating commit" (DiffView.details e);
       DiffView.emit DiffView.DID_UPDATE_STATE_EVENT ]).
Proof.
  intros Hactive Hrejected. destruct this as [activeSubs stacks subs active isActive state objects].
  simpl in Hactive. subst active.
  unfold DiffView.commit, DiffView.call, DiffView.spread, DiffView._setState,
    DiffView.write_state, DiffView.try_catch, DiffView.bind, DiffView.gets,
    DiffView.modify, DiffView.perform, DiffView.invariant, DiffView.ret,
    DiffView.await.
  cbn. destruct (DiffView.commitMode state); cbn; rewrite Hrejected; reflexivity.
Qed.

Lemma commit_failure_notified_once_witness :
  let committed :=
    {| DiffView.settles :=
         Rejected {| message := "abort: nothing changed"; stdout := Some "nothing changed" |};
       DiffView.meanwhile := fun this => this |} in
  let stack :=
    {| DiffView.stack_id := 0;
       DiffView.stack_repository :=
         {| DiffView.repository_id := 7; DiffView.getType := "hg" |} |} in
  let this := DiffView.with_activeRepositoryStack (Some stack) DiffView.initial in
  DiffView._activeRepositoryStack this = Some stack /\
  (DiffView.commit "Fix typo" committed this).1.1 = Normal tt /\
  DiffView.commitModeState (DiffView._state (DiffView.commit "Fix typo" committed this).1.2)
  = DiffView.CommitModeState.READY /\
  (DiffView.commit "Fix typo" committed this).2
  = [ DiffView.emit "did-update-state";
      DiffView.stack_commit stack "Fix typo";
      DiffView.addError "Error creating commit" "Details: nothing changed";
      DiffView.emit "did-update-state" ].
Proof.
  intros committed stack this.
  pose proof (commit_failure_notified_once "Fix typo" committed this stack _
                eq_refl eq_refl) as Hcommit.
  cbv zeta in Hcommit. rewrite Hcommit. repeat split.
Defined.

(** C5, publishing always comes back to [READY]: [publishDiff(message)]
    first sets [publishModeState] to [AWAITING_PUBLISH] with the message, and
    whether the awaited step is fulfilled or rejected it ends by setting
    [publishModeState] to [READY] with the same message, without throwing. *)
Theorem publishDiff_returns_to_ready
    (message : string) (timer : DiffView.Awaited unit)
    (resolved : DiffView.Interleaving) (this : DiffView.DiffViewModel) :
  let awaiting :=
    DiffView.with_state
      (DiffView.set_publishModeState DiffView.PublishModeState.AWAITING_PUBLISH
         (DiffView.set_publishMessage (Some message) (DiffView._state this))) this in
  let resumed :=
    match DiffView.settles timer with
    | Fulfilled _ => resolved (DiffView.meanwhile timer awaiting)
    | Rejected _ => DiffView.meanwhile timer awaiting
    end in
  let left :=
    DiffView.with_state
      (DiffView.set_publishModeState DiffView.PublishModeState.READY
         (DiffView.set_publishMessage (Some message) (DiffView._state resumed)))
      resumed in
  DiffView.publishModeState (DiffView._state awaiting)
  = DiffView.PublishModeState.AWAITING_PUBLISH /\
  DiffView.publishMessage (DiffView._state awaiting) = Some message /\
  DiffView.publishDiff message timer resolved this
  = (Normal tt, left,
     [ DiffView.emit DiffView.DID_UPDATE_STATE_EVENT; DiffView.awaitMilliSeconds 5000 ]
     ++ match DiffView.settles timer with
        | Fulfilled _ => []
        | Rejected error => [ DiffView.notifyInternalError error ]
        end
     ++ [ DiffView.emit DiffView.DID_UPDATE_STATE_EVENT ]) /\
  DiffView.publishModeState (DiffView._state left) = DiffView.PublishModeState.READY /\
  DiffView.publishMessage (DiffView._state left) = Some message.
Proof.
  cbv zeta. split_and!; try reflexivity.
  unfold DiffView.publishDiff, DiffView.call, DiffView.spread, DiffView._setState,
    DiffView.write_state, DiffView.try_finally, DiffView.try_catch, DiffView.bind,
    DiffView.gets, DiffView.modify, DiffView.perform, DiffView.ret, DiffView.await.
  cbn. destruct (DiffView.settles timer) as [[] | error]; reflexivity.
Qed.

(** C6, create or update: with an active repository stack whose revisions
    are not empty, [_loadPublishModeState] takes the last revision as
    [headRevision]; when its description contains ['Differential Revision:']
    the publish mode is [UPDATE] and the publish message is empty, otherwise
    the mode is [CREATE] and the message is that description; either way
    [publishModeState] ends at [READY] and the method does not throw. *)
Theorem _loadPublishModeState_decides
    (revisions : DiffView.Awaited (option DiffView.RevisionsState))
    (this : DiffView.DiffViewModel)
    (activeStack : DiffView.RepositoryStack)
    (revisionsState : DiffView.RevisionsState) :
  DiffView._activeRepositoryStack this = Some activeStack ->
  DiffView.settles revisions = Fulfilled (Some revisionsState) ->
  DiffView.revisions revisionsState <> [] ->
  exists headRevision,
    last (DiffView.revisions revisionsState) = Some headRevision /\
    let headMessage := DiffView.description headRevision in
    let ended := DiffView._loadPublishModeState revisions this in
    let state := DiffView._state ended.1.2 in
    ended.1.1 = Normal tt /\
    DiffView.headRevision state = Some headRevision /\
    DiffView.publishModeState state = DiffView.PublishModeState.READY /\
    (DiffView.contains headMessage "Differential Revision:" ->
     DiffView.publishMode state = DiffView.PublishMode.UPDATE /\
     DiffView.publishMessage state = Some EmptyString) /\
    (~ DiffView.contains headMessage "Differential Revision:" ->
     DiffView.publishMode state = DiffView.PublishMode.CREATE /\
     DiffView.publishMessage state = Some headMessage).
Proof.
  intros Hactive Hsettles Hrevs.
  destruct (last (DiffView.revisions revisionsState)) as [headRevision |] eqn:Hlast;
    [| by apply last_None in Hlast].
  exists headRevision. split; [reflexivity |].
  assert (Hlen : (0 <? length (DiffView.revisions revisionsState))%nat = true).
  { apply Nat.ltb_lt. destruct (DiffView.revisions revisionsState); [done | simpl; lia]. }
  destruct this as [activeSubs stacks subs active isActive state objects].
  simpl in Hactive. subst active.
  unfold DiffView._loadPublishModeState, DiffView.getActiveRevisionsState,
    DiffView.call, DiffView.spread, DiffView._setState, DiffView.write_state,
    DiffView.bind, DiffView.gets, DiffView.modify, DiffView.perform, DiffView.ret,
    DiffView.await, DiffView.invariant_that.
  cbn -[last Nat.ltb indexOf]. rewrite Hsettles.
  cbn -[last Nat.ltb indexOf]. rewrite Hlen.
  cbn -[last Nat.ltb indexOf]. rewrite Hlast.
  cbn -[last Nat.ltb indexOf].
  pose proof (indexOf_contains (DiffView.description headRevision)
                "Differential Revision:") as Hcontains.
  destruct (indexOf (DiffView.description headRevision) "Differential Revision:" =? -1);
    cbn; split_and!; try reflexivity.
  - intros Hc. apply Hcontains in Hc. discriminate Hc.
  - done.
  - done.
  - intros Hnot. exfalso. apply Hnot, Hcontains. reflexivity.
Qed.

Lemma _loadPublishModeState_decides_witness :
  let revision d :=
    {| DiffView.hash := "a1b2c3"; DiffView.bookmarks := []; DiffView.description := d |} in
  let first := revision "Add the parser" in
  let head := revision "Fix the parser" in
  let revisionsState := {| DiffView.revisions := [first; head] |} in
  let revisions :=
    {| DiffView.settles := Fulfilled (Some revisionsState);
       DiffView.meanwhile := fun this => this |} in
  let stack :=
    {| DiffView.stack_id := 0;
       DiffView.stack_repository :=
         {| DiffView.repository_id := 7; DiffView.getType := "hg" |} |} in
  let this := DiffView.with_activeRepositoryStack (Some stack) DiffView.initial in
  DiffView._activeRepositoryStack this = Some stack /\
  DiffView.revisions revisionsState <> [] /\
  exists headRevision,
    last [first; head] = Some headRevision /\
    DiffView.headRevision
      (DiffView._state (DiffView._loadPublishModeState revisions this).1.2)
    = Some headRevision.
Proof.
  intros revision first head revisionsState revisions stack this.
  split; [reflexivity |]. split; [discriminate |].
  destruct (_loadPublishModeState_decides revisions this stack revisionsState
              eq_refl eq_refl ltac:(discriminate))
    as (headRevision & Hlast & _ & Hhead & _).
  exists headRevision. split; [exact Hlast | exact Hhead].
Defined.

(** C7, one stack per repository: from an instance whose two maps match,
    [_updateRepositories] returns, and afterwards the keys of
    [_repositoryStacks] are the repositories of type ['hg'] that the project
    reports, each once; the stack and the subscriptions of every repository
    that is gone were disposed and left the maps; one stack was made for
    every repository that is new and none for any other, and the stacks of
    the repositories that stay are the ones they had. *)
Theorem _updateRepositories_one_stack_per_repository
    (host : DiffView.Host) (this : DiffView.DiffViewModel) :
  DiffView.stacks_match_subscriptions this ->
  let reported r :=
    Some r ∈ DiffView.getRepositories host /\ DiffView.getType r = "hg" in
  let stacks := DiffView._repositoryStacks this in
  let subscriptions := DiffView._repositorySubscriptions this in
  exists this' done,
    DiffView._updateRepositories host this = (Normal tt, this', done) /\
    let stacks' := DiffView._repositoryStacks this' in
    let subscriptions' := DiffView._repositorySubscriptions this' in
    (forall r, r ∈ map_keys stacks' <-> reported r) /\
    NoDup (map_keys stacks') /\
    map_keys subscriptions' = map_keys stacks' /\
    (forall r stack,
       map_get stacks r = Some stack -> ~ reported r ->
       DiffView.stack_dispose stack ∈ done /\
       (exists d, map_get subscriptions r = Some d /\
                  DiffView.subscriptions_dispose d ∈ done) /\
       map_get stacks' r = None /\ map_get subscriptions' r = None) /\
    (forall r,
       reported r -> map_get stacks r = None ->
       DiffView.stacks_created r done = 1%nat /\ is_Some (map_get stacks' r)) /\
    (forall r,
       ~ (reported r /\ map_get stacks r = None) ->
       DiffView.stacks_created r done = 0%nat) /\
    (forall r stack,
       reported r -> map_get stacks r = Some stack -> map_get stacks' r = Some stack).
Proof.
  intros [Hnd Hkeys]. destruct this as [activeSubs stacks subs active isActive state objects].
  cbn [DiffView._repositoryStacks DiffView._repositorySubscriptions] in *. cbv zeta.
  destruct (_updateRepositories_run host activeSubs stacks subs active isActive state objects
              Hnd Hkeys)
    as (stacks' & subs' & state' & objects' & done & Hrun & _ & Hnd' & Hkeys' & Hdom
        & Hkept & Hdisposed & Hcreated).
  eexists _, done. split; [exact Hrun |].
  cbn [DiffView._repositoryStacks DiffView._repositorySubscriptions].
  assert (Hrep : forall r,
             r ∈ DiffView.hgRepositories host
             <-> Some r ∈ DiffView.getRepositories host /\ DiffView.getType r = "hg")
    by apply hgRepositories_spec.
  split_and!.
  - intros r. by rewrite Hdom.
  - done.
  - done.
  - intros r stack Hstack Hgone. rewrite <- Hrep in Hgone.
    destruct (Hdisposed r stack Hstack Hgone) as [Hin Hsubs].
    assert (Hout : r ∉ map_keys stacks') by (by rewrite Hdom).
    split_and!; [done | done | by apply map_get_None |].
    apply map_get_None. by rewrite Hkeys'.
  - intros r Hr Hnew. apply Hrep in Hr. apply map_get_None in Hnew.
    split.
    + rewrite Hcreated. by rewrite decide_True.
    + destruct (map_get_keys stacks' r) as [v Hv]; [by apply Hdom | by exists v].
  - intros r Hnot. rewrite Hcreated. rewrite decide_False; [done |].
    intros [Hr Hout]. apply Hnot. split; [by apply Hrep | by apply map_get_None].
  - intros r stack Hr Hstack. apply Hrep in Hr.
    destruct (Hkept r) as [-> _]; [by eapply map_get_Some_keys | done | done].
Qed.

Lemma _updateRepositories_one_stack_per_repository_witness :
  let hg := {| DiffView.repository_id := 1; DiffView.getType := "hg" |} in
  let git := {| DiffView.repository_id := 2; DiffView.getType := "git" |} in
  let host :=
    {| DiffView.getRepositories := [Some hg; None; Some git; Some hg];
       DiffView.getDirtyFileChanges := fun _ => ∅;
       DiffView.getCommitMergeFileChanges := fun _ => ∅;
       DiffView.union := fun _ => ∅ |} in
  DiffView.stacks_match_subscriptions DiffView.initial /\
  exists this' done,
    DiffView._updateRepositories host DiffView.initial = (Normal tt, this', done) /\
    DiffView.stacks_created hg done = 1%nat /\
    DiffView.stacks_created git done = 0%nat.
Proof.
  intros hg git host.
  assert (Hinitial : DiffView.stacks_match_subscriptions DiffView.initial).
  { split; [apply NoDup_nil_2 | reflexivity]. }
  split; [exact Hinitial |].
  destruct (_updateRepositories_one_stack_per_repository host DiffView.initial Hinitial)
    as (this' & done & Hrun & _ & _ & _ & _ & Hnew & Hold & _).
  exists this', done. split; [exact Hrun |]. split.
  - apply Hnew; [| reflexivity]. split; [| reflexivity]. apply elem_of_cons. by left.
  - apply Hold. intros [[_ Hhg] _]. discriminate Hhg.
Defined.

(** A run of the model: in commit mode the comparison follows the dirty
    files that the stacks report. *)
Example commit_mode_compares_dirty :
  let hg := {| DiffView.repository_id := 1; DiffView.getType := "hg" |} in
  let host changes :=
    {| DiffView.getRepositories := [Some hg];
       DiffView.getDirtyFileChanges := fun _ => changes;
       DiffView.getCommitMergeFileChanges := fun _ => ∅;
       DiffView.union := fun maps => foldr (fun m acc => m ∪ acc) ∅ maps |} in
  let activity :=
    DiffView.after
      (DiffView.call_setViewMode DiffView.DiffMode.COMMIT_MODE
         (Fulfilled None) DiffView.idle (Fulfilled None) DiffView.idle)
      (DiffView.on_updateDirtyFileChanges (host {["/a.js" := 1%nat]})) in
  let this := DiffView.run activity (DiffView.leaves (DiffView.constructor (host ∅))
                                       DiffView.initial) in
  DiffView.compareFileChanges (DiffView._state this) = {["/a.js" := 1%nat]} /\
  DiffView.commitMergeFileChanges (DiffView._state this) = ∅ /\
  map_keys (DiffView._repositoryStacks this) = [hg].
Proof. vm_compute. repeat split. Qed.

(** C3, the comparison follows the view mode: in every instance that the
    constructor and any calls of the public methods and callbacks lead to,
    with any activity while a method awaits, [compareFileChanges] is
    [dirtyFileChanges] when [viewMode] is [COMMIT_MODE] and
    [commitMergeFileChanges] in every other mode. *)
Theorem compareFileChanges_follows_viewMode
    (host : DiffView.Host) (activity : DiffView.Activity) :
  let this :=
    DiffView.run activity (DiffView.leaves (DiffView.constructor host) DiffView.initial) in
  let state := DiffView._state this in
  DiffView.compareFileChanges state
  = if decide (DiffView.viewMode state = DiffView.DiffMode.COMMIT_MODE)
    then DiffView.dirtyFileChanges state
    else DiffView.commitMergeFileChanges state.
Proof.
  cbv zeta. apply (run_consistent activity), constructor_consistent.
Qed.

(** A run of [_updateRepositories]: the project had one Mercurial
    repository and now reports another; the stack of the first goes, the
    second gets one. *)
Example _updateRepositories_replaces_stack :
  let old := {| DiffView.repository_id := 1; DiffView.getType := "hg" |} in
  let new := {| DiffView.repository_id := 2; DiffView.getType := "hg" |} in
  let host repositories :=
    {| DiffView.getRepositories := repositories;
       DiffView.getDirtyFileChanges := fun _ => ∅;
       DiffView.getCommitMergeFileChanges := fun _ => ∅;
       DiffView.union := fun _ => ∅ |} in
  let before :=
    DiffView.leaves (DiffView.constructor (host [Some old])) DiffView.initial in
  let oldStack := {| DiffView.stack_id := 0; DiffView.stack_repository := old |} in
  let newStack := {| DiffView.stack_id := 2; DiffView.stack_repository := new |} in
  let ended := DiffView._updateRepositories (host [Some new; None]) before in
  DiffView._repositoryStacks before = [(old, oldStack)] /\
  ended.1.1 = Normal tt /\
  DiffView._repositoryStacks ended.1.2 = [(new, newStack)] /\
  DiffView._repositorySubscriptions ended.1.2 = [(new, {| DiffView.disposable_id := 3 |})] /\
  ended.2
  = [ DiffView.stack_dispose oldStack;
      DiffView.subscriptions_dispose {| DiffView.disposable_id := 1 |};
      DiffView.new_RepositoryStack newStack;
      DiffView.stack_subscribe newStack "did-update-dirty-file-changes"
        {| DiffView.disposable_id := 3 |};
      DiffView.stack_subscribe newStack "did-update-commit-merge-file-changes"
        {| DiffView.disposable_id := 3 |};
      DiffView.stack_subscribe newStack "did-change-revisions"
        {| DiffView.disposable_id := 3 |};
      DiffView.emit "did-update-state" ].
Proof. vm_compute. repeat split. Qed.

(** * Further properties of the diff view model *)

Section ConvertNewlines.
Import DiffView.

(** [convertNewlines] one character at a time. *)
Lemma convertNewlines_cons (c : ascii) (rest : string) :
  convertNewlines (String c rest)
  = match rest with
    | String a rest' =>
        if Ascii.eqb c "\" && Ascii.eqb a "n"
        then String (ascii_of_nat 10) (convertNewlines rest')
        else String c (convertNewlines rest)
    | EmptyString => String c EmptyString
    end.
Proof.
  destruct rest as [| a rest'].
  - destruct c as [[] [] [] [] [] [] [] []]; reflexivity.
  - destruct (Ascii.eqb c "\") eqn:Hc.
    + apply Ascii.eqb_eq in Hc as ->.
      destruct a as [[] [] [] [] [] [] [] []]; reflexivity.
    + destruct c as [[] [] [] [] [] [] [] []]; first [discriminate Hc | reflexivity].
Qed.

(** A converted string starts with [n] only if the message did. *)
Lemma convertNewlines_head (a : ascii) (m t : string) :
  convertNewlines (String a m) = String "n" t -> a = "n"%char.
Proof.
  rewrite convertNewlines_cons. destruct m as [| b m'].
  - by intros [= ->].
  - destruct (Ascii.eqb a "\" && Ascii.eqb b "n"); [discriminate | by intros [= ->]].
Qed.

Lemma contains_backslash_n (c : ascii) (h : string) :
  contains (String c h) "\n"
  <-> (c = "\"%char /\ exists t, h = String "n" t) \/ contains h "\n".
Proof.
  rewrite contains_cons, prefix_app. split.
  - intros [[behind Heq] | ?]; [left | by right].
    rewrite !append_String in Heq. injection Heq as -> ->. split; [done | by eexists].
  - intros [[-> [t ->]] | ?]; [left | by right]. by exists t.
Qed.

Lemma convertNewlines_clean (m : string) :
  ~ contains (convertNewlines m) "\n"
  /\ forall c, ~ contains (convertNewlines (String c m)) "\n".
Proof.
  induction m as [| a m [IHm IHcons]].
  - split.
    + intros ([| ? ?] & behind & Heq); discriminate Heq.
    + intros c. rewrite convertNewlines_cons, contains_backslash_n.
      intros [[_ [t Ht]] | ([| ? ?] & behind & Heq)]; discriminate.
  - split; [apply IHcons |]. intros c. rewrite convertNewlines_cons.
    destruct (Ascii.eqb c "\" && Ascii.eqb a "n") eqn:Hpair.
    + rewrite contains_backslash_n. intros [[Hlf _] | Hin]; [discriminate Hlf | done].
    + rewrite contains_backslash_n. intros [[-> [t Ht]] | Hin]; [| by apply (IHcons a)].
      apply convertNewlines_head in Ht as ->. discriminate Hpair.
Qed.

(** A message without a backslash followed by [n] is left as it is. *)
Lemma convertNewlines_unchanged (m : string) :
  (~ contains m "\n" -> convertNewlines m = m)
  /\ forall c, ~ contains (String c m) "\n" -> convertNewlines (String c m) = String c m.
Proof.
  induction m as [| a m [IHm IHcons]].
  - split; [done |]. intros c _. by rewrite convertNewlines_cons.
  - split; [apply IHcons |]. intros c Hclean. rewrite convertNewlines_cons.
    rewrite contains_backslash_n in Hclean.
    destruct (Ascii.eqb c "\" && Ascii.eqb a "n") eqn:Hpair.
    + apply andb_true_iff in Hpair as [->%Ascii.eqb_eq ->%Ascii.eqb_eq].
      exfalso. apply Hclean. left. split; [done | by eexists].
    + f_equal. apply IHcons. tauto.
Qed.

End ConvertNewlines.

(** X1, [convertNewlines] converts every newline string: the result holds no
    backslash followed by [n], so converting it again changes nothing. *)
Theorem convertNewlines_converts_all (message : string) :
  ~ DiffView.contains (DiffView.convertNewlines message) "\n" /\
  DiffView.convertNewlines (DiffView.convertNewlines message)
  = DiffView.convertNewlines message.
Proof.
  pose proof (proj1 (convertNewlines_clean message)) as Hclean.
  split; [exact Hclean |]. by apply convertNewlines_unchanged.
Qed.

(** Unfolds the computations of the model down to pairs. *)
Ltac run_model :=
  unfold DiffView.call, DiffView.spread, DiffView._setState, DiffView.write_state,
    DiffView.write_activeRepositoryStack, DiffView.write_isActive,
    DiffView.write_activeSubscriptions, DiffView.new_object,
    DiffView.try_catch, DiffView.try_finally, DiffView.async_call, DiffView.catch,
    DiffView.bind, DiffView.gets, DiffView.modify, DiffView.perform,
    DiffView.invariant, DiffView.invariant_that, DiffView.ret, DiffView.throw,
    DiffView.await.

(** X2, loading the commit message always comes back to [READY]: whatever
    the repository stack answers and whatever happens while the method
    waits, [_loadCommitModeState] does not throw and leaves
    [commitModeState] at [READY]. *)
Theorem _loadCommitModeState_ends_ready
    (template : DiffView.Awaited (option string))
    (revisions : DiffView.Awaited (option DiffView.RevisionsState))
    (this : DiffView.DiffViewModel) :
  let ended := DiffView._loadCommitModeState template revisions this in
  ended.1.1 = Normal tt /\
  DiffView.commitModeState (DiffView._state ended.1.2) = DiffView.CommitModeState.READY.
Proof.
  destruct this as [activeSubs stacks subs active isActive state objects].
  unfold DiffView._loadCommitModeState, DiffView._loadActiveRepositoryTemplateCommitMessage,
    DiffView._loadActiveRepositoryLatestCommitMessage, DiffView.getActiveRevisionsState.
  run_model. cbn -[last Nat.ltb].
  destruct (DiffView.commitMode state), active as [stack |]; cbn -[last Nat.ltb];
    try (split; reflexivity).
  - destruct (DiffView.settles template) as [[t |] | e]; split; reflexivity.
  - destruct (DiffView.settles revisions) as [[rs |] | e]; cbn -[last Nat.ltb];
      try (split; reflexivity).
    destruct (0 <? length (DiffView.revisions rs))%nat; cbn -[last Nat.ltb];
      [| split; reflexivity].
    destruct (last (DiffView.revisions rs)); split; reflexivity.
Qed.

(** X3, which commit message is loaded: in commit mode it is the template of
    the active stack with its newline strings converted, or none when the
    stack has none; in amend mode it is the description of the last
    revision.  When there is no active stack, the promise is rejected, the
    revisions are missing or empty, the message is left undefined and the
    error is reported through [notifyInternalError], once. *)
Theorem _loadCommitModeState_message
    (template : DiffView.Awaited (option string))
    (revisions : DiffView.Awaited (option DiffView.RevisionsState))
    (this : DiffView.DiffViewModel) :
  let ended := DiffView._loadCommitModeState template revisions this in
  (DiffView.commitMessage (DiffView._state ended.1.2),
   DiffViewLog.internal_errors ended.2)
  = match DiffView._activeRepositoryStack this with
    | None => (None, [new_Error "Diff View: No active file or repository open"])
    | Some _ =>
        match DiffView.commitMode (DiffView._state this) with
        | DiffView.CommitMode.COMMIT =>
            match DiffView.settles template with
            | Fulfilled message => (DiffView.convertNewlines <$> message, [])
            | Rejected e => (None, [e])
            end
        | DiffView.CommitMode.AMEND =>
            match DiffView.settles revisions with
            | Fulfilled (Some revisionsState) =>
                match last (DiffView.revisions revisionsState) with
                | Some revision => (Some (DiffView.description revision), [])
                | None =>
                    (None,
                     [new_Error "Diff View Error: Cannot amend non-existing commit"])
                end
            | Fulfilled None =>
                (None,
                 [new_Error "Diff View Internal Error: revisionsState cannot be null"])
            | Rejected e => (None, [e])
            end
        end
    end.
Proof.
  destruct this as [activeSubs stacks subs active isActive state objects].
  unfold DiffView._loadCommitModeState, DiffView._loadActiveRepositoryTemplateCommitMessage,
    DiffView._loadActiveRepositoryLatestCommitMessage, DiffView.getActiveRevisionsState.
  run_model. cbn -[last Nat.ltb DiffView.convertNewlines].
  destruct (DiffView.commitMode state), active as [stack |];
    cbn -[last Nat.ltb DiffView.convertNewlines]; try reflexivity.
  - destruct (DiffView.settles template) as [[t |] | e]; reflexivity.
  - destruct (DiffView.settles revisions) as [[[revs] |] | e];
      cbn -[last Nat.ltb DiffView.convertNewlines]; try reflexivity.
    destruct revs as [| r revs]; [reflexivity |].
    change (0 <? length (r :: revs))%nat with true.
    cbn -[last DiffView.convertNewlines].
    destruct (last (r :: revs)) eqn:Hlast; [reflexivity |].
    by apply last_None in Hlast.
Qed.

Section UpdateRepositoriesAgain.
Import DiffView.

(** The first loop does nothing when every repository with a stack is
    still reported. *)
Lemma dispose_removed_loop_nothing (repositories : JsSet Repository)
    (entries : list (Repository * RepositoryStack)) (this : DiffViewModel) :
  (forall r, r ∈ entries.*1 -> r ∈ repositories) ->
  for_each entries (dispose_removed repositories) this = (Normal tt, this, []).
Proof.
  induction entries as [| [k v] entries IH]; intros Hall; [done |].
  rewrite for_each_cons. unfold bind, dispose_removed at 1.
  assert (Hk : set_has repositories k = true).
  { apply set_has_true, Hall. rewrite fmap_cons. apply elem_of_cons. by left. }
  rewrite Hk. unfold ret at 1. rewrite IH; [done |].
  intros r Hr. apply Hall. rewrite fmap_cons. apply elem_of_cons. by right.
Qed.

(** The second loop does nothing when every reported repository has its
    stack. *)
Lemma create_added_loop_nothing (repositories : list Repository)
    (this : DiffViewModel) :
  (forall r, r ∈ repositories -> r ∈ map_keys (_repositoryStacks this)) ->
  for_each repositories create_added this = (Normal tt, this, []).
Proof.
  induction repositories as [| k repositories IH]; intros Hall; [done |].
  rewrite for_each_cons. unfold bind, create_added at 1, bind, gets.
  assert (Hk : map_has (_repositoryStacks this) k = true).
  { apply map_has_true, Hall, elem_of_cons. by left. }
  rewrite Hk. unfold ret at 1. rewrite IH; [done |].
  intros r Hr. apply Hall, elem_of_cons. by right.
Qed.

(** [_updateRepositories] on an instance that has the stacks of the reported
    repositories and no others. *)
Lemma _updateRepositories_settled (host : Host) (this : DiffViewModel) :
  (forall r, r ∈ map_keys (_repositoryStacks this) <-> r ∈ hgRepositories host) ->
  _updateRepositories host this = _updateDirtyChangedStatus host this.
Proof.
  intros Hkeys. rewrite _updateRepositories_loops. cbv zeta.
  destruct (set_from_spec (hgRepositories host)) as [_ Hset].
  unfold bind at 1, gets at 1. unfold bind at 1.
  rewrite dispose_removed_loop_nothing.
  2: { intros r Hr. apply Hset, Hkeys. exact Hr. }
  unfold bind at 1. rewrite create_added_loop_nothing.
  2: { intros r Hr. apply Hkeys, Hset. exact Hr. }
  by destruct (_updateDirtyChangedStatus host this) as [[r this'] did].
Qed.

End UpdateRepositoriesAgain.

(** X4, a second [_updateRepositories] finds nothing to do: when the project
    reports the same repositories again, the call disposes nothing, makes no
    stack and emits the one state update of [_updateDirtyChangedStatus]; it
    leaves the maps and every other field as the first call left them, and
    writes to the state only the dirty file changes that the stacks now
    answer and what is compared with them.  When the stacks answer as they
    did, the instance is left as the first call left it. *)
Theorem _updateRepositories_twice
    (host host' : DiffView.Host) (this : DiffView.DiffViewModel) :
  DiffView.stacks_match_subscriptions this ->
  DiffView.getRepositories host' = DiffView.getRepositories host ->
  let first := (DiffView._updateRepositories host this).1.2 in
  let second := DiffView._updateRepositories host' first in
  let dirty :=
    DiffView.union host'
      (map (DiffView.getDirtyFileChanges host')
           (map_values (DiffView._repositoryStacks first))) in
  second.1.1 = Normal tt /\
  second.2 = [DiffView.emit DiffView.DID_UPDATE_STATE_EVENT] /\
  second.1.2
  = DiffView.with_state
      (DiffView.set_fileChanges dirty
         (DiffView.commitMergeFileChanges (DiffView._state first))
         (if decide (DiffView.viewMode (DiffView._state first)
                     = DiffView.DiffMode.COMMIT_MODE)
          then dirty else DiffView.commitMergeFileChanges (DiffView._state first))
         (DiffView._state first))
      first /\
  ((forall stack, DiffView.getDirtyFileChanges host' stack
                  = DiffView.getDirtyFileChanges host stack) ->
   (forall maps, DiffView.union host' maps = DiffView.union host maps) ->
   second.1.2 = first).
Proof.
  intros [Hnd Hkeys] Hsame.
  destruct this as [activeSubs stacks subs active isActive state objects].
  cbn [DiffView._repositoryStacks DiffView._repositorySubscriptions] in *. cbv zeta.
  destruct (_updateRepositories_run host activeSubs stacks subs active isActive state objects
              Hnd Hkeys)
    as (stacks' & subs' & state' & objects' & done & Hrun & Hstate & _ & _ & Hdom & _).
  assert (Hhg : DiffView.hgRepositories host' = DiffView.hgRepositories host).
  { unfold DiffView.hgRepositories. by rewrite Hsame. }
  (* the state that the first call wrote *)
  assert (Hstate' :
    let dirty := DiffView.union host
                   (map (DiffView.getDirtyFileChanges host) (map_values stacks')) in
    state' = DiffView.set_fileChanges dirty (DiffView.commitMergeFileChanges state)
               (if decide (DiffView.viewMode state = DiffView.DiffMode.COMMIT_MODE)
                then dirty else DiffView.commitMergeFileChanges state)
               state).
  { revert Hrun. rewrite _updateRepositories_loops. cbv zeta.
    unfold DiffView.bind at 1, DiffView.gets at 1.
    cbn [DiffView._repositoryStacks].
    destruct (dispose_removed_loop (set_from (DiffView.hgRepositories host)) stacks
                activeSubs stacks subs active isActive state objects Hnd Hkeys Hnd ltac:(done))
      as (stacks1 & subs1 & done1 & Hrun1 & Hnd1 & Hkeys1 & _).
    unfold DiffView.bind at 1. rewrite Hrun1.
    destruct (create_added_loop (set_from (DiffView.hgRepositories host))
                activeSubs stacks1 subs1 active isActive state objects Hnd1 Hkeys1
                (proj1 (set_from_spec _)))
      as (stacks2 & subs2 & objects2 & done2 & Hrun2 & _).
    unfold DiffView.bind at 1. rewrite Hrun2.
    unfold DiffView._updateDirtyChangedStatus, DiffView.bind at 1, DiffView.gets at 1.
    cbn [DiffView._repositoryStacks].
    rewrite _updateCompareChangedStatus_run. cbv zeta. cbn [default].
    by intros [= <- <- <- <- <-]. }
  rewrite Hrun. cbn [fst snd].
  rewrite _updateRepositories_settled by (by rewrite Hhg).
  unfold DiffView._updateDirtyChangedStatus, DiffView.bind, DiffView.gets.
  cbn [DiffView._repositoryStacks].
  rewrite _updateCompareChangedStatus_run. cbv zeta. cbn [default fst snd].
  split_and!; try reflexivity.
  intros Hdirty Hunion. cbv zeta in Hstate'. rewrite Hunion.
  rewrite (map_ext _ _ Hdirty). subst state'. reflexivity.
Qed.

Lemma _updateRepositories_twice_witness :
  let hg := {| DiffView.repository_id := 1; DiffView.getType := "hg" |} in
  let host :=
    {| DiffView.getRepositories := [Some hg; None; Some hg];
       DiffView.getDirtyFileChanges := fun _ => ∅;
       DiffView.getCommitMergeFileChanges := fun _ => ∅;
       DiffView.union := fun _ => ∅ |} in
  let host' :=
    {| DiffView.getRepositories := [Some hg; None; Some hg];
       DiffView.getDirtyFileChanges := fun _ => {[ "a.js" := 1%nat ]};
       DiffView.getCommitMergeFileChanges := fun _ => ∅;
       DiffView.union := fun maps => default ∅ (head maps) |} in
  let first := (DiffView._updateRepositories host DiffView.initial).1.2 in
  DiffView.stacks_match_subscriptions DiffView.initial /\
  (DiffView._updateRepositories host' first).2 = [DiffView.emit "did-update-state"] /\
  DiffView._repositoryStacks (DiffView._updateRepositories host' first).1.2
  = DiffView._repositoryStacks first /\
  (DiffView._updateRepositories host first).1.2 = first.
Proof.
  intros hg host host' first.
  assert (Hinitial : DiffView.stacks_match_subscriptions DiffView.initial).
  { split; [apply NoDup_nil_2 | reflexivity]. }
  split; [exact Hinitial |].
  pose proof (_updateRepositories_twice host host' DiffView.initial Hinitial eq_refl)
    as (_ & Hdone & Hleft & _).
  pose proof (_updateRepositories_twice host host DiffView.initial Hinitial eq_refl)
    as (_ & _ & _ & Hagain).
  cbv zeta in *. split_and!.
  - exact Hdone.
  - unfold first. by rewrite Hleft.
  - apply Hagain; reflexivity.
Defined.

(** X5, the assertion in [_updateRepositories] holds: in every instance that
    the constructor and any later activity lead to, [_updateRepositories]
    returns; [invariant(subscriptions)] does not throw, because every
    repository with a stack has its subscriptions. *)
Theorem _updateRepositories_never_throws
    (constructed : DiffView.Host) (activity : DiffView.Activity) (host : DiffView.Host) :
  let this :=
    DiffView.run activity
      (DiffView.leaves (DiffView.constructor constructed) DiffView.initial) in
  (DiffView._updateRepositories host this).1.1 = Normal tt.
Proof.
  cbv zeta.
  pose proof (reachable_stacks_match_subscriptions constructed activity) as [Hnd Hkeys].
  destruct (DiffView.run activity _) as [activeSubs stacks subs active isActive state objects].
  cbn [DiffView._repositoryStacks DiffView._repositorySubscriptions] in *.
  destruct (_updateRepositories_run host activeSubs stacks subs active isActive state objects
              Hnd Hkeys)
    as (stacks' & subs' & state' & objects' & done & -> & _).
  reflexivity.
Qed.

Section Activation.
Import DiffView DiffViewLog.

Lemma activated_app (done done' : list Effect) :
  activated (done ++ done') = activated done ++ activated done'.
Proof. apply omap_app. Qed.

(** What a sequence did is what its first part did and then, if that
    returned, what the rest did. *)
Lemma bind_run {A B} (m : M A) (k : A -> M B) (this : DiffViewModel) :
  bind m k this
  = match m this with
    | (Normal a, this', done) =>
        ((k a this').1.1, (k a this').1.2, done ++ (k a this').2)
    | (Throw e, this', done) => (Throw e, this', done)
    end.
Proof.
  unfold bind. destruct (m this) as [[[a | e] this'] did]; [| done].
  by destruct (k a this') as [[r this''] did'].
Qed.

Lemma dispose_removed_quiet (repositories : JsSet Repository)
    (entry : Repository * RepositoryStack) (this : DiffViewModel) :
  let ended := dispose_removed repositories entry this in
  activated ended.2 = [] /\ _isActive ended.1.2 = _isActive this.
Proof.
  destruct entry as [k v], this as [activeSubs stacks subs active isActive state objects].
  unfold dispose_removed. destruct (set_has repositories k); [done |].
  unfold bind, perform, gets, write_repositoryStacks, write_repositorySubscriptions,
    modify, invariant, ret, throw.
  cbn. by destruct (map_get subs k).
Qed.

Lemma dispose_removed_loop_quiet (repositories : JsSet Repository)
    (entries : list (Repository * RepositoryStack)) (this : DiffViewModel) :
  let ended := for_each entries (dispose_removed repositories) this in
  activated ended.2 = [] /\ _isActive ended.1.2 = _isActive this.
Proof.
  revert this. induction entries as [| entry entries IH]; intros this; [done |].
  rewrite for_each_cons, bind_run.
  destruct (dispose_removed_quiet repositories entry this) as [Hnone Hactive].
  destruct (dispose_removed repositories entry this) as [[[[] | e] this'] did];
    cbn [fst snd] in *; [| done].
  destruct (IH this') as [Hnone' Hactive']. cbn [fst snd].
  rewrite activated_app, Hnone, Hnone', Hactive', Hactive. done.
Qed.

Lemma create_added_quiet (repository : Repository) (this : DiffViewModel) :
  _isActive this = false ->
  let ended := create_added repository this in
  activated ended.2 = [] /\ _isActive ended.1.2 = false.
Proof.
  destruct this as [activeSubs stacks subs active isActive state objects]. cbn [_isActive].
  intros ->. rewrite create_added_run. cbv zeta.
  destruct (map_has stacks repository); [done |].
  by rewrite _createRepositoryStack_run.
Qed.

Lemma create_added_loop_quiet (repositories : list Repository) (this : DiffViewModel) :
  _isActive this = false ->
  let ended := for_each repositories create_added this in
  activated ended.2 = [] /\ _isActive ended.1.2 = false.
Proof.
  revert this. induction repositories as [| k repositories IH]; intros this Hoff; [done |].
  rewrite for_each_cons, bind_run.
  destruct (create_added_quiet k this Hoff) as [Hnone Hactive].
  destruct (create_added k this) as [[[[] | e] this'] did]; cbn [fst snd] in *; [| done].
  destruct (IH this' Hactive) as [Hnone' Hactive']. cbn [fst snd].
  by rewrite activated_app, Hnone, Hnone'.
Qed.

(** While the instance is not active, [_updateRepositories] activates no
    stack. *)
Lemma _updateRepositories_quiet (host : Host) (this : DiffViewModel) :
  _isActive this = false ->
  activated (_updateRepositories host this).2 = [].
Proof.
  intros Hoff. rewrite _updateRepositories_loops. cbv zeta.
  rewrite bind_run. unfold gets at 1. cbn [fst snd app].
  rewrite bind_run.
  destruct (dispose_removed_loop_quiet (set_from (hgRepositories host))
              (_repositoryStacks this) this) as [Hnone1 Hactive1].
  destruct (for_each (_repositoryStacks this) _ this) as [[[[] | e] this1] did1];
    cbn [fst snd] in *; [| done].
  rewrite bind_run.
  destruct (create_added_loop_quiet (set_from (hgRepositories host)) this1)
    as [Hnone2 Hactive2]; [by rewrite Hactive1 |].
  destruct (for_each (set_from (hgRepositories host)) create_added this1)
    as [[[[] | e] this2] did2]; cbn [fst snd] in *.
  - rewrite !activated_app, Hnone1, Hnone2.
    unfold _updateDirtyChangedStatus. rewrite bind_run. unfold gets at 1. cbn [fst snd app].
    by rewrite _updateCompareChangedStatus_run.
  - by rewrite activated_app, Hnone1, Hnone2.
Qed.

(** [activate], given what [_updateRepositories] did. *)
Lemma activate_run (host : Host) (this : DiffViewModel) :
  activate host this
  = match _updateRepositories host this with
    | (Normal _, this', did) =>
        (Normal tt, with_isActive true this',
         did ++ map stack_activate (map_values (_repositoryStacks this')))
    | (Throw e, this', did) => (Throw e, this', did)
    end.
Proof.
  unfold activate, bind at 1.
  destruct (_updateRepositories host this) as [[[[] | e] this'] did]; [| done].
  unfold bind, write_isActive, modify, gets. by rewrite for_each_perform.
Qed.

Lemma activated_activate (stacks : list RepositoryStack) :
  activated (map stack_activate stacks) = stacks.
Proof.
  induction stacks as [| s l IH]; [done |].
  change (s :: activated (map stack_activate l) = s :: l). by rewrite IH.
Qed.

End Activation.

(** X6, [activate] reaches every stack once: on an instance that is not
    active and whose maps match, [activate] returns, sets [_isActive], and
    asks each stack that [_repositoryStacks] then holds to activate, once
    each and in the order of the map; those are the stacks of the reported
    repositories of type ['hg']. *)
Theorem activate_activates_each_stack_once
    (host : DiffView.Host) (this : DiffView.DiffViewModel) :
  DiffView.stacks_match_subscriptions this ->
  DiffView._isActive this = false ->
  let ended := DiffView.activate host this in
  ended.1.1 = Normal tt /\
  DiffView._isActive ended.1.2 = true /\
  DiffViewLog.activated ended.2 = map_values (DiffView._repositoryStacks ended.1.2) /\
  forall r, r ∈ map_keys (DiffView._repositoryStacks ended.1.2)
            <-> Some r ∈ DiffView.getRepositories host /\ DiffView.getType r = "hg".
Proof.
  intros [Hnd Hkeys] Hoff. cbv zeta.
  pose proof (_updateRepositories_quiet host this Hoff) as Hquiet.
  destruct this as [activeSubs stacks subs active isActive state objects].
  cbn [DiffView._repositoryStacks DiffView._repositorySubscriptions] in *.
  destruct (_updateRepositories_run host activeSubs stacks subs active isActive state objects
              Hnd Hkeys)
    as (stacks' & subs' & state' & objects' & did & Hrun & _ & _ & _ & Hdom & _).
  rewrite activate_run, Hrun. rewrite Hrun in Hquiet. cbn [fst snd] in *.
  split_and!; try reflexivity.
  - by rewrite activated_app, Hquiet, activated_activate.
  - intros r. cbn. by rewrite Hdom, hgRepositories_spec.
Qed.

Lemma activate_activates_each_stack_once_witness :
  let hg := {| DiffView.repository_id := 1; DiffView.getType := "hg" |} in
  let host :=
    {| DiffView.getRepositories := [Some hg];
       DiffView.getDirtyFileChanges := fun _ => ∅;
       DiffView.getCommitMergeFileChanges := fun _ => ∅;
       DiffView.union := fun _ => ∅ |} in
  let ended := DiffView.activate host DiffView.initial in
  DiffView.stacks_match_subscriptions DiffView.initial /\
  DiffView._isActive DiffView.initial = false /\
  DiffView._isActive ended.1.2 = true /\
  DiffViewLog.activated ended.2 = map_values (DiffView._repositoryStacks ended.1.2).
Proof.
  intros hg host ended.
  assert (Hinitial : DiffView.stacks_match_subscriptions DiffView.initial).
  { split; [apply NoDup_nil_2 | reflexivity]. }
  destruct (activate_activates_each_stack_once host DiffView.initial Hinitial eq_refl)
    as (_ & Hactive & Hactivated & _).
  split; [exact Hinitial |]. split; [reflexivity |]. split; [exact Hactive | exact Hactivated].
Defined.

(** X7, [dispose] lets go of everything: it returns; it disposes the
    instance's own subscriptions, then every stack and then every set of
    subscriptions that the maps hold, once each and in the order of the
    maps, then the subscriptions of the active file when there are some; it
    leaves both maps empty and no subscriptions of an active file, and the
    state, the active stack and [_isActive] as they were. *)
Theorem dispose_disposes_everything (this : DiffView.DiffViewModel) :
  let ended := DiffView.dispose this in
  ended.1.1 = Normal tt /\
  ended.2
  = [DiffView._subscriptions_dispose]
    ++ map DiffView.stack_dispose (map_values (DiffView._repositoryStacks this))
    ++ map DiffView.subscriptions_dispose
         (map_values (DiffView._repositorySubscriptions this))
    ++ match DiffView._activeSubscriptions this with
       | Some subscriptions => [DiffView.subscriptions_dispose subscriptions]
       | None => []
       end /\
  DiffView._repositoryStacks ended.1.2 = map_new /\
  DiffView._repositorySubscriptions ended.1.2 = map_new /\
  DiffView._activeSubscriptions ended.1.2 = None /\
  DiffView._activeRepositoryStack ended.1.2 = DiffView._activeRepositoryStack this /\
  DiffView._isActive ended.1.2 = DiffView._isActive this /\
  DiffView._state ended.1.2 = DiffView._state this.
Proof.
  cbv zeta. rewrite dispose_run. cbn [fst snd].
  split; [done |]. split; [done |].
  destruct this as [activeSubs stacks subs active isActive state objects].
  by split_and!.
Qed.

(** X8, a deactivated model ignores revision updates: after [deactivate]
    there is no active stack and the model is not active, and a change of
    revisions reported by any stack changes nothing and does nothing. *)
Theorem deactivate_ignores_revisions
    (this : DiffView.DiffViewModel)
    (repositoryStack : DiffView.RepositoryStack)
    (revisionsState : DiffView.RevisionsState) (reloadFileDiff : bool)
    (template : DiffView.Awaited (option string))
    (revisions : DiffView.Awaited (option DiffView.RevisionsState)) :
  let off := DiffView.leaves DiffView.deactivate this in
  DiffView._isActive off = false /\
  DiffView._activeRepositoryStack off = None /\
  DiffView._updateChangedRevisions repositoryStack revisionsState reloadFileDiff
    template revisions off
  = (Normal tt, off, []).
Proof.
  destruct this as [activeSubs stacks subs [active |] isActive state objects]; repeat split.
Qed.

(** X9, [activateFile] reports what it cannot show: every call disposes the
    subscriptions of the file that was active, makes new ones, subscribes
    them to the buffer, and to the file when the buffer has one, and tracks
    the opening.  For the empty path nothing more happens.  For another path
    in no repository, in a repository that is not of type ['hg'], or in a
    Mercurial repository without a stack, it then hands one error to
    [notifyInternalError].  In each of these cases it does not throw, and of
    the fields of the instance only [_activeSubscriptions] has changed, one
    more object having been made. *)
Theorem activateFile_reports_unsupported
    (filePath : string) (file : bool)
    (repository : option DiffView.Repository)
    (cached : DiffView.Awaited DiffView.RevisionsState)
    (template : DiffView.Awaited (option string))
    (revisions : DiffView.Awaited (option DiffView.RevisionsState))
    (this : DiffView.DiffViewModel) :
  let subscriptions := {| DiffView.disposable_id := DiffView._objects this |} in
  let opened :=
    DiffView.with_activeSubscriptions (Some subscriptions)
      (DiffView.with_objects (S (DiffView._objects this)) this) in
  let subscribed :=
    match DiffView._activeSubscriptions this with
    | Some previous => [DiffView.subscriptions_dispose previous]
    | None => []
    end
    ++ (if file then [DiffView.file_onDidChange filePath subscriptions] else [])
    ++ [ DiffView.buffer_onDidChangeModified filePath subscriptions;
         DiffView.track "diff-view-open-file" ] in
  let ended :=
    DiffView.activateFile filePath file repository cached template revisions this in
  let reports message :=
    ended
    = (Normal tt, opened,
       subscribed ++ [DiffView.notifyInternalError (new_Error message)]) in
  (filePath = EmptyString -> ended = (Normal tt, opened, subscribed)) /\
  (filePath <> EmptyString -> repository = None ->
   reports "Diff view only supports `Mercurial` repositories, but found `no repository`") /\
  (forall r, filePath <> EmptyString -> repository = Some r ->
   DiffView.getType r <> "hg" ->
   reports ("Diff view only supports `Mercurial` repositories, but found `"
            +:+ DiffView.getType r +:+ "`")) /\
  (forall r, filePath <> EmptyString -> repository = Some r ->
   DiffView.getType r = "hg" ->
   map_get (DiffView._repositoryStacks this) r = None ->
   reports "There must be an repository stack for a given repository!").
Proof.
  destruct this as [activeSubs stacks subs active isActive state objects].
  cbv zeta.
  unfold DiffView.activateFile, DiffView._updateActiveDiffState, DiffView._fetchHgDiff.
  split_and!.
  - intros ->. rewrite decide_True by done.
    destruct activeSubs, file; reflexivity.
  - intros Hpath ->. rewrite decide_False by done.
    destruct activeSubs, file; reflexivity.
  - intros r Hpath -> Hgit. rewrite decide_False by done. rewrite decide_False by done.
    destruct activeSubs, file; reflexivity.
  - intros r Hpath -> Hhg Hnone. rewrite decide_False by done. rewrite decide_True by done.
    cbn [DiffView._repositoryStacks] in Hnone.
    destruct activeSubs, file; run_model; cbn; rewrite Hnone; reflexivity.
Qed.

Lemma activateFile_reports_unsupported_witness :
  let git := {| DiffView.repository_id := 2; DiffView.getType := "git" |} in
  let hg := {| DiffView.repository_id := 1; DiffView.getType := "hg" |} in
  let never {A} (a : A) : DiffView.Awaited A :=
    {| DiffView.settles := Fulfilled a; DiffView.meanwhile := fun this => this |} in
  let open filePath repository :=
    DiffView.activateFile filePath true repository
      (never {| DiffView.revisions := [] |}) (never None) (never None)
      DiffView.initial in
  let subscriptions := {| DiffView.disposable_id := 0 |} in
  let subscribed :=
    [ DiffView.file_onDidChange "a.js" subscriptions;
      DiffView.buffer_onDidChangeModified "a.js" subscriptions;
      DiffView.track "diff-view-open-file" ] in
  (open EmptyString None).1.1 = Normal tt
  /\ (open "a.js" None).2
     = subscribed
       ++ [ DiffView.notifyInternalError
              (new_Error
                 "Diff view only supports `Mercurial` repositories, but found `no repository`") ]
  /\ (open "a.js" (Some git)).2
     = subscribed
       ++ [ DiffView.notifyInternalError
              (new_Error
                 "Diff view only supports `Mercurial` repositories, but found `git`") ]
  /\ DiffView._activeSubscriptions (open "a.js" (Some hg)).1.2 = Some subscriptions.
Proof.
  intros git hg never open subscriptions subscribed. split_and!.
  - unfold open.
    rewrite (proj1 (activateFile_reports_unsupported EmptyString true None _ _ _
                      DiffView.initial) eq_refl).
    reflexivity.
  - unfold open.
    rewrite (proj1 (proj2 (activateFile_reports_unsupported "a.js" true None _ _ _
                             DiffView.initial)) ltac:(discriminate) eq_refl).
    reflexivity.
  - unfold open.
    rewrite (proj1 (proj2 (proj2 (activateFile_reports_unsupported "a.js" true
                                    (Some git) _ _ _ DiffView.initial)))
               git ltac:(discriminate) eq_refl ltac:(discriminate)).
    reflexivity.
  - unfold open.
    rewrite (proj2 (proj2 (proj2 (activateFile_reports_unsupported "a.js" true
                                    (Some hg) _ _ _ DiffView.initial)))
               hg ltac:(discriminate) eq_refl eq_refl eq_refl).
    reflexivity.
Defined.

(** X10, a failed load of the publish state is reported and leaves the
    state loading: in publish mode, when there is no active stack, or the
    promise of the revisions is rejected, or it yields no revisions,
    [_loadModeState] does not throw, hands one error to
    [notifyInternalError], and writes the state once only, with
    [LOADING_PUBLISH_MESSAGE], mode [CREATE], no message and no head
    revision; [publishModeState] is not set back to [READY]. *)
Theorem _loadModeState_publish_failure
    (template : DiffView.Awaited (option string))
    (revisions : DiffView.Awaited (option DiffView.RevisionsState))
    (this : DiffView.DiffViewModel) :
  DiffView.viewMode (DiffView._state this) = DiffView.DiffMode.PUBLISH_MODE ->
  (DiffView._activeRepositoryStack this = None \/
   (exists e, DiffView.settles revisions = Rejected e) \/
   DiffView.settles revisions = Fulfilled None \/
   DiffView.settles revisions = Fulfilled (Some {| DiffView.revisions := [] |})) ->
  let loading :=
    DiffView.with_state
      (DiffView.set_headRevision None
         (DiffView.set_publishMessage None
            (DiffView.set_publishModeState
               DiffView.PublishModeState.LOADING_PUBLISH_MESSAGE
               (DiffView.set_publishMode DiffView.PublishMode.CREATE
                  (DiffView._state this))))) this in
  let ended := DiffView._loadModeState template revisions this in
  ended.1.1 = Normal tt /\
  ended.1.2 = DiffView.meanwhile revisions loading /\
  DiffView.publishModeState (DiffView._state loading)
  = DiffView.PublishModeState.LOADING_PUBLISH_MESSAGE /\
  length (DiffViewLog.internal_errors ended.2) = 1%nat.
Proof.
  intros Hmode Hfails. destruct this as [activeSubs stacks subs active isActive state objects].
  cbn [DiffView._state DiffView._activeRepositoryStack] in *. cbv zeta.
  unfold DiffView._loadModeState, DiffView._loadPublishModeState,
    DiffView.getActiveRevisionsState.
  run_model. cbn -[last Nat.ltb]. rewrite Hmode. cbn -[last Nat.ltb].
  destruct active as [stack |]; cbn -[last Nat.ltb].
  - destruct Hfails as [Hnone | [[e He] | [Hnull | Hempty]]]; [discriminate Hnone | | |].
    + rewrite He. repeat split.
    + rewrite Hnull. repeat split.
    + rewrite Hempty. repeat split.
  - repeat split.
Qed.

Lemma _loadModeState_publish_failure_witness :
  let quiet {A} (p : Settled A) : DiffView.Awaited A :=
    {| DiffView.settles := p; DiffView.meanwhile := fun this => this |} in
  let this :=
    DiffView.with_state
      (DiffView.set_viewMode DiffView.DiffMode.PUBLISH_MODE
         (DiffView._state DiffView.initial)) DiffView.initial in
  let ended := DiffView._loadModeState (quiet (Fulfilled None)) (quiet (Fulfilled None)) this in
  DiffView.viewMode (DiffView._state this) = DiffView.DiffMode.PUBLISH_MODE /\
  DiffView._activeRepositoryStack this = None /\
  ended.1.1 = Normal tt /\
  DiffView.publishModeState (DiffView._state ended.1.2)
  = DiffView.PublishModeState.LOADING_PUBLISH_MESSAGE.
Proof.
  intros quiet this ended.
  destruct (_loadModeState_publish_failure (quiet _ (Fulfilled None))
              (quiet _ (Fulfilled None)) this eq_refl (or_introl eq_refl))
    as (Hreturns & Hleft & Hloading & _).
  split; [reflexivity |]. split; [reflexivity |]. split; [exact Hreturns |].
  unfold ended. rewrite Hleft. exact Hloading.
Defined.

(** X11, a commit that goes through: with an active stack whose [commit] or
    [amend] promise is fulfilled, [commit(message)] asks the stack once,
    reports 'Commit created' or 'Commit amended' by the commit mode, asks
    the stack for its revisions, and reports no error; it does not write the
    state again, so [commitModeState] is left as it is after the wait. *)
Theorem commit_success
    (message : string) (committed : DiffView.Awaited unit)
    (this : DiffView.DiffViewModel) (activeStack : DiffView.RepositoryStack) :
  DiffView._activeRepositoryStack this = Some activeStack ->
  DiffView.settles committed = Fulfilled tt ->
  let awaiting :=
    DiffView.with_state
      (DiffView.set_commitModeState DiffView.CommitModeState.AWAITING_COMMIT
         (DiffView.set_commitMessage (Some message) (DiffView._state this))) this in
  DiffView.commit message committed this
  = (Normal tt, DiffView.meanwhile committed awaiting,
     [ DiffView.emit DiffView.DID_UPDATE_STATE_EVENT ]
     ++ match DiffView.commitMode (DiffView._state this) with
        | DiffView.CommitMode.COMMIT =>
            [ DiffView.stack_commit activeStack message;
              DiffView.addSuccess "Commit created" ]
        | DiffView.CommitMode.AMEND =>
            [ DiffView.stack_amend activeStack message;
              DiffView.addSuccess "Commit amended" ]
        end
     ++ [ DiffView.stack_getRevisionsStatePromise activeStack ]).
Proof.
  intros Hactive Hfulfilled. destruct this as [activeSubs stacks subs active isActive state objects].
  simpl in Hactive. subst active.
  unfold DiffView.commit. run_model.
  cbn. destruct (DiffView.commitMode state); cbn; rewrite Hfulfilled; reflexivity.
Qed.

Lemma commit_success_witness :
  let committed :=
    {| DiffView.settles := Fulfilled tt; DiffView.meanwhile := fun this => this |} in
  let stack :=
    {| DiffView.stack_id := 0;
       DiffView.stack_repository :=
         {| DiffView.repository_id := 7; DiffView.getType := "hg" |} |} in
  let this := DiffView.with_activeRepositoryStack (Some stack) DiffView.initial in
  DiffView._activeRepositoryStack this = Some stack /\
  DiffView.commitModeState
    (DiffView._state (DiffView.commit "Fix typo" committed this).1.2)
  = DiffView.CommitModeState.AWAITING_COMMIT /\
  (DiffView.commit "Fix typo" committed this).2
  = [ DiffView.emit "did-update-state";
      DiffView.stack_commit stack "Fix typo";
      DiffView.addSuccess "Commit created";
      DiffView.stack_getRevisionsStatePromise stack ].
Proof.
  intros committed stack this.
  pose proof (commit_success "Fix typo" committed this stack eq_refl eq_refl) as Hcommit.
  cbv zeta in Hcommit. rewrite Hcommit. repeat split.
Defined.

(** X12, a commit without an active stack: [commit(message)] asks no stack,
    calls [addError] once with the details of the failed assertion, whose
    [stdout] is undefined, sets [commitModeState] back to [READY] and
    returns. *)
Theorem commit_without_active_stack
    (message : string) (committed : DiffView.Awaited unit)
    (this : DiffView.DiffViewModel) :
  DiffView._activeRepositoryStack this = None ->
  DiffView.commit message committed this
  = (Normal tt,
     DiffView.with_state
       (DiffView.set_commitModeState DiffView.CommitModeState.READY
          (DiffView.set_commitMessage (Some message) (DiffView._state this))) this,
     [ DiffView.emit DiffView.DID_UPDATE_STATE_EVENT;
       DiffView.addError "Error creating commit" "Details: undefined";
       DiffView.emit DiffView.DID_UPDATE_STATE_EVENT ]).
Proof.
  intros Hactive. destruct this as [activeSubs stacks subs active isActive state objects].
  simpl in Hactive. subst active. reflexivity.
Qed.

Lemma commit_without_active_stack_witness :
  let committed :=
    {| DiffView.settles := Fulfilled tt; DiffView.meanwhile := fun this => this |} in
  DiffView._activeRepositoryStack DiffView.initial = None /\
  (DiffView.commit "Fix typo" committed DiffView.initial).2
  = [ DiffView.emit "did-update-state";
      DiffView.addError "Error creating commit" "Details: undefined";
      DiffView.emit "did-update-state" ].
Proof.
  intros committed. split; [reflexivity |].
  rewrite (commit_without_active_stack "Fix typo" committed DiffView.initial eq_refl).
  reflexivity.
Defined.

(** ** What depends on the two maps alone *)

Section KeepsMaps.
Import DiffView DiffViewLog.

(** A property of the two maps, which [_updateRepositories] and [dispose]
    keep. *)
Variable J : DiffViewModel -> Prop.
Hypothesis J_maps : forall this this',
  _repositoryStacks this' = _repositoryStacks this ->
  _repositorySubscriptions this' = _repositorySubscriptions this ->
  J this -> J this'.
Hypothesis J__updateRepositories : forall host, keeps J (_updateRepositories host).
Hypothesis J_dispose : keeps J dispose.

Lemma maps_setState_spread (fields : State -> State) :
  keeps J (call _setState (spread fields)).
Proof. intros this HJ. cbn. by apply (J_maps this). Qed.

Lemma maps_write_activeRepositoryStack (v : option RepositoryStack) :
  keeps J (write_activeRepositoryStack v).
Proof. intros this HJ. cbn. by apply (J_maps this). Qed.

Lemma maps_write_isActive (v : bool) : keeps J (write_isActive v).
Proof. intros this HJ. cbn. by apply (J_maps this). Qed.

Lemma maps_write_activeSubscriptions (v : option CompositeDisposable) :
  keeps J (write_activeSubscriptions v).
Proof. intros this HJ. cbn. by apply (J_maps this). Qed.

Lemma maps_new_object : keeps J new_object.
Proof. intros this HJ. cbn. by apply (J_maps this). Qed.

Lemma maps__updateCompareChangedStatus (dirty commitMerge : option FileChanges) :
  keeps J (_updateCompareChangedStatus dirty commitMerge).
Proof.
  intros this HJ. rewrite _updateCompareChangedStatus_run. cbv zeta.
  by apply (J_maps this).
Qed.

Ltac maps_step :=
  match goal with
  | |- keeps _ (call _setState (spread _)) => apply maps_setState_spread
  | |- keeps _ (_updateCompareChangedStatus _ _) => apply maps__updateCompareChangedStatus
  | |- keeps _ (_updateRepositories _) => apply J__updateRepositories
  | |- keeps _ (write_activeRepositoryStack _) => apply maps_write_activeRepositoryStack
  | |- keeps _ (write_isActive _) => apply maps_write_isActive
  | |- keeps _ (write_activeSubscriptions _) => apply maps_write_activeSubscriptions
  | |- keeps _ new_object => apply maps_new_object
  | |- keeps _ (bind _ _) => apply keeps_bind; [| intros ?]
  | |- keeps _ (ret _) => apply keeps_ret
  | |- keeps _ (throw _) => apply keeps_throw
  | |- keeps _ (gets _) => apply keeps_gets
  | |- keeps _ (perform _) => apply keeps_perform
  | |- keeps _ (invariant _ _) => apply keeps_invariant
  | |- keeps _ (invariant_that _ _) => apply keeps_invariant_that
  | |- keeps _ (try_catch _ _) => apply keeps_try_catch; [| intros ?]
  | |- keeps _ (try_finally _ _) => apply keeps_try_finally
  | |- keeps _ (for_each _ _) => apply keeps_for_each; intros ?
  | |- keeps _ (async_call _) => apply keeps_async_call
  | |- keeps _ (catch _ _) => apply keeps_catch; intros ?
  | |- keeps _ (await _) => apply keeps_await; first [assumption | by intros ? ?; auto]
  | |- keeps _ (match ?x with _ => _ end) => destruct x
  end.

Ltac maps_auto := repeat maps_step.

Section Awaiting.
Context (template : Awaited (option string))
        (revisions : Awaited (option RevisionsState)).
Hypothesis calm_template : calm J template.
Hypothesis calm_revisions : calm J revisions.

Lemma maps_getActiveRevisionsState : keeps J (getActiveRevisionsState revisions).
Proof. unfold getActiveRevisionsState. maps_auto. Qed.

Lemma maps_await_template {B} (k : option string -> M B) :
  (forall commitMessage, keeps J (k commitMessage)) ->
  keeps J
    (bind (_loadActiveRepositoryTemplateCommitMessage template)
          (fun promise => bind (await promise) k)).
Proof.
  intros Hk this Hthis. unfold bind at 1.
  assert (Hload :
    _loadActiveRepositoryTemplateCommitMessage template this
    = match _activeRepositoryStack this with
      | Some stack => (Normal template, this, [stack_getTemplateCommitMessage stack])
      | None =>
          (Throw (new_Error "Diff View: No active file or repository open"), this, [])
      end).
  { unfold _loadActiveRepositoryTemplateCommitMessage, bind, gets.
    by destruct (_activeRepositoryStack this). }
  rewrite Hload. destruct (_activeRepositoryStack this) as [stack |]; [| done].
  pose proof (keeps_bind J (await template) k (keeps_await _ _ calm_template) Hk
                this Hthis) as Hrest.
  by destruct (bind (await template) k this) as [[[b | e] this'] did].
Qed.

Lemma maps__loadCommitModeState : keeps J (_loadCommitModeState template revisions).
Proof.
  unfold _loadCommitModeState, _loadActiveRepositoryLatestCommitMessage.
  pose proof maps_getActiveRevisionsState.
  apply keeps_bind; [maps_auto | intros _].
  apply keeps_bind; [| intros commitMessage; maps_auto].
  apply keeps_try_catch; [| intros e; maps_auto].
  apply keeps_bind; [maps_auto | intros [|]].
  - apply maps_await_template. intros commitMessage. maps_auto.
  - maps_auto; done.
Qed.

Lemma maps__loadPublishModeState : keeps J (_loadPublishModeState revisions).
Proof.
  unfold _loadPublishModeState. pose proof maps_getActiveRevisionsState.
  maps_auto; done.
Qed.

Lemma maps__loadModeState : keeps J (_loadModeState template revisions).
Proof.
  unfold _loadModeState.
  pose proof maps__loadCommitModeState. pose proof maps__loadPublishModeState.
  maps_auto; done.
Qed.

Lemma maps__updateChangedRevisions (repositoryStack : RepositoryStack)
    (revisionsState : RevisionsState) (reloadFileDiff : bool) :
  keeps J
    (_updateChangedRevisions repositoryStack revisionsState reloadFileDiff
       template revisions).
Proof.
  unfold _updateChangedRevisions, _onUpdateRevisionsState.
  pose proof maps__loadModeState.
  apply keeps_bind; [maps_auto | intros active].
  destruct (decide (Some repositoryStack = active)); maps_auto; done.
Qed.

Lemma maps_setViewMode (mode : DiffMode.t) :
  keeps J (setViewMode mode template revisions).
Proof.
  unfold setViewMode. pose proof maps__loadModeState.
  apply keeps_bind; [maps_auto | intros current].
  destruct (decide (mode = current)); maps_auto; done.
Qed.

Lemma maps_setCommitMode (mode : CommitMode.t) :
  keeps J (setCommitMode mode template revisions).
Proof.
  unfold setCommitMode. pose proof maps__loadCommitModeState. maps_auto; done.
Qed.

Lemma maps_activateFile (filePath : string) (file : bool)
    (repository : option Repository) (cached : Awaited RevisionsState) :
  calm J cached ->
  keeps J (activateFile filePath file repository cached template revisions).
Proof.
  intros Hcached.
  unfold activateFile, _updateActiveDiffState, _fetchHgDiff, _setActiveRepositoryStack.
  pose proof maps__updateChangedRevisions.
  apply keeps_bind; [maps_auto | intros previous].
  apply keeps_bind; [maps_auto | intros _].
  apply keeps_bind; [maps_auto | intros id]. cbv zeta.
  apply keeps_bind; [maps_auto | intros _].
  apply keeps_bind; [maps_auto | intros _].
  apply keeps_bind; [maps_auto | intros _].
  apply keeps_bind; [maps_auto | intros _].
  apply keeps_bind; [| intros promise; maps_auto].
  apply keeps_async_call.
  destruct (decide (filePath = EmptyString)); [maps_auto |].
  destruct repository as [repository |]; [| maps_auto].
  destruct (decide (getType repository = "hg")); [| maps_auto].
  apply keeps_bind; [maps_auto | intros stacks].
  apply keeps_bind; [maps_auto | intros repositoryStack].
  apply keeps_bind; [maps_auto | intros active].
  destruct (decide (active = Some repositoryStack)); maps_auto; done.
Qed.

End Awaiting.

(** Whatever happens to an instance, the property of its maps stays. *)
Lemma run_maps (activity : Activity) (this : DiffViewModel) :
  J this -> J (run activity this).
Proof.
  assert (Hleaves : forall A (m : M A) this, keeps J m -> J this -> J (leaves m this)).
  { intros A m this' Hm Hthis. unfold leaves. specialize (Hm this' Hthis).
    by destruct (m this') as [[[a | e] this''] did]. }
  revert this. induction activity; intros this Hthis; cbn [run].
  - done.
  - by apply IHactivity2, IHactivity1.
  - apply Hleaves; [| done]. unfold setPublishMessage. maps_auto.
  - by apply Hleaves; [apply maps_setViewMode |].
  - by apply Hleaves; [apply maps_setCommitMode |].
  - apply Hleaves; [| done]. unfold publishDiff. maps_auto.
  - apply Hleaves; [| done]. unfold commit. maps_auto.
  - by apply Hleaves; [apply maps_activateFile |].
  - apply Hleaves; [| done]. unfold activate. maps_auto.
  - apply Hleaves; [| done]. unfold deactivate. maps_auto.
  - by apply Hleaves; [apply J_dispose |].
  - by apply Hleaves; [apply J__updateRepositories |].
  - apply Hleaves; [| done]. unfold _updateDirtyChangedStatus. maps_auto.
  - apply Hleaves; [| done]. unfold _updateCommitMergeFileChanges. maps_auto.
  - by apply Hleaves; [apply maps__updateChangedRevisions |].
Qed.

End KeepsMaps.

Section StacksBelong.
Import DiffView DiffViewLog.

Lemma map_delete_subset {K V} `{EqDecision K} (m : JsMap K V) (k : K) (x : K * V) :
  x ∈ map_delete m k -> x ∈ m.
Proof.
  induction m as [| [k' v'] m IH]; cbn [map_delete]; [done |].
  destruct (decide (k' = k)).
  - intros Hin. apply elem_of_cons. by right.
  - intros [-> | Hin]%elem_of_cons; apply elem_of_cons; [by left | right; by apply IH].
Qed.

Lemma map_set_subset {K V} `{EqDecision K} (m : JsMap K V) (k : K) (v : V) (x : K * V) :
  x ∈ map_set m k v -> x = (k, v) \/ x ∈ m.
Proof.
  induction m as [| [k' v'] m IH]; cbn [map_set].
  - intros ->%list_elem_of_singleton. by left.
  - destruct (decide (k' = k)).
    + intros [-> | Hin]%elem_of_cons; [by left | right; apply elem_of_cons; by right].
    + intros [-> | Hin]%elem_of_cons; [right; apply elem_of_cons; by left |].
      destruct (IH Hin) as [-> | ?]; [by left | right; apply elem_of_cons; by right].
Qed.

Lemma keeps_for_each_in {A} (I : DiffViewModel -> Prop) (xs : list A)
    (body : A -> M unit) :
  (forall x, x ∈ xs -> keeps I (body x)) -> keeps I (for_each xs body).
Proof.
  induction xs as [| x xs IH]; intros Hbody; [apply keeps_ret |].
  rewrite for_each_cons. apply keeps_bind.
  - apply Hbody, elem_of_cons. by left.
  - intros _. apply IH. intros y Hy. apply Hbody, elem_of_cons. by right.
Qed.

Lemma stacks_belong_dispose_removed (repositories : JsSet Repository)
    (entry : Repository * RepositoryStack) :
  keeps stacks_belong (dispose_removed repositories entry).
Proof.
  destruct entry as [k v]. intros [activeSubs stacks subs active isActive state objects] Hthis.
  unfold dispose_removed. destruct (set_has repositories k); [done |].
  unfold bind, perform, gets, write_repositoryStacks, write_repositorySubscriptions,
    modify, invariant, ret, throw. cbn.
  assert (Hdeleted : stacks_belong
            {| _activeSubscriptions := activeSubs;
       _repositoryStacks := map_delete stacks k; _repositorySubscriptions := subs;
               _activeRepositoryStack := active; _isActive := isActive;
               _state := state; _objects := objects |}).
  { intros r s Hin. apply (Hthis r s). by eapply map_delete_subset. }
  destruct (map_get subs k); cbn; [| done].
  intros r s Hin. by apply (Hdeleted r s).
Qed.

Lemma stacks_belong_create_added (repository : Repository) :
  getType repository = "hg" -> keeps stacks_belong (create_added repository).
Proof.
  intros Hhg [activeSubs stacks subs active isActive state objects] Hthis.
  rewrite create_added_run. cbv zeta. destruct (map_has stacks repository); [done |].
  rewrite _createRepositoryStack_run. cbv zeta.
  intros r s [[= -> ->] | Hin]%map_set_subset; [done | by apply (Hthis r s)].
Qed.

Lemma stacks_belong__updateRepositories (host : Host) :
  keeps stacks_belong (_updateRepositories host).
Proof.
  rewrite _updateRepositories_loops. cbv zeta.
  apply keeps_bind; [apply keeps_gets | intros entries].
  apply keeps_bind.
  { apply keeps_for_each. intros entry. apply stacks_belong_dispose_removed. }
  intros _. apply keeps_bind.
  { apply keeps_for_each_in. intros r Hr. apply stacks_belong_create_added.
    destruct (set_from_spec (hgRepositories host)) as [_ Hset].
    apply Hset in Hr. by apply hgRepositories_spec in Hr as [_ ?]. }
  intros _. unfold _updateDirtyChangedStatus.
  apply keeps_bind; [apply keeps_gets | intros stacks].
  intros this Hthis. rewrite _updateCompareChangedStatus_run. cbv zeta. exact Hthis.
Qed.

Lemma stacks_belong_dispose : keeps stacks_belong dispose.
Proof.
  intros this _. rewrite dispose_run.
  intros r s Hin. by apply elem_of_nil in Hin.
Qed.

Lemma stacks_belong_reachable (constructed : Host) (activity : Activity) :
  stacks_belong (run activity (leaves (constructor constructed) initial)).
Proof.
  apply (run_maps stacks_belong).
  - intros this this' Hstacks _ Hthis r s Hin. apply (Hthis r s). by rewrite <- Hstacks.
  - apply stacks_belong__updateRepositories.
  - apply stacks_belong_dispose.
  - unfold leaves, constructor.
    pose proof (stacks_belong__updateRepositories constructed initial) as Hupdate.
    unfold bind, perform.
    destruct (_updateRepositories constructed initial) as [[[[] | e] this'] did];
      cbn [fst snd]; apply Hupdate; intros r s Hin; by apply elem_of_nil in Hin.
Qed.

End StacksBelong.

(** X13, stacks belong to their repositories: in every instance that the
    constructor and any later activity lead to, a stack held in
    [_repositoryStacks] is the one made for the repository it is stored
    under, and that repository is of type ['hg']. *)
Theorem stacks_made_for_their_repository
    (constructed : DiffView.Host) (activity : DiffView.Activity)
    (r : DiffView.Repository) (stack : DiffView.RepositoryStack) :
  let this :=
    DiffView.run activity
      (DiffView.leaves (DiffView.constructor constructed) DiffView.initial) in
  map_get (DiffView._repositoryStacks this) r = Some stack ->
  DiffView.stack_repository stack = r /\ DiffView.getType r = "hg".
Proof.
  cbv zeta. intros Hget. apply (stacks_belong_reachable constructed activity r stack).
  clear -Hget. induction (DiffView._repositoryStacks _) as [| [k v] m IH]; [done |].
  cbn [map_get] in Hget. destruct (decide (k = r)) as [-> | ?].
  - injection Hget as ->. apply elem_of_cons. by left.
  - apply elem_of_cons. right. by apply IH.
Qed.

Lemma stacks_made_for_their_repository_witness :
  let hg := {| DiffView.repository_id := 1; DiffView.getType := "hg" |} in
  let git := {| DiffView.repository_id := 2; DiffView.getType := "git" |} in
  let host :=
    {| DiffView.getRepositories := [Some git; Some hg];
       DiffView.getDirtyFileChanges := fun _ => ∅;
       DiffView.getCommitMergeFileChanges := fun _ => ∅;
       DiffView.union := fun _ => ∅ |} in
  let stack := {| DiffView.stack_id := 0; DiffView.stack_repository := hg |} in
  let this :=
    DiffView.run DiffView.idle
      (DiffView.leaves (DiffView.constructor host) DiffView.initial) in
  map_get (DiffView._repositoryStacks this) hg = Some stack /\
  DiffView.stack_repository stack = hg /\ DiffView.getType hg = "hg".
Proof.
  intros hg git host stack this.
  assert (Hget : map_get (DiffView._repositoryStacks this) hg = Some stack)
    by (vm_compute; reflexivity).
  split; [exact Hget |].
  exact (stacks_made_for_their_repository host DiffView.idle hg stack Hget).
Defined.

(** * The active file *)

Section ActiveFileFacts.
Import ActiveFile.

(** A save in place touches [savedContents] alone. *)
Lemma oldContents_afterwards meanwhile object :
  oldContents (afterwards meanwhile object) = oldContents object.
Proof. unfold afterwards. by destruct (saved meanwhile). Qed.

Lemma newContents_afterwards meanwhile object :
  newContents (afterwards meanwhile object) = newContents object.
Proof. unfold afterwards. by destruct (saved meanwhile). Qed.

Lemma _updateDiffState_fulfilled path hgDiffState uiProviders lists meanwhile state :
  Promise_all uiProviders = Fulfilled lists ->
  _updateDiffState path hgDiffState uiProviders meanwhile state =
    (Normal tt,
     set_inlineComponents (concat lists)
       (afterwards meanwhile (newFileState path hgDiffState)),
     debouncedEmitActiveFileUpdate
       :: imap (fun provider _ => composeUiElements provider path) uiProviders
       ++ [debouncedEmitActiveFileUpdate]).
Proof.
  intros Hall.
  unfold _updateDiffState, _fetchInlineComponents, _setActiveFileState, bind,
    gets, await.
  rewrite Hall. cbn. by rewrite app_nil_r.
Qed.

(** X14, [_updateDiffState]: when every UI provider answers, the update
    returns and the state it leaves is the diff state it was given with the
    providers' components, in the order of the providers.  Of what went on
    while the components were fetched only a save that finished in place
    shows, in [savedContents]: the state left is the same whatever the
    active file state was before and whatever other tasks stored in it
    meanwhile, and it records no unsaved edit unless such a save stored
    contents other than the ones shown. *)
Theorem _updateDiffState_overwrites_meanwhile
    path hgDiffState uiProviders lists meanwhile meanwhile' state state' :
  Promise_all uiProviders = Fulfilled lists ->
  saved meanwhile' = saved meanwhile ->
  let update := _updateDiffState path hgDiffState uiProviders in
  let final := leaves (update meanwhile) state in
  ends (update meanwhile) state = Normal tt /\
  final = leaves (update meanwhile') state' /\
  filePath final = path /\
  oldContents final = committedContents hgDiffState /\
  newContents final = filesystemContents hgDiffState /\
  savedContents final
  = Some (default (filesystemContents hgDiffState) (saved meanwhile)) /\
  (hasUnsavedEdits final <->
   exists contents,
     saved meanwhile = Some contents /\ contents <> filesystemContents hgDiffState) /\
  compareRevisionInfo final = Some (revisionInfo hgDiffState) /\
  inlineComponents final = Some (concat lists).
Proof.
  intros Hall Hsaved update final. subst update final. unfold leaves, ends.
  rewrite !(_updateDiffState_fulfilled _ _ _ lists) by done. cbn [fst snd].
  unfold afterwards, hasUnsavedEdits. rewrite Hsaved.
  destruct (saved meanwhile) as [contents |]; cbn; split_and!; try done.
  - split.
    + intros Hne. exists contents. split; [done | congruence].
    + intros (? & [= <-] & Hne). congruence.
  - split; [done | by intros (? & [=] & _)].
Qed.

Lemma _updateDiffState_overwrites_meanwhile_witness :
  let hgDiffState :=
    {| committedContents := "a"; filesystemContents := "b";
       revisionInfo := {| DiffView.hash := "abc"; DiffView.bookmarks := ["master"];
                          DiffView.description := "d" |} |} in
  let uiProviders :=
    [ {| outcome := Fulfilled [1%nat]; settledAt := 2 |};
      {| outcome := Fulfilled [2%nat]; settledAt := 1 |} ] in
  let edited := {| written := set_newContents "edited"; saved := Some "c" |} in
  let final :=
    leaves (_updateDiffState "f.js" hgDiffState uiProviders edited)
      getInitialFileChangeState in
  newContents final = "b" /\
  savedContents final = Some "c" /\
  inlineComponents final = Some [1%nat; 2%nat].
Proof.
  intros hgDiffState uiProviders edited final.
  pose proof (_updateDiffState_overwrites_meanwhile "f.js" hgDiffState
    uiProviders [[1%nat]; [2%nat]] edited edited
    getInitialFileChangeState getInitialFileChangeState eq_refl eq_refl) as H.
  cbv zeta in H. destruct H as (_ & _ & _ & _ & Hnew & Hsaved & _ & _ & Hinline).
  split_and!; [exact Hnew | exact Hsaved | exact Hinline].
Defined.

(** X15, [_updateDiffStateIfChanged]: an update for a file other than the
    active one does nothing.  For the active file, when every UI provider
    answers, the user is told of an override exactly when the contents on
    show are not the saved ones, differ from the file system's, and the file
    system's differ from the saved ones; the contents on show afterwards are
    the user's when the user has edited and the file system still holds the
    saved contents, and the file system's otherwise. *)
Theorem _updateDiffStateIfChanged_keeps_or_notifies
    path committed filesystem revision uiProviders lists meanwhile state :
  Promise_all uiProviders = Fulfilled lists ->
  let update :=
    _updateDiffStateIfChanged path committed filesystem revision uiProviders meanwhile in
  ends update state = Normal tt /\
  (path <> filePath state -> leaves update state = state /\ does update state = []) /\
  (notifyFilesystemOverrideUserEdits path ∈ does update state <->
     path = filePath state /\ hasUnsavedEdits state /\
     filesystem <> newContents state /\ savedContents state <> Some filesystem) /\
  (path = filePath state ->
     oldContents (leaves update state) = committed /\
     newContents (leaves update state) =
       if decide (hasUnsavedEdits state /\ savedContents state = Some filesystem)
       then newContents state else filesystem).
Proof.
  intros Hall update. subst update. unfold ends, leaves, does, hasUnsavedEdits.
  unfold _updateDiffStateIfChanged. unfold bind at 1 2 3. unfold gets. cbn -[_updateDiffState].
  destruct (decide (path = filePath state)) as [Hpath|Hpath].
  2: { rewrite bool_decide_eq_false_2 by done. cbn -[_updateDiffState].
       split_and!; try done. split; [by intros ?%elem_of_nil | by intros []]. }
  rewrite bool_decide_eq_true_2 by done. cbn -[_updateDiffState].
  destruct (decide (savedContents state = Some (newContents state))) as [Hsaved|Hsaved].
  { rewrite (bool_decide_eq_true_2 _ Hsaved). cbn -[_updateDiffState].
    rewrite (_updateDiffState_fulfilled _ _ _ lists) by done. cbn.
    rewrite ?oldContents_afterwards, ?newContents_afterwards. cbn.
    split_and!; try done.
    - split; [|by intros (_ & ? & _)].
      rewrite elem_of_cons, elem_of_app, elem_of_cons.
      intros [[=]|[(i & ? & [=] & _)%elem_of_lookup_imap|[[=]|[]%elem_of_nil]]].
    - intros _. split; [done|]. rewrite decide_False; [done | by intros []]. }
  rewrite (bool_decide_eq_false_2 _ Hsaved). cbn -[_updateDiffState].
  destruct (decide (filesystem = newContents state)) as [Hfs|Hfs].
  { rewrite (bool_decide_eq_true_2 _ Hfs). cbn -[_updateDiffState].
    rewrite (_updateDiffState_fulfilled _ _ _ lists) by done. cbn.
    rewrite ?oldContents_afterwards, ?newContents_afterwards. cbn.
    split_and!; try done.
    - split; [|by intros (_ & _ & ? & _)].
      rewrite elem_of_cons, elem_of_app, elem_of_cons.
      intros [[=]|[(i & ? & [=] & _)%elem_of_lookup_imap|[[=]|[]%elem_of_nil]]].
    - intros _. split; [done|]. destruct (decide _) as [[_ Hs]|]; [|done].
      exfalso. apply Hsaved. by rewrite Hs, Hfs. }
  rewrite (bool_decide_eq_false_2 _ Hfs). cbn -[_updateDiffState].
  destruct (decide (Some filesystem = savedContents state)) as [Hkeep|Hkeep].
  { rewrite (bool_decide_eq_true_2 _ Hkeep). cbn -[_updateDiffState].
    rewrite (_updateDiffState_fulfilled _ _ _ lists) by done. cbn.
    rewrite ?oldContents_afterwards, ?newContents_afterwards. cbn.
    split_and!; try done.
    - split; [|by intros (_ & _ & _ & ?)].
      rewrite elem_of_cons, elem_of_app, elem_of_cons.
      intros [[=]|[(i & ? & [=] & _)%elem_of_lookup_imap|[[=]|[]%elem_of_nil]]].
    - intros _. split; [done|]. by rewrite decide_True. }
  rewrite (bool_decide_eq_false_2 _ Hkeep). unfold bind, perform.
  rewrite (_updateDiffState_fulfilled _ _ _ lists) by done. cbn.
    rewrite ?oldContents_afterwards, ?newContents_afterwards. cbn.
  split_and!; try done.
  - split; [|by left]. intros _. split_and!; try done.
  - intros _. split; [done|]. rewrite decide_False; [done|]. by intros [_ ?].
Qed.

Lemma _updateDiffStateIfChanged_keeps_or_notifies_witness :
  let revision :=
    {| DiffView.hash := "abc"; DiffView.bookmarks := []; DiffView.description := "d" |} in
  let state :=
    set_newContents "edited"
      (newFileState "f.js"
         {| committedContents := "a"; filesystemContents := "b";
            revisionInfo := revision |}) in
  newContents
    (leaves (_updateDiffStateIfChanged "f.js" "a2" "b" revision []
               {| written := fun s => s; saved := None |}) state)
  = "edited".
Proof.
  intros revision state.
  pose proof (_updateDiffStateIfChanged_keeps_or_notifies "f.js" "a2" "b" revision
    [] [] {| written := fun s => s; saved := None |} state eq_refl) as H.
  cbv zeta in H. destruct H as (_ & _ & _ & H).
  destruct (H eq_refl) as [_ Hnew]. rewrite Hnew. reflexivity.
Defined.

(** X16, [_updateDiffStateIfChanged] twice: an update that keeps the user's
    edits, no save finishing while it fetches the components, records them as
    the saved contents, so the next update for the file replaces them by the
    file system's contents and tells the user nothing. *)
Theorem kept_edits_are_overridden_silently
    path committed filesystem revision uiProviders lists meanwhile
    committed' filesystem' revision' uiProviders' lists' meanwhile' state :
  Promise_all uiProviders = Fulfilled lists ->
  Promise_all uiProviders' = Fulfilled lists' ->
  saved meanwhile = None ->
  path = filePath state ->
  hasUnsavedEdits state ->
  savedContents state = Some filesystem ->
  let first :=
    _updateDiffStateIfChanged path committed filesystem revision uiProviders meanwhile in
  let second :=
    _updateDiffStateIfChanged path committed' filesystem' revision'
      uiProviders' meanwhile' in
  newContents (leaves first state) = newContents state /\
  savedContents (leaves first state) = Some (newContents state) /\
  newContents (leaves second (leaves first state)) = filesystem' /\
  (notifyFilesystemOverrideUserEdits path ∉ does first state) /\
  (notifyFilesystemOverrideUserEdits path ∉ does second (leaves first state)).
Proof.
  intros Hall Hall' Hnosave Hpath Hedits Hsaved first second. subst first second.
  unfold hasUnsavedEdits in Hedits.
  assert (Hfs : filesystem <> newContents state).
  { intros ->. by apply Hedits. }
  assert (Hfirst :
    _updateDiffStateIfChanged path committed filesystem revision uiProviders
      meanwhile state
    = _updateDiffState path
        {| committedContents := committed; filesystemContents := newContents state;
           revisionInfo := revision |} uiProviders meanwhile state).
  { unfold _updateDiffStateIfChanged. unfold bind at 1 2 3. unfold gets.
    cbn -[_updateDiffState].
    rewrite bool_decide_eq_true_2 by done. cbn -[_updateDiffState].
    rewrite (bool_decide_eq_false_2 _ Hedits), (bool_decide_eq_false_2 _ Hfs).
    cbn -[_updateDiffState].
    rewrite bool_decide_eq_true_2 by done.
    by destruct (_updateDiffState _ _ _ _ _) as [[? ?] ?]. }
  assert (Hsecond : forall next,
    filePath next = path -> savedContents next = Some (newContents next) ->
    _updateDiffStateIfChanged path committed' filesystem' revision' uiProviders'
      meanwhile' next
    = _updateDiffState path
        {| committedContents := committed'; filesystemContents := filesystem';
           revisionInfo := revision' |} uiProviders' meanwhile' next).
  { intros next Hnext Hnone.
    unfold _updateDiffStateIfChanged. unfold bind at 1 2 3. unfold gets.
    cbn -[_updateDiffState].
    rewrite bool_decide_eq_true_2 by done. cbn -[_updateDiffState].
    rewrite (bool_decide_eq_true_2 _ Hnone). cbn -[_updateDiffState].
    by destruct (_updateDiffState path _ uiProviders' meanwhile' next) as [[? ?] ?]. }
  unfold leaves, does. rewrite Hfirst.
  rewrite (_updateDiffState_fulfilled _ _ _ lists) by done. cbn [fst snd].
  unfold afterwards at 1 2 3 4. rewrite Hnosave.
  rewrite Hsecond by done.
  rewrite (_updateDiffState_fulfilled _ _ _ lists') by done. cbn [fst snd].
  split_and!; try done.
  - cbn. by rewrite newContents_afterwards.
  - rewrite not_elem_of_cons, not_elem_of_app, not_elem_of_cons.
    split_and!; try done; [| apply not_elem_of_nil].
    intros (i & ? & [=] & _)%elem_of_lookup_imap.
  - rewrite not_elem_of_cons, not_elem_of_app, not_elem_of_cons.
    split_and!; try done; [| apply not_elem_of_nil].
    intros (i & ? & [=] & _)%elem_of_lookup_imap.
Qed.

Lemma kept_edits_are_overridden_silently_witness :
  let revision :=
    {| DiffView.hash := "abc"; DiffView.bookmarks := []; DiffView.description := "d" |} in
  let state :=
    set_newContents "edited"
      (newFileState "f.js"
         {| committedContents := "a"; filesystemContents := "b";
            revisionInfo := revision |}) in
  let quiet := {| written := fun s => s; saved := None |} in
  let first := _updateDiffStateIfChanged "f.js" "a2" "b" revision [] quiet in
  let second := _updateDiffStateIfChanged "f.js" "a3" "c" revision [] quiet in
  newContents (leaves second (leaves first state)) = "c" /\
  (notifyFilesystemOverrideUserEdits "f.js" ∉ does second (leaves first state)).
Proof.
  intros revision state quiet first second.
  assert (Hedits : hasUnsavedEdits state) by (by intros [=]).
  pose proof (kept_edits_are_overridden_silently "f.js" "a2" "b" revision [] []
    quiet "a3" "c" revision [] [] quiet state
    eq_refl eq_refl eq_refl eq_refl Hedits eq_refl) as H.
  cbv zeta in H. destruct H as (_ & _ & Hnew & _ & Hquiet).
  split; [exact Hnew | exact Hquiet].
Defined.

(** X17, [_onDidFileChange]: a change of a file other than the active one is
    ignored without reading the file; and when the active file was replaced
    while the file was read, the file is read but nothing is written to the
    active file state and the user is told nothing: the method returns when
    the state then holds a revision to compare with, and fails on its
    invariant when it holds none, as after [deactivate]. *)
Theorem _onDidFileChange_only_active_file
    path filesystem reading uiProviders meanwhile state :
  let change :=
    _onDidFileChange path (Fulfilled filesystem) reading uiProviders meanwhile in
  (filePath state <> path ->
     change state = (Normal tt, state, [])) /\
  (filePath state = path -> filePath (reading state) <> path ->
     change state
     = (match compareRevisionInfo (reading state) with
        | Some _ => Normal tt
        | None =>
            Throw (new_Error
              "Diff View: Revision info must be defined to update changed state")
        end,
        reading state, [getFileSystemContents path])).
Proof.
  intros change. subst change. split.
  - intros Hpath. unfold _onDidFileChange. unfold bind at 1. unfold gets.
    rewrite bool_decide_eq_false_2 by done. done.
  - intros Hpath Hstale.
    unfold _onDidFileChange, _updateDiffStateIfChanged, bind, gets, perform,
      await, invariant.
    rewrite bool_decide_eq_true_2 by done. cbn.
    destruct (compareRevisionInfo (reading state)) as [revision |]; cbn; [| done].
    rewrite bool_decide_eq_false_2 by (by intros ->). done.
Qed.

Lemma _onDidFileChange_only_active_file_witness :
  let quiet := {| written := fun s => s; saved := None |} in
  let shown :=
    newFileState "f.js"
      {| committedContents := "a"; filesystemContents := "b";
         revisionInfo := {| DiffView.hash := "abc"; DiffView.bookmarks := [];
                            DiffView.description := "d" |} |} in
  let deactivate := fun _ : FileChangeState => getInitialFileChangeState in
  _onDidFileChange "g.js" (Fulfilled "x") (fun s => s) [] quiet shown
  = (Normal tt, shown, []) /\
  _onDidFileChange "f.js" (Fulfilled "x") deactivate [] quiet shown
  = (Throw (new_Error
       "Diff View: Revision info must be defined to update changed state"),
     getInitialFileChangeState, [getFileSystemContents "f.js"]).
Proof.
  intros quiet shown deactivate. split.
  - refine (proj1 (_onDidFileChange_only_active_file "g.js" "x" (fun s => s)
                     [] quiet shown) _).
    by intros [=].
  - refine (proj2 (_onDidFileChange_only_active_file "f.js" "x" deactivate
                     [] quiet shown) eq_refl _).
    by intros [=].
Defined.

(** X18, [_onDidFileChange]: a change of the active file while no revision
    is being compared, as before the first diff is shown, reads the file and
    then fails on its invariant, leaving the active file state alone. *)
Theorem _onDidFileChange_needs_revision
    path filesystem reading uiProviders meanwhile state :
  filePath state = path ->
  compareRevisionInfo (reading state) = None ->
  _onDidFileChange path (Fulfilled filesystem) reading uiProviders meanwhile state
  = (Throw (new_Error
       "Diff View: Revision info must be defined to update changed state"),
     reading state, [getFileSystemContents path]).
Proof.
  intros Hpath Hrevision.
  unfold _onDidFileChange, bind, gets, perform, await, invariant.
  rewrite bool_decide_eq_true_2 by done. cbn. by rewrite Hrevision.
Qed.

Lemma _onDidFileChange_needs_revision_witness :
  _onDidFileChange EmptyString (Fulfilled "x") (fun s => s) []
    {| written := fun s => s; saved := None |} getInitialFileChangeState
  = (Throw (new_Error
       "Diff View: Revision info must be defined to update changed state"),
     getInitialFileChangeState, [getFileSystemContents EmptyString]).
Proof.
  exact (_onDidFileChange_needs_revision EmptyString "x" (fun s => s) []
    {| written := fun s => s; saved := None |} getInitialFileChangeState
    eq_refl eq_refl).
Defined.

End ActiveFileFacts.

(** * The test runner *)

Section TestRunnerFacts.
Import TestRunner.

Lemma substring_to_length (searchString data : string) :
  substring_to (String.length searchString) data = searchString
  <-> exists rest, data = searchString +:+ rest.
Proof.
  unfold substring_to. revert data.
  induction searchString as [|a searchString IH]; intros [|b data]; cbn.
  - split; [intros _; by exists EmptyString | done].
  - split; [intros _; by exists (String b data) | done].
  - split; [done | by intros [rest [=]]].
  - split.
    + intros [= -> Hrest].
      apply IH in Hrest as [rest ->]. exists rest. by rewrite append_String.
    + intros [rest Hrest]. rewrite append_String in Hrest.
      injection Hrest as -> ->. f_equal. apply IH. by exists rest.
Qed.

Lemma length_append_string (s t : string) :
  String.length (s +:+ t) = (String.length s + String.length t)%nat.
Proof.
  induction s as [|a s IH]; [done|].
  rewrite append_String. cbn. by rewrite IH.
Qed.

Lemma onData_startsWith (chunk : string) :
  onData chunk = if String.prefix PREFIX chunk then [] else [chunk].
Proof.
  unfold onData.
  destruct (String.prefix PREFIX chunk) eqn:Hprefix.
  - rewrite bool_decide_eq_true_2; [done|].
    apply substring_to_length. by apply prefix_app.
  - rewrite bool_decide_eq_false_2; [done|].
    intros Hsub%substring_to_length%prefix_app. congruence.
Qed.

(** X19, the listener of the test runner: what reaches the standard output
    is the chunks that do not start with the window load time prefix, whole
    and in the order of arrival; a chunk starts with the prefix, for the
    comparison of its first characters that the listener makes, exactly when
    it is the prefix followed by some text, so a chunk shorter than the
    prefix is passed on and any text that follows the prefix in a chunk is
    dropped with it. *)
Theorem written_drops_prefixed_chunks (chunks : list string) :
  written chunks = filter (fun chunk => String.prefix PREFIX chunk = false) chunks /\
  (forall chunk,
     chunk ∈ written chunks <->
     chunk ∈ chunks /\ ~ exists rest, chunk = PREFIX +:+ rest) /\
  (forall chunk,
     (String.length chunk < String.length PREFIX)%nat -> onData chunk = [chunk]) /\
  (forall rest, onData (PREFIX +:+ rest) = []).
Proof.
  assert (Hfilter :
    written chunks = filter (fun chunk => String.prefix PREFIX chunk = false) chunks).
  { unfold written. induction chunks as [|chunk chunks IH]; [done|].
    cbn [flat_map]. rewrite IH, onData_startsWith, filter_cons.
    destruct (String.prefix PREFIX chunk) eqn:Hprefix.
    - by rewrite decide_False.
    - by rewrite decide_True. }
  split_and!.
  - exact Hfilter.
  - intros chunk. rewrite Hfilter, list_elem_of_filter, <- prefix_app.
    split; intros [Hprefix Hin]; split; try done.
    + by rewrite Hprefix.
    + by destruct (String.prefix PREFIX chunk).
  - intros chunk Hshort. rewrite onData_startsWith.
    destruct (String.prefix PREFIX chunk) eqn:Hprefix; [|done].
    apply prefix_app in Hprefix as [rest ->].
    rewrite length_append_string in Hshort. lia.
  - intros rest. rewrite onData_startsWith.
    replace (String.prefix PREFIX (PREFIX +:+ rest)) with true; [done|].
    symmetry. apply prefix_app. by exists rest.
Qed.

End TestRunnerFacts.
